(** * pyQCD: the lattice gauge-field update engine of [lib/lattice.cpp]

    A shallow embedding of [lattice::mod] and of the methods of
    [class Lattice] ([P], [Si], [update_link], [update], [Pav]).

    Conventions of the embedding.
    - [int] is modelled by [Z].  Signed overflow is undefined behaviour in
      C++; a theorem about a path on which the code adds to, subtracts from
      or multiplies [int]s of unbounded size carries a hypothesis that keeps
      the values within a 32-bit [int], where [Z] and [int] agree.
    - [double] is modelled by the real numbers [R] with exact arithmetic,
      [std::complex<double>] by pairs of reals, [Eigen::Matrix3cd] by
      records of nine complex entries.  Which way a comparison of two
      computed [double]s goes depends on their rounding; no theorem says
      which branch such a comparison takes.
    - [std::vector] and C arrays are lists; [operator[]] is unchecked in
      C++, so an index outside the container is undefined behaviour.
    - A call has an [outcome]: it returns a value, raises a failure, or has
      undefined behaviour; a loop that never exits is counted with the
      last. *)

From Stdlib Require Import ZArith List Lia Bool.
From Stdlib Require Import Reals Lra.
Import ListNotations.

(** ** Outcomes of calls *)

(** The failures a call can raise.  [lattice.cpp] contains no [throw] and
    no [assert]; the names are those of the error taxonomy the engine is
    documented with. *)
Inductive failure : Type :=
| InvalidDirection
| DimensionMismatch
| NumericDegeneracy.

Inductive outcome (A : Type) : Type :=
| Ok (a : A)
| Raise (e : failure)
| Undefined.

Arguments Ok {A} a.
Arguments Raise {A} e.
Arguments Undefined {A}.

Definition bind {A B : Type} (o : outcome A) (f : A -> outcome B) : outcome B :=
  match o with
  | Ok a => f a
  | Raise e => Raise e
  | Undefined => Undefined
  end.

Declare Scope outcome_scope.
Delimit Scope outcome_scope with outcome.
Notation "x <- e ;; k" := (bind e (fun x => k))
  (at level 61, e at next level, right associativity) : outcome_scope.
Notation "' p <- e ;; k" := (bind e (fun p => k))
  (at level 61, p pattern, e at next level, right associativity) : outcome_scope.
Open Scope outcome_scope.

(** [for (int i = lo; i < lo + count; i++) body]: the loop state is threaded
    through the iterations. *)
Fixpoint for_range {S : Type} (i : Z) (count : nat)
    (body : Z -> S -> outcome S) (s : S) : outcome S :=
  match count with
  | O => Ok s
  | Datatypes.S c => s' <- body i s ;; for_range (i + 1) c body s'
  end.

(** ** Arrays and vectors *)

Open Scope Z_scope.

(** [a[i]] read: unchecked, so outside the array it is undefined. *)
Definition vec_get {A : Type} (a : list A) (i : Z) : outcome A :=
  if i <? 0 then Undefined
  else match nth_error a (Z.to_nat i) with
       | Some x => Ok x
       | None => Undefined
       end.

Fixpoint list_set {A : Type} (a : list A) (i : nat) (x : A) : list A :=
  match a, i with
  | [], _ => []
  | _ :: t, O => x :: t
  | h :: t, Datatypes.S j => h :: list_set t j x
  end.

(** [a[i] = x] write. *)
Definition vec_set {A : Type} (a : list A) (i : Z) (x : A) : outcome (list A) :=
  if (i <? 0) || (Z.of_nat (length a) <=? i) then Undefined
  else Ok (list_set a (Z.to_nat i) x).

(** [a[i] = f(a[i])] through a reference to the element. *)
Definition vec_upd {A : Type} (a : list A) (i : Z) (f : A -> outcome A)
    : outcome (list A) :=
  x <- vec_get a i ;; x' <- f x ;; vec_set a i x'.

(** ** [lattice::mod] *)

(** [while (n < 0) n += d;  return n % d;]
    The loop is run with fuel.  For [n >= 0] C++'s [%] truncates, which is
    [Z.rem]; [n % 0] is undefined. *)
Fixpoint mod_loop (fuel : nat) (n d : Z) : outcome Z :=
  match fuel with
  | O => Undefined
  | Datatypes.S fuel' =>
      if n <? 0 then mod_loop fuel' (n + d) d
      else if d =? 0 then Undefined
      else Ok (Z.rem n d)
  end.

(** Each iteration with [d >= 1] raises [n] by at least one, so [-n]
    iterations and one exit test suffice, and no [n += d] overflows.  With [d <= 0] and [n < 0] the loop has no normal exit
    ([d = 0] spins, [d < 0] runs into signed overflow, which the sum in [Z]
    does not show): the fuel runs out and the outcome is [Undefined]. *)
Definition lattice_mod (n d : Z) : outcome Z :=
  mod_loop (Datatypes.S (Z.to_nat (- n))) n d.


(** ** Complex numbers and 3x3 complex matrices *)

Open Scope R_scope.

Record complex : Type := mkC { re : R; im : R }.

Definition Czero : complex := mkC 0 0.
Definition Cone : complex := mkC 1 0.
Definition Cadd (a b : complex) : complex := mkC (re a + re b) (im a + im b).
Definition Cmul (a b : complex) : complex :=
  mkC (re a * re b - im a * im b) (re a * im b + im a * re b).
Definition Cconj (a : complex) : complex := mkC (re a) (- im a).
Definition Cdot3 (a1 b1 a2 b2 a3 b3 : complex) : complex :=
  Cadd (Cadd (Cmul a1 b1) (Cmul a2 b2)) (Cmul a3 b3).

Record Matrix3cd : Type := mk33 {
  m00 : complex; m01 : complex; m02 : complex;
  m10 : complex; m11 : complex; m12 : complex;
  m20 : complex; m21 : complex; m22 : complex
}.

(** [Matrix3cd::Identity()] *)
Definition Identity : Matrix3cd :=
  mk33 Cone Czero Czero
       Czero Cone Czero
       Czero Czero Cone.

(** [A * B] *)
Definition mmul (A B : Matrix3cd) : Matrix3cd :=
  mk33 (Cdot3 (m00 A) (m00 B) (m01 A) (m10 B) (m02 A) (m20 B))
       (Cdot3 (m00 A) (m01 B) (m01 A) (m11 B) (m02 A) (m21 B))
       (Cdot3 (m00 A) (m02 B) (m01 A) (m12 B) (m02 A) (m22 B))
       (Cdot3 (m10 A) (m00 B) (m11 A) (m10 B) (m12 A) (m20 B))
       (Cdot3 (m10 A) (m01 B) (m11 A) (m11 B) (m12 A) (m21 B))
       (Cdot3 (m10 A) (m02 B) (m11 A) (m12 B) (m12 A) (m22 B))
       (Cdot3 (m20 A) (m00 B) (m21 A) (m10 B) (m22 A) (m20 B))
       (Cdot3 (m20 A) (m01 B) (m21 A) (m11 B) (m22 A) (m21 B))
       (Cdot3 (m20 A) (m02 B) (m21 A) (m12 B) (m22 A) (m22 B)).

(** [A.adjoint()]: the conjugate transpose. *)
Definition adjoint (A : Matrix3cd) : Matrix3cd :=
  mk33 (Cconj (m00 A)) (Cconj (m10 A)) (Cconj (m20 A))
       (Cconj (m01 A)) (Cconj (m11 A)) (Cconj (m21 A))
       (Cconj (m02 A)) (Cconj (m12 A)) (Cconj (m22 A)).

(** [A.trace()] *)
Definition trace (A : Matrix3cd) : complex :=
  Cadd (Cadd (m00 A) (m11 A)) (m22 A).

(** [A.determinant()] *)
Definition determinant (A : Matrix3cd) : complex :=
  Cadd (Cadd
    (Cmul (m00 A) (Cadd (Cmul (m11 A) (m22 A)) (Cmul (mkC (-1) 0) (Cmul (m12 A) (m21 A)))))
    (Cmul (m01 A) (Cadd (Cmul (m12 A) (m20 A)) (Cmul (mkC (-1) 0) (Cmul (m10 A) (m22 A))))))
    (Cmul (m02 A) (Cadd (Cmul (m10 A) (m21 A)) (Cmul (mkC (-1) 0) (Cmul (m11 A) (m20 A))))).

(** The SU(3) property of a link variable. *)
Definition unitary (A : Matrix3cd) : Prop :=
  mmul A (adjoint A) = Identity /\ mmul (adjoint A) A = Identity.

Definition special_unitary (A : Matrix3cd) : Prop :=
  unitary A /\ determinant A = Cone.

(** ** The C library's [rand()] *)

(** The generator is ambient state of the process: its [RAND_MAX], the
    sequence of values it is going to return, and how many were drawn. *)
Record libc_rand : Type := mkRand {
  RAND_MAX : Z;
  rand_seq : nat -> Z;
  rand_pos : nat
}.

Definition rand (g : libc_rand) : Z * libc_rand :=
  (rand_seq g (rand_pos g),
   mkRand (RAND_MAX g) (rand_seq g) (Datatypes.S (rand_pos g))).

(** What the C standard promises of [rand()]. *)
Definition rand_ok (g : libc_rand) : Prop :=
  (0 < RAND_MAX g)%Z /\ forall k, (0 <= rand_seq g k <= RAND_MAX g)%Z.

(** ** [class Lattice] *)

Definition link_store : Type := list (list (list (list (list Matrix3cd)))).

(** [ls[i][j][k][l][m]] as an rvalue. *)
Definition links_at (ls : link_store) (i j k l m : Z) : outcome Matrix3cd :=
  a <- vec_get ls i ;; b <- vec_get a j ;; c <- vec_get b k ;;
  d <- vec_get c l ;; vec_get d m.

(** [ls[i][j][k][l][m]] as an lvalue, assigned [f] of its content. *)
Definition links_upd (ls : link_store) (i j k l m : Z)
    (f : Matrix3cd -> outcome Matrix3cd) : outcome link_store :=
  vec_upd ls i (fun a => vec_upd a j (fun b => vec_upd b k (fun c =>
  vec_upd c l (fun d => vec_upd d m f)))).

(** The threads [update()] creates are named by the link they are created
    for; creating a [boost::thread] starts it.  (The thread receives the
    [link] array of the loop body by reference; what it reads once that
    array is gone is not part of this model.) *)
Inductive event : Type :=
| Start (link : list Z)
| Join (link : list Z).

Module Lattice.

Record t : Type := mk {
  Ncor : Z;
  Ncf : Z;
  n : Z;
  beta : R;
  eps : R;
  links : link_store;
  randSU3s : list Matrix3cd
}.

Definition with_links (L : t) (ls : link_store) : t :=
  mk (Ncor L) (Ncf L) (n L) (beta L) (eps L) ls (randSU3s L).

(** [this->links[x[0]][x[1]][x[2]][x[3]][m]] *)
Definition link_of (L : t) (x : list Z) (m : Z) : outcome Matrix3cd :=
  x0 <- vec_get x 0 ;; x1 <- vec_get x 1 ;; x2 <- vec_get x 2 ;;
  x3 <- vec_get x 3 ;; links_at (links L) x0 x1 x2 x3 m.

(** The loop of [P] that fills [site2], [os1] and [os2].  The sums
    [site[i] + mu_vec[i]] and [site[i] + nu_vec[i]] are formed in [Z]; they
    are the code's [int] sums as long as those do not overflow, that is for
    [int] coordinates below [INT_MAX]. *)
Definition P_wrap (L : t) (site mu_vec nu_vec : list Z) (i : Z)
    (s : list Z * list Z * list Z) : outcome (list Z * list Z * list Z) :=
  let '(site2, os1, os2) := s in
  x <- vec_get site i ;;
  a <- lattice_mod x (n L) ;;
  site2 <- vec_set site2 i a ;;
  dm <- vec_get mu_vec i ;;
  b <- lattice_mod (x + dm) (n L) ;;
  os1 <- vec_set os1 i b ;;
  dn <- vec_get nu_vec i ;;
  c <- lattice_mod (x + dn) (n L) ;;
  os2 <- vec_set os2 i c ;;
  Ok (site2, os1, os2).

(** [double Lattice::P(const int site[4], const int mu, const int nu)] *)
Definition P (L : t) (site : list Z) (mu nu : Z) : outcome R :=
  mu_vec <- vec_set [0; 0; 0; 0]%Z mu 1%Z ;;
  nu_vec <- vec_set [0; 0; 0; 0]%Z nu 1%Z ;;
  '(site2, os1, os2) <-
    for_range 0 4 (P_wrap L site mu_vec nu_vec)
      ([0; 0; 0; 0]%Z, [0; 0; 0; 0]%Z, [0; 0; 0; 0]%Z) ;;
  let product := Identity in
  u1 <- link_of L site2 mu ;;
  let product := mmul product u1 in
  u2 <- link_of L os1 nu ;;
  let product := mmul product u2 in
  u3 <- link_of L os2 mu ;;
  let product := mmul product (adjoint u3) in
  u4 <- link_of L site2 nu ;;
  let product := mmul product (adjoint u4) in
  Ok (1 / 3 * re (trace product)).

(** The first loop of [Si]: collect the directions other than [link[4]].
    [planes] is an uninitialised [int[3]]; every run that returns has
    overwritten all three entries, so its initial content is immaterial. *)
Definition Si_planes (link : list Z) (i : Z) (s : list Z * Z)
    : outcome (list Z * Z) :=
  let '(planes, j) := s in
  d <- vec_get link 4 ;;
  if negb (d =? i)%Z
  then planes <- vec_set planes j i ;; Ok (planes, (j + 1)%Z)
  else Ok (planes, j).

(** The second loop of [Si]: two plaquettes per plane.  [site[p] -= 1] is
    formed in [Z]; it is the code's [int] difference for coordinates above
    [INT_MIN]. *)
Definition Si_body (L : t) (link planes : list Z) (i : Z) (Psum : R)
    : outcome R :=
  l0 <- vec_get link 0 ;; l1 <- vec_get link 1 ;;
  l2 <- vec_get link 2 ;; l3 <- vec_get link 3 ;;
  let site := [l0; l1; l2; l3] in
  d <- vec_get link 4 ;;
  p <- vec_get planes i ;;
  a <- P L site d p ;;
  let Psum := Psum + a in
  site <- vec_upd site p (fun c => Ok (c - 1)%Z) ;;
  d <- vec_get link 4 ;;
  p <- vec_get planes i ;;
  b <- P L site d p ;;
  Ok (Psum + b).

(** [double Lattice::Si(const int link[5])] *)
Definition Si (L : t) (link : list Z) : outcome R :=
  '(planes, _) <- for_range 0 4 (Si_planes link) ([0; 0; 0]%Z, 0%Z) ;;
  Psum <- for_range 0 3 (Si_body L link planes) 0 ;;
  Ok (- beta L * Psum).

(** [void Lattice::update_link(const int link[5])]: the object and the
    generator after the call.  The tests [dS > 0] and [exp(-dS) < u] are
    decided here on exact reals and in the code on rounded [double]s; what
    is proved about [update_link] holds whichever way they go. *)
Definition update_link (L : t) (g : libc_rand) (link : list Z)
    : outcome (t * libc_rand) :=
  Si_old <- Si L link ;;
  l0 <- vec_get link 0 ;; l1 <- vec_get link 1 ;; l2 <- vec_get link 2 ;;
  l3 <- vec_get link 3 ;; l4 <- vec_get link 4 ;;
  linki_old <- links_at (links L) l0 l1 l2 l3 l4 ;;
  let '(r, g) := rand g in
  let size := Z.of_nat (length (randSU3s L)) in
  if (size =? 0)%Z then Undefined else
  randSU3 <- vec_get (randSU3s L) (Z.rem r size) ;;
  ls <- links_upd (links L) l0 l1 l2 l3 l4 (fun u => Ok (mmul u randSU3)) ;;
  let L := with_links L ls in
  Si_new <- Si L link ;;
  let dS := Si_new - Si_old in
  if Rlt_dec 0 dS then
    let '(r, g) := rand g in
    if Rlt_dec (exp (- dS)) (IZR r / IZR (RAND_MAX g)) then
      ls <- links_upd (links L) l0 l1 l2 l3 l4 (fun _ => Ok linki_old) ;;
      Ok (with_links L ls, g)
    else Ok (L, g)
  else Ok (L, g).

(** The bookkeeping of [update()]: the two tables of thread handles and the
    thread operations issued so far, oldest first. *)
Record sweep : Type := mkSweep {
  even_threads : list (list (list Z));
  odd_threads : list (list (list Z));
  issued : list event
}.

(** [new boost::thread(... update_link ..., link)] followed by
    [threads[m].push_back(m_thread)]. *)
Definition spawn (even : bool) (link : list Z) (m : Z) (s : sweep)
    : outcome sweep :=
  let ev := issued s ++ [Start link] in
  if even then
    tbl <- vec_upd (even_threads s) m (fun v => Ok (v ++ [link])) ;;
    Ok (mkSweep tbl (odd_threads s) ev)
  else
    tbl <- vec_upd (odd_threads s) m (fun v => Ok (v ++ [link])) ;;
    Ok (mkSweep (even_threads s) tbl ev).

(** [threads[j][i]->join()] *)
Definition join (even : bool) (j i : Z) (s : sweep) : outcome sweep :=
  row <- vec_get (if even then even_threads s else odd_threads s) j ;;
  th <- vec_get row i ;;
  Ok (mkSweep (even_threads s) (odd_threads s) (issued s ++ [Join th])).

(** [int index = l + n * (k + n * (j + n * i))] *)
Definition index (L : t) (i j k l : Z) : Z :=
  (l + n L * (k + n L * (j + n L * i)))%Z.

(** The body of the four nested site loops of [update()]. *)
Definition update_site (L : t) (i j k l : Z) (s : sweep) : outcome sweep :=
  let index := index L i j k l in
  if (Z.rem index 2 =? 0)%Z
  then for_range 0 4 (fun m => spawn true [i; j; k; l; m] m) s
  else for_range 0 4 (fun m => spawn false [i; j; k; l; m] m) s.

(** [void Lattice::update()]: the thread operations the calling thread
    issues, in program order.  [n_sites = n*n*n*n] and [index] are formed in
    [Z]; they are the code's [int] values as long as [n^4 <= INT_MAX]. *)
Definition update (L : t) : outcome (list event) :=
  let n_sites := (n L * n L * n L * n L)%Z in
  let N := Z.to_nat (n L) in
  let s := mkSweep [[]; []; []; []] [[]; []; []; []] [] in
  s <- for_range 0 N (fun i =>
       for_range 0 N (fun j =>
       for_range 0 N (fun k =>
       for_range 0 N (fun l => update_site L i j k l)))) s ;;
  s <- for_range 0 4 (fun j =>
       for_range 0 (Z.to_nat (Z.quot n_sites 2)) (fun i => join false j i)) s ;;
  s <- for_range 0 4 (fun j =>
       for_range 0 (Z.to_nat (Z.quot n_sites 2)) (fun i => join true j i)) s ;;
  Ok (issued s).

(** The innermost statement of [Pav]. *)
Definition Pav_body (L : t) (nus mus : list Z) (i j k l m : Z) (Ptot : R)
    : outcome R :=
  let site := [i; j; k; l] in
  mu <- vec_get mus m ;;
  nu <- vec_get nus m ;;
  p <- P L site mu nu ;;
  Ok (Ptot + p).

(** [double Lattice::Pav()]: the returned value and the object after the
    call. *)
Definition Pav (L : t) : outcome (R * t) :=
  let nus := [0; 0; 0; 1; 1; 2]%Z in
  let mus := [1; 2; 3; 2; 3; 3]%Z in
  let N := Z.to_nat (n L) in
  Ptot <- for_range 0 N (fun i =>
          for_range 0 N (fun j =>
          for_range 0 N (fun k =>
          for_range 0 N (fun l =>
          for_range 0 6 (fun m => Pav_body L nus mus i j k l m))))) 0 ;;
  Ok (Ptot / (IZR (n L) ^ 4 * 6), L).

End Lattice.

(** ** Notions used to state the properties *)

Open Scope Z_scope.

(** A lattice site, and the array the methods receive for it. *)
Definition site : Type := (Z * Z * Z * Z)%type.

Definition coords (x : site) : list Z :=
  let '(x0, x1, x2, x3) := x in [x0; x1; x2; x3].

Definition valid_direction (d : Z) : Prop := 0 <= d < 4.

(** The unit vector [e_k]. *)
Definition unit_vec (k : Z) : site :=
  (if k =? 0 then 1 else 0, if k =? 1 then 1 else 0,
   if k =? 2 then 1 else 0, if k =? 3 then 1 else 0).

Definition site_add (x y : site) : site :=
  let '(x0, x1, x2, x3) := x in
  let '(y0, y1, y2, y3) := y in (x0 + y0, x1 + y1, x2 + y2, x3 + y3).

Definition site_sub (x y : site) : site :=
  let '(x0, x1, x2, x3) := x in
  let '(y0, y1, y2, y3) := y in (x0 - y0, x1 - y1, x2 - y2, x3 - y3).

(** Periodic wrap of every coordinate. *)
Definition wrap (ext : Z) (x : site) : site :=
  let '(x0, x1, x2, x3) := x in
  (x0 mod ext, x1 mod ext, x2 mod ext, x3 mod ext).

Definition in_lattice (ext : Z) (x : site) : Prop :=
  let '(x0, x1, x2, x3) := x in
  0 <= x0 < ext /\ 0 <= x1 < ext /\ 0 <= x2 < ext /\ 0 <= x3 < ext.

(** The range of a 32-bit [int]. *)
Definition INT_MIN : Z := - 2 ^ 31.
Definition INT_MAX : Z := 2 ^ 31 - 1.

Definition is_int (z : Z) : Prop := INT_MIN <= z <= INT_MAX.

(** A site whose four coordinates are [int]s. *)
Definition int_site (x : site) : Prop :=
  let '(x0, x1, x2, x3) := x in
  is_int x0 /\ is_int x1 /\ is_int x2 /\ is_int x3.

(** A site from which one step along any axis, forwards or backwards, leads
    to a site whose coordinates are [int]s: [site[i] + 1] and [site[i] - 1]
    do not overflow. *)
Definition int_steps (x : site) : Prop :=
  let '(x0, x1, x2, x3) := x in
  INT_MIN < x0 < INT_MAX /\ INT_MIN < x1 < INT_MAX /\
  INT_MIN < x2 < INT_MAX /\ INT_MIN < x3 < INT_MAX.

(** A vector of [k] elements, each satisfying [inner]. *)
Definition sized {A : Type} (k : Z) (inner : A -> Prop) (l : list A) : Prop :=
  Z.of_nat (length l) = k /\ Forall inner l.

(** The shape the constructor gives [links]: [n^4] sites of 4 links. *)
Definition well_formed (L : Lattice.t) : Prop :=
  0 < Lattice.n L /\
  sized (Lattice.n L) (sized (Lattice.n L) (sized (Lattice.n L)
    (sized (Lattice.n L) (sized 4 (fun _ : Matrix3cd => True)))))
    (Lattice.links L).

(** The link variable [U_mu(x)] stored for an in-range site. *)
Definition U (L : Lattice.t) (x : site) (mu : Z) : Matrix3cd :=
  let '(x0, x1, x2, x3) := x in
  match links_at (Lattice.links L) x0 x1 x2 x3 mu with
  | Ok u => u
  | _ => Identity
  end.

(** The plaquette formula
    [Re Tr (U_mu(x) U_nu(x+mu) U_mu(x+nu)^+ U_nu(x)^+) / 3]
    with every site wrapped. *)
Definition plaquette (L : Lattice.t) (x : site) (mu nu : Z) : R :=
  let w := wrap (Lattice.n L) in
  (re (trace (mmul (mmul (mmul (U L (w x) mu)
                               (U L (w (site_add x (unit_vec mu))) nu))
                         (adjoint (U L (w (site_add x (unit_vec nu))) mu)))
                   (adjoint (U L (w x) nu)))) / 3)%R.

(** Finite sums of reals. *)
Definition Rsum {A : Type} (l : list A) (f : A -> R) : R :=
  fold_right (fun a s => (f a + s)%R) 0%R l.

(** [0, 1, ..., k-1] *)
Definition range (k : Z) : list Z := map Z.of_nat (seq 0 (Z.to_nat k)).

(** The directions other than [d], in increasing order. *)
Definition other_directions (d : Z) : list Z :=
  filter (fun nu => negb (nu =? d)) [0; 1; 2; 3].

(** [links[x0][x1][x2][x3][d]] for the site [x = (x0, x1, x2, x3)]. *)
Definition site_link (ls : link_store) (x : site) (d : Z) : outcome Matrix3cd :=
  let '(x0, x1, x2, x3) := x in links_at ls x0 x1 x2 x3 d.

Definition site_link_upd (ls : link_store) (x : site) (d : Z)
    (f : Matrix3cd -> outcome Matrix3cd) : outcome link_store :=
  let '(x0, x1, x2, x3) := x in links_upd ls x0 x1 x2 x3 d f.

(** Every site of a lattice of extent [ext], in the order of the four
    nested loops. *)
Definition all_sites (ext : Z) : list site :=
  flat_map (fun i => flat_map (fun j => flat_map (fun k =>
    map (fun l => (i, j, k, l)) (range ext)) (range ext)) (range ext))
    (range ext).

(** The six unordered pairs of distinct directions. *)
Definition plane_pairs : list (Z * Z) :=
  [(0, 1); (0, 2); (0, 3); (1, 2); (1, 3); (2, 3)].

(** What a call of [update_link] for the link [(x, d)] leaves alone: every
    other link, the pool and the parameters. *)
Definition same_but_link (L L' : Lattice.t) (x : site) (d : Z) : Prop :=
  (forall (y : site) (m : Z), (y, m) <> (x, d) ->
     site_link (Lattice.links L') y m = site_link (Lattice.links L) y m) /\
  Lattice.randSU3s L' = Lattice.randSU3s L /\
  Lattice.n L' = Lattice.n L /\ Lattice.beta L' = Lattice.beta L /\
  Lattice.eps L' = Lattice.eps L /\
  Lattice.Ncor L' = Lattice.Ncor L /\ Lattice.Ncf L' = Lattice.Ncf L.

(** The parity class [update()] puts a site in: [index % 2 == 0]. *)
Definition is_even_site (L : Lattice.t) (x : site) : bool :=
  let '(i, j, k, l) := x in Z.rem (Lattice.index L i j k l) 2 =? 0.

(** The site one step from [x] in direction [k], with periodic wrap. *)
Definition neighbour (L : Lattice.t) (x : site) (k : Z) : site :=
  wrap (Lattice.n L) (site_add x (unit_vec k)).

(** The parity class of the site of a thread's link. *)
Definition is_even_link (L : Lattice.t) (link : list Z) : bool :=
  match link with
  | [i; j; k; l; _] => is_even_site L (i, j, k, l)
  | _ => false
  end.

(** A strict barrier between the two phases of a sweep, read on the thread
    operations in program order: every join of a thread of the class
    handled first comes before every start of a thread of the other class.
    [first_even] tells which class is the first. *)
Definition phase_barrier (L : Lattice.t) (first_even : bool) (tr : list event)
    : Prop :=
  forall (a b : nat) (la lb : list Z),
    nth_error tr a = Some (Join la) -> is_even_link L la = first_even ->
    nth_error tr b = Some (Start lb) -> is_even_link L lb = negb first_even ->
    (a < b)%nat.

(** The documented contract of a direction argument: it is validated, and a
    value outside 0..3 makes the call fail with [InvalidDirection]. *)
Definition direction_checked {A : Type} (d : Z) (call : outcome A) : outcome A :=
  if (0 <=? d) && (d <? 4) then call else Raise InvalidDirection.

Definition never_raises {A : Type} (call : outcome A) : Prop :=
  forall e : failure, call <> Raise e.

(** ** Concrete configurations *)

(** The "cold" gauge field of extent [ext]: every link is the identity. *)
Definition cold_links (ext : Z) : link_store :=
  let N := Z.to_nat ext in
  repeat (repeat (repeat (repeat (repeat Identity 4) N) N) N) N.

Definition cold_start (ext : Z) (b : R) (pool : list Matrix3cd) : Lattice.t :=
  Lattice.mk 50 1000 ext b (24 / 100)%R (cold_links ext) pool.

(** [diag(1, -1, -1)], a special-unitary matrix that is its own adjoint. *)
Definition flip23 : Matrix3cd :=
  mk33 Cone Czero Czero
       Czero (mkC (-1) 0) Czero
       Czero Czero (mkC (-1) 0).

(** A small configuration to run the operations on: a cold field of extent
    2 with coupling 5.5 and a pool of copies of [flip23]. *)
Definition tie_beta : R := (11 / 2)%R.

(** A pool of the size the constructor builds: 50 matrices, each followed by
    its adjoint. *)
Definition tie_pool : list Matrix3cd :=
  concat (repeat [flip23; adjoint flip23] 50).

Definition tie_lattice : Lattice.t := cold_start 2 tie_beta tie_pool.

(** [rand()] returns 0, then 1, 1, ... with [RAND_MAX = 2^31 - 1]. *)
Definition tie_rand : libc_rand :=
  mkRand 2147483647 (fun k => match k with O => 0 | _ => 1 end) 0.

(** ** Notions used by the further properties *)

(** The site [c * t]. *)
Definition site_scale (c : Z) (t : site) : site :=
  let '(t0, t1, t2, t3) := t in (c * t0, c * t1, c * t2, c * t3).

(** Every matrix stored in [ls] satisfies [good]. *)
Definition all_links (good : Matrix3cd -> Prop) (ls : link_store) : Prop :=
  forall (i j k l m : Z) (u : Matrix3cd),
    links_at ls i j k l m = Ok u -> good u.

(** [void Lattice::printL()]: the matrices written to [cout], one per line,
    after what [cout] held before. *)
Definition printL (L : Lattice.t) (cout : list Matrix3cd)
    : outcome (list Matrix3cd) :=
  let N := Z.to_nat (Lattice.n L) in
  for_range 0 N (fun i =>
  for_range 0 N (fun j =>
  for_range 0 N (fun k =>
  for_range 0 N (fun l =>
  for_range 0 4 (fun m cout =>
    u <- links_at (Lattice.links L) i j k l m ;; Ok (cout ++ [u])))))) cout.

(** A loop body run over the elements of a list, in order. *)
Fixpoint run_list {S A : Type} (body : A -> S -> outcome S) (l : list A) (s : S)
    : outcome S :=
  match l with
  | [] => Ok s
  | a :: t => s' <- body a s ;; run_list body t s'
  end.

(** The four links of a site, as [link] arrays. *)
Definition site_links (x : site) : list (list Z) :=
  map (fun m => coords x ++ [m]) (range 4).

(** The threads of direction [m] for the sites [xs]. *)
Definition direction_row (xs : list site) (m : Z) : list (list Z) :=
  map (fun x => coords x ++ [m]) xs.

(** The thread creations among the operations of a sweep. *)
Definition is_start (e : event) : bool :=
  match e with
  | Start _ => true
  | Join _ => false
  end.

(** ** [randomSU3] and the constructor *)

(** [lattice::pi], the decimal literal of the source, and [lattice::i]. *)
Definition lattice_pi : R := (31415926535897932384626433 / 10 ^ 25)%R.
Definition lattice_i : complex := mkC 0 1.

(** [double] to [complex], [complex * double], [complex / double],
    [exp] and [/] of [std::complex<double>]. *)
Definition Creal (r : R) : complex := mkC r 0.
Definition Cscale (z : complex) (r : R) : complex := mkC (re z * r) (im z * r)%R.
Definition Cover (z : complex) (r : R) : complex := mkC (re z / r) (im z / r)%R.
Definition Cexp (z : complex) : complex :=
  mkC (exp (re z) * cos (im z)) (exp (re z) * sin (im z))%R.
Definition Cdiv (a b : complex) : complex :=
  Cover (Cmul a (Cconj b)) (re b * re b + im b * im b)%R.

(** [A(i, j)] as an rvalue and as an lvalue. *)
Definition coeff (A : Matrix3cd) (i j : Z) : outcome complex :=
  match i, j with
  | 0, 0 => Ok (m00 A) | 0, 1 => Ok (m01 A) | 0, 2 => Ok (m02 A)
  | 1, 0 => Ok (m10 A) | 1, 1 => Ok (m11 A) | 1, 2 => Ok (m12 A)
  | 2, 0 => Ok (m20 A) | 2, 1 => Ok (m21 A) | 2, 2 => Ok (m22 A)
  | _, _ => Undefined
  end.

Definition set_coeff (A : Matrix3cd) (i j : Z) (z : complex) : outcome Matrix3cd :=
  let '(mk33 a00 a01 a02 a10 a11 a12 a20 a21 a22) := A in
  match i, j with
  | 0, 0 => Ok (mk33 z a01 a02 a10 a11 a12 a20 a21 a22)
  | 0, 1 => Ok (mk33 a00 z a02 a10 a11 a12 a20 a21 a22)
  | 0, 2 => Ok (mk33 a00 a01 z a10 a11 a12 a20 a21 a22)
  | 1, 0 => Ok (mk33 a00 a01 a02 z a11 a12 a20 a21 a22)
  | 1, 1 => Ok (mk33 a00 a01 a02 a10 z a12 a20 a21 a22)
  | 1, 2 => Ok (mk33 a00 a01 a02 a10 a11 z a20 a21 a22)
  | 2, 0 => Ok (mk33 a00 a01 a02 a10 a11 a12 z a21 a22)
  | 2, 1 => Ok (mk33 a00 a01 a02 a10 a11 a12 a20 z a22)
  | 2, 2 => Ok (mk33 a00 a01 a02 a10 a11 a12 a20 a21 z)
  | _, _ => Undefined
  end.

(** [A + B], [c * A] and [A / c] for a complex scalar [c]. *)
Definition madd (A B : Matrix3cd) : Matrix3cd :=
  mk33 (Cadd (m00 A) (m00 B)) (Cadd (m01 A) (m01 B)) (Cadd (m02 A) (m02 B))
       (Cadd (m10 A) (m10 B)) (Cadd (m11 A) (m11 B)) (Cadd (m12 A) (m12 B))
       (Cadd (m20 A) (m20 B)) (Cadd (m21 A) (m21 B)) (Cadd (m22 A) (m22 B)).

Definition mscale (c : complex) (A : Matrix3cd) : Matrix3cd :=
  mk33 (Cmul c (m00 A)) (Cmul c (m01 A)) (Cmul c (m02 A))
       (Cmul c (m10 A)) (Cmul c (m11 A)) (Cmul c (m12 A))
       (Cmul c (m20 A)) (Cmul c (m21 A)) (Cmul c (m22 A)).

Definition mquot (A : Matrix3cd) (c : complex) : Matrix3cd :=
  mk33 (Cdiv (m00 A) c) (Cdiv (m01 A) c) (Cdiv (m02 A) c)
       (Cdiv (m10 A) c) (Cdiv (m11 A) c) (Cdiv (m12 A) c)
       (Cdiv (m20 A) c) (Cdiv (m21 A) c) (Cdiv (m22 A) c).

(** [v.resize(k)], new elements being copies of [d]. *)
Definition vec_resize {A : Type} (v : list A) (k : Z) (d : A) : list A :=
  firstn (Z.to_nat k) v ++ repeat d (Z.to_nat k - length v).

(** What a constructor call comes to: the object and the generator after
    it, a [std::length_error] from [resize], or undefined behaviour. *)
Inductive construction : Type :=
| Built (L : Lattice.t) (g : libc_rand)
| LengthError
| Fault.

Section Eigen.

(** The parts of Eigen and of [<complex>] that [randomSU3] relies on and
    whose code is not in the repository: the unitary factor
    [HouseholderQR<Matrix3cd>(B).householderQ()], [std::pow(z, p)], and the
    content of a default-constructed [Matrix3cd]. *)
Variable householderQ : Matrix3cd -> Matrix3cd.
Variable cpow : complex -> R -> complex.
Variable uninitialized : Matrix3cd.

(** The body of the two loops of [randomSU3]. *)
Definition randomSU3_entry (i j : Z) (s : Matrix3cd * libc_rand)
    : outcome (Matrix3cd * libc_rand) :=
  let '(A, g) := s in
  let '(r, g) := rand g in
  A <- set_coeff A i j (Creal (IZR r / IZR (RAND_MAX g))) ;;
  let '(r, g) := rand g in
  a <- coeff A i j ;;
  A <- set_coeff A i j
         (Cmul a (Cexp (Cover (Cscale (Cscale lattice_i (2 * lattice_pi)) (IZR r))
                              (IZR (RAND_MAX g))))) ;;
  Ok (A, g).

(** [Matrix3cd Lattice::randomSU3()], with [this->eps] and the generator. *)
Definition randomSU3 (eps : R) (g : libc_rand) : outcome (Matrix3cd * libc_rand) :=
  '(A, g) <- for_range 0 3 (fun i =>
             for_range 0 3 (fun j => randomSU3_entry i j)) (uninitialized, g) ;;
  let B := madd Identity (mscale (Cscale lattice_i eps) A) in
  let Q := householderQ B in
  Ok (mquot Q (cpow (determinant Q) (1 / 3)), g).

(** [this->links[i][j][k][l][m] = this->randomSU3();] *)
Definition fill_link (eps : R) (i j k l m : Z) (s : link_store * libc_rand)
    : outcome (link_store * libc_rand) :=
  let '(ls, g) := s in
  '(M, g) <- randomSU3 eps g ;;
  ls <- links_upd ls i j k l m (fun _ => Ok M) ;;
  Ok (ls, g).

(** The first loop nest of the constructor. *)
Definition new_links (n : Z) (eps : R) (g : libc_rand)
    : outcome (link_store * libc_rand) :=
  let N := Z.to_nat n in
  for_range 0 N (fun i '(ls, g) =>
    ls <- vec_upd ls i (fun a => Ok (vec_resize a n [])) ;;
    for_range 0 N (fun j '(ls, g) =>
      ls <- vec_upd ls i (fun a =>
            vec_upd a j (fun b => Ok (vec_resize b n []))) ;;
      for_range 0 N (fun k '(ls, g) =>
        ls <- vec_upd ls i (fun a => vec_upd a j (fun b =>
              vec_upd b k (fun c => Ok (vec_resize c n [])))) ;;
        for_range 0 N (fun l '(ls, g) =>
          ls <- vec_upd ls i (fun a => vec_upd a j (fun b => vec_upd b k (fun c =>
                vec_upd c l (fun d => Ok (vec_resize d 4 uninitialized))))) ;;
          for_range 0 4 (fun m => fill_link eps i j k l m) (ls, g))
        (ls, g))
      (ls, g))
    (ls, g))
  (vec_resize [] n [], g).

(** The second loop of the constructor: 50 matrices, each followed by its
    adjoint. *)
Definition new_pool (eps : R) (g : libc_rand)
    : outcome (list Matrix3cd * libc_rand) :=
  for_range 0 50 (fun _ '(pool, g) =>
    '(randSU3, g) <- randomSU3 eps g ;;
    let pool := pool ++ [randSU3] in
    let pool := pool ++ [adjoint randSU3] in
    Ok (pool, g)) ([], g).

(** [Lattice::Lattice(n, beta, Ncor, Ncf, eps)]; [g] is the generator as
    [srand(time(NULL))] leaves it. *)
Definition new_Lattice (n : Z) (beta : R) (Ncor Ncf : Z) (eps : R)
    (g : libc_rand) : construction :=
  if n <? 0 then LengthError
  else
    match ('(ls, g) <- new_links n eps g ;;
           '(pool, g) <- new_pool eps g ;;
           Ok (Lattice.mk Ncor Ncf n beta eps ls pool, g)) with
    | Ok (L, g) => Built L g
    | _ => Fault
    end.

End Eigen.

(** The generator after [k] more draws. *)
Definition advance (g : libc_rand) (k : nat) : libc_rand :=
  mkRand (RAND_MAX g) (rand_seq g) (rand_pos g + k).

(** The coefficient [randomSU3] builds from the draws number [2 q] and
    [2 q + 1] after [g]: a magnitude in [[0, 1]] and a phase. *)
Definition random_coeff (g : libc_rand) (q : nat) : complex :=
  Cmul (Creal (IZR (rand_seq g (rand_pos g + 2 * q)) / IZR (RAND_MAX g)))
       (Cexp (Cover (Cscale (Cscale lattice_i (2 * lattice_pi))
                            (IZR (rand_seq g (rand_pos g + 2 * q + 1))))
                    (IZR (RAND_MAX g)))).

(** The matrix [A] of [randomSU3], filled row by row. *)
Definition random_matrix (g : libc_rand) : Matrix3cd :=
  mk33 (random_coeff g 0) (random_coeff g 1) (random_coeff g 2)
       (random_coeff g 3) (random_coeff g 4) (random_coeff g 5)
       (random_coeff g 6) (random_coeff g 7) (random_coeff g 8).

(** A computation on the element [v[i]], seen as a computation on [v]. *)
Definition focus {A G : Type} (i : Z) (inner : A * G -> outcome (A * G))
    (s : list A * G) : outcome (list A * G) :=
  let '(v, g) := s in
  a <- vec_get v i ;;
  '(a', g') <- inner (a, g) ;;
  v' <- vec_set v i a' ;;
  Ok (v', g').

(** [N] values built one after the other, the state going from each to the
    next. *)
Fixpoint build_list {A G : Type} (build : G -> A * G) (N : nat) (g : G)
    : list A * G :=
  match N with
  | O => ([], g)
  | Datatypes.S N' =>
      let '(a, g1) := build g in
      let '(l, g2) := build_list build N' g1 in
      (a :: l, g2)
  end.

(** The step that replaces an element by what [build] makes from the state. *)
Definition rebuilt {A G : Type} (build : G -> A * G) (s : A * G)
    : outcome (A * G) :=
  Ok (build (snd s)).

(** What one call of [randomSU3] returns and where it leaves the generator. *)
Definition random_link (householderQ : Matrix3cd -> Matrix3cd)
    (cpow : complex -> R -> complex) (eps : R) (g : libc_rand)
    : Matrix3cd * libc_rand :=
  (let Q := householderQ
              (madd Identity (mscale (Cscale lattice_i eps) (random_matrix g))) in
   mquot Q (cpow (determinant Q) (1 / 3)%R), advance g 18).

(** [c] matrices, each followed by its adjoint. *)
Fixpoint pool_list (rnd : libc_rand -> Matrix3cd * libc_rand) (c : nat)
    (g : libc_rand) : list Matrix3cd * libc_rand :=
  match c with
  | O => ([], g)
  | Datatypes.S c' =>
      let '(M, g1) := rnd g in
      let '(l, g2) := pool_list rnd c' g1 in
      (M :: adjoint M :: l, g2)
  end.

(** The link store built site by site from the generator. *)
Definition built_links (rnd : libc_rand -> Matrix3cd * libc_rand) (N : nat)
    (g : libc_rand) : link_store * libc_rand :=
  build_list (build_list (build_list (build_list (build_list rnd 4) N) N) N) N g.

(** * Properties *)

Open Scope Z_scope.

Lemma mod_loop_spec (fuel : nat) (n d : Z) :
  0 < d -> (Z.to_nat (- n) < fuel)%nat -> mod_loop fuel n d = Ok (n mod d).
Proof.
  revert n. induction fuel as [|fuel IH]; intros n Hd Hf; [lia|].
  cbn [mod_loop]. destruct (Z.ltb_spec n 0) as [Hn|Hn].
  - rewrite IH by lia.
    f_equal. replace (n + d) with (n + 1 * d) by lia. apply Z_mod_plus_full.
  - destruct (Z.eqb_spec d 0) as [->|_]; [lia|].
    f_equal. apply Z.rem_mod_nonneg; lia.
Qed.

Lemma mod_loop_fuel_irrelevant (f1 f2 : nat) (n d : Z) :
  0 < d -> (Z.to_nat (- n) < f1)%nat -> (Z.to_nat (- n) < f2)%nat ->
  mod_loop f1 n d = mod_loop f2 n d.
Proof. intros. rewrite !mod_loop_spec by assumption. reflexivity. Qed.

Lemma lattice_mod_spec (n d : Z) : 0 < d -> lattice_mod n d = Ok (n mod d).
Proof. intros Hd. apply mod_loop_spec; [assumption | lia]. Qed.

Lemma lattice_mod_diverges (n d : Z) :
  n < 0 -> d <= 0 -> lattice_mod n d = Undefined.
Proof.
  intros Hn Hd. unfold lattice_mod.
  generalize (Datatypes.S (Z.to_nat (- n))) as fuel. intros fuel.
  revert n Hn. induction fuel as [|fuel IH]; intros n Hn; [reflexivity|].
  cbn [mod_loop]. destruct (Z.ltb_spec n 0); [|lia]. apply IH. lia.
Qed.

(** C7.  For an extent [n > 0] and every integer [c], [mod(c, n)] returns a
    value in [[0, n)]; wrapping it again gives the same value, and so does
    wrapping [c + k*n] for every integer [k]. *)
Theorem mod_wrap_idempotent_periodic (c n k : Z) :
  0 < n ->
  exists r, lattice_mod c n = Ok r /\ 0 <= r < n /\
            (x <- lattice_mod c n ;; lattice_mod x n) = lattice_mod c n /\
            lattice_mod (c + k * n) n = lattice_mod c n.
Proof.
  intros Hn. exists (c mod n). rewrite !lattice_mod_spec by assumption.
  cbn [bind]. rewrite lattice_mod_spec by assumption.
  rewrite Z.mod_mod by lia. rewrite Z_mod_plus_full.
  repeat split; try reflexivity; apply Z.mod_pos_bound; assumption.
Qed.

Lemma mod_wrap_idempotent_periodic_witness :
  exists r, lattice_mod (-5) 8 = Ok r /\ 0 <= r < 8 /\
            (x <- lattice_mod (-5) 8 ;; lattice_mod x 8) = lattice_mod (-5) 8 /\
            lattice_mod (-5 + 3 * 8) 8 = lattice_mod (-5) 8.
Proof. apply (mod_wrap_idempotent_periodic (-5) 8 3). lia. Defined.

(** ** Vectors *)

Lemma vec_get_Ok {A : Type} (a : list A) (i : Z) (x : A) :
  vec_get a i = Ok x <-> 0 <= i /\ nth_error a (Z.to_nat i) = Some x.
Proof.
  unfold vec_get. destruct (Z.ltb_spec i 0) as [Hi|Hi].
  - split; [discriminate | lia].
  - destruct (nth_error a (Z.to_nat i)) as [y|].
    + split; [intros [= ->]; auto | intros [_ [= ->]]; reflexivity].
    + split; [discriminate | intros [_ [=]]].
Qed.

Lemma vec_get_in_range {A : Type} (a : list A) (i : Z) :
  0 <= i < Z.of_nat (length a) -> exists x, vec_get a i = Ok x.
Proof.
  intros Hi. destruct (nth_error a (Z.to_nat i)) as [x|] eqn:E.
  - exists x. apply vec_get_Ok. split; [lia | assumption].
  - apply nth_error_None in E. lia.
Qed.

Lemma vec_get_bound {A : Type} {a : list A} {i : Z} {x : A} :
  vec_get a i = Ok x -> 0 <= i < Z.of_nat (length a).
Proof.
  intros H. apply vec_get_Ok in H. destruct H as [Hi H].
  assert (Z.to_nat i < length a)%nat by (apply nth_error_Some; congruence).
  lia.
Qed.

Lemma length_list_set {A : Type} (a : list A) (i : nat) (x : A) :
  length (list_set a i x) = length a.
Proof.
  revert i. induction a as [|h t IH]; intros [|i]; cbn; auto.
Qed.

Lemma nth_error_list_set_eq {A : Type} (a : list A) (i : nat) (x : A) :
  (i < length a)%nat -> nth_error (list_set a i x) i = Some x.
Proof.
  revert i. induction a as [|h t IH]; intros [|i] H; cbn in *; try lia; auto.
  apply IH. lia.
Qed.

Lemma nth_error_list_set_ne {A : Type} (a : list A) (i j : nat) (x : A) :
  i <> j -> nth_error (list_set a i x) j = nth_error a j.
Proof.
  revert i j. induction a as [|h t IH]; intros [|i] [|j] H; cbn; auto.
  congruence.
Qed.

Lemma list_set_same {A : Type} (a : list A) (i : nat) (x : A) :
  nth_error a i = Some x -> list_set a i x = a.
Proof.
  revert i. induction a as [|h t IH]; intros [|i] H; cbn in *; try discriminate.
  - congruence.
  - f_equal. auto.
Qed.

Lemma list_set_twice {A : Type} (a : list A) (i : nat) (x y : A) :
  list_set (list_set a i x) i y = list_set a i y.
Proof.
  revert i. induction a as [|h t IH]; intros [|i]; cbn; auto.
  f_equal. auto.
Qed.

Lemma Forall_list_set {A : Type} (P : A -> Prop) (a : list A) (i : nat) (x : A) :
  Forall P a -> P x -> Forall P (list_set a i x).
Proof.
  intros Ha Hx. revert i.
  induction Ha as [|h t Hh Ht IH]; intros [|i]; cbn; auto.
Qed.

(** What a successful element update did. *)
Lemma vec_upd_Ok {A : Type} (a a' : list A) (i : Z) (f : A -> outcome A) :
  vec_upd a i f = Ok a' ->
  exists x x', vec_get a i = Ok x /\ f x = Ok x' /\
               a' = list_set a (Z.to_nat i) x' /\ vec_get a' i = Ok x'.
Proof.
  unfold vec_upd. intros H.
  destruct (vec_get a i) as [x| |] eqn:Ex; try discriminate. cbn [bind] in H.
  destruct (f x) as [x'| |] eqn:Ef; try discriminate. cbn [bind] in H.
  pose proof (vec_get_bound Ex) as Hb.
  unfold vec_set in H.
  destruct (Z.ltb_spec i 0); [lia|].
  destruct (Z.leb_spec (Z.of_nat (length a)) i); [lia|].
  cbn in H. injection H as <-.
  exists x, x'. repeat split; auto.
  apply vec_get_Ok. split; [lia|]. apply nth_error_list_set_eq. lia.
Qed.

Lemma vec_upd_run {A : Type} (a : list A) (i : Z) (f : A -> outcome A) (x x' : A) :
  vec_get a i = Ok x -> f x = Ok x' ->
  vec_upd a i f = Ok (list_set a (Z.to_nat i) x').
Proof.
  intros Hx Hf. unfold vec_upd. rewrite Hx. cbn [bind]. rewrite Hf. cbn [bind].
  pose proof (vec_get_bound Hx). unfold vec_set.
  destruct (Z.ltb_spec i 0); [lia|].
  destruct (Z.leb_spec (Z.of_nat (length a)) i); [lia|]. reflexivity.
Qed.

Lemma vec_get_list_set_ne {A : Type} (a : list A) (i j : Z) (x : A) :
  0 <= i -> i <> j -> vec_get (list_set a (Z.to_nat i) x) j = vec_get a j.
Proof.
  intros Hi Hne. unfold vec_get. destruct (Z.ltb_spec j 0); [reflexivity|].
  rewrite nth_error_list_set_ne by lia. reflexivity.
Qed.

Lemma sized_get {A : Type} {k : Z} {inner : A -> Prop} {l : list A} (i : Z) :
  sized k inner l -> 0 <= i < k -> exists x, vec_get l i = Ok x /\ inner x.
Proof.
  intros [Hlen Hall] Hi.
  destruct (vec_get_in_range l i) as [x Hx]; [lia|].
  exists x. split; [assumption|].
  apply vec_get_Ok in Hx. destruct Hx as [_ Hx].
  rewrite Forall_forall in Hall. apply Hall. eapply nth_error_In; eassumption.
Qed.

Lemma sized_list_set {A : Type} (k : Z) (inner : A -> Prop) (l : list A)
    (i : nat) (x : A) :
  sized k inner l -> inner x -> sized k inner (list_set l i x).
Proof.
  intros [Hlen Hall] Hx. split.
  - rewrite length_list_set. assumption.
  - apply Forall_list_set; assumption.
Qed.

(** ** The link store *)

Lemma links_at_well_formed {L : Lattice.t} {x0 x1 x2 x3 m : Z} :
  well_formed L -> in_lattice (Lattice.n L) (x0, x1, x2, x3) ->
  valid_direction m ->
  exists u, links_at (Lattice.links L) x0 x1 x2 x3 m = Ok u.
Proof.
  intros [_ H] (H0 & H1 & H2 & H3) Hm. unfold links_at.
  destruct (sized_get x0 H H0) as (a & Ea & Ha).
  destruct (sized_get x1 Ha H1) as (b & Eb & Hb).
  destruct (sized_get x2 Hb H2) as (c & Ec & Hc).
  destruct (sized_get x3 Hc H3) as (d & Ed & Hd).
  destruct (sized_get m Hd Hm) as (u & Eu & _).
  rewrite Ea; cbn [bind]. rewrite Eb; cbn [bind]. rewrite Ec; cbn [bind].
  rewrite Ed; cbn [bind]. eauto.
Qed.

Lemma links_at_U (L : Lattice.t) (x0 x1 x2 x3 m : Z) :
  well_formed L -> in_lattice (Lattice.n L) (x0, x1, x2, x3) ->
  valid_direction m ->
  links_at (Lattice.links L) x0 x1 x2 x3 m = Ok (U L (x0, x1, x2, x3) m).
Proof.
  intros HL Hx Hm. destruct (links_at_well_formed HL Hx Hm) as [u Hu].
  unfold U. rewrite Hu. reflexivity.
Qed.

Lemma wrap_in_lattice (ext : Z) (x : site) : 0 < ext -> in_lattice ext (wrap ext x).
Proof.
  intros H. destruct x as [[[x0 x1] x2] x3]. cbn.
  repeat split; apply Z.mod_pos_bound; assumption.
Qed.

Lemma link_of_U (L : Lattice.t) (x : site) (m : Z) :
  well_formed L -> in_lattice (Lattice.n L) x -> valid_direction m ->
  Lattice.link_of L (coords x) m = Ok (U L x m).
Proof.
  intros HL Hx Hm. destruct x as [[[x0 x1] x2] x3].
  unfold Lattice.link_of. cbn. apply links_at_U; assumption.
Qed.

(** ** Loops *)

Lemma for_range_3 {S : Type} (body : Z -> S -> outcome S) (s : S) :
  for_range 0 3 body s =
  (s1 <- body 0 s ;; s2 <- body 1 s1 ;; s3 <- body 2 s2 ;; Ok s3).
Proof. reflexivity. Qed.

Lemma for_range_4 {S : Type} (body : Z -> S -> outcome S) (s : S) :
  for_range 0 4 body s =
  (s1 <- body 0 s ;; s2 <- body 1 s1 ;; s3 <- body 2 s2 ;;
   s4 <- body 3 s3 ;; Ok s4).
Proof. reflexivity. Qed.

Lemma for_range_6 {S : Type} (body : Z -> S -> outcome S) (s : S) :
  for_range 0 6 body s =
  (s1 <- body 0 s ;; s2 <- body 1 s1 ;; s3 <- body 2 s2 ;;
   s4 <- body 3 s3 ;; s5 <- body 4 s4 ;; s6 <- body 5 s5 ;; Ok s6).
Proof. reflexivity. Qed.

(** ** Matrices *)

Ltac matrix_entries :=
  repeat match goal with
         | A : Matrix3cd |- _ => destruct A
         | z : complex |- _ => destruct z
         end.

Ltac matrix_ring :=
  matrix_entries;
  cbv [mmul adjoint Identity trace Cdot3 Cadd Cmul Cconj Czero Cone re im
       m00 m01 m02 m10 m11 m12 m20 m21 m22];
  repeat (f_equal; try ring).

Lemma mmul_Identity_l (A : Matrix3cd) : mmul Identity A = A.
Proof. matrix_ring. Qed.

Lemma mmul_Identity_r (A : Matrix3cd) : mmul A Identity = A.
Proof. matrix_ring. Qed.

Lemma mmul_assoc (A B C : Matrix3cd) :
  mmul (mmul A B) C = mmul A (mmul B C).
Proof. matrix_ring. Qed.

Lemma adjoint_mmul (A B : Matrix3cd) :
  adjoint (mmul A B) = mmul (adjoint B) (adjoint A).
Proof. matrix_ring. Qed.

Lemma adjoint_involutive (A : Matrix3cd) : adjoint (adjoint A) = A.
Proof. matrix_ring. Qed.

Lemma adjoint_Identity : adjoint Identity = Identity.
Proof. matrix_ring. Qed.

Lemma re_trace_adjoint (A : Matrix3cd) :
  re (trace (adjoint A)) = re (trace A).
Proof. matrix_entries. reflexivity. Qed.

(** ** The plaquette *)

Lemma unit_vec_array {mu : Z} :
  valid_direction mu -> vec_set [0; 0; 0; 0] mu 1 = Ok (coords (unit_vec mu)).
Proof.
  intros Hmu.
  assert (mu = 0 \/ mu = 1 \/ mu = 2 \/ mu = 3) as [-> | [-> | [-> | ->]]]
    by (unfold valid_direction in Hmu; lia); reflexivity.
Qed.

Lemma unit_vec_array_invalid {mu : Z} :
  ~ valid_direction mu -> vec_set [0; 0; 0; 0] mu 1 = Undefined.
Proof.
  intros Hmu. unfold vec_set. cbn [length].
  destruct (Z.ltb_spec mu 0); [reflexivity|].
  destruct (Z.leb_spec (Z.of_nat 4) mu); [reflexivity|].
  exfalso. apply Hmu. unfold valid_direction. lia.
Qed.

Lemma P_wrap_step (L : Lattice.t) (site mu_vec nu_vec site2 os1 os2 : list Z)
    (i x dm dn : Z) :
  0 < Lattice.n L ->
  vec_get site i = Ok x -> vec_get mu_vec i = Ok dm -> vec_get nu_vec i = Ok dn ->
  length site2 = 4%nat -> length os1 = 4%nat -> length os2 = 4%nat -> 0 <= i < 4 ->
  Lattice.P_wrap L site mu_vec nu_vec i (site2, os1, os2) =
  Ok (list_set site2 (Z.to_nat i) (x mod Lattice.n L),
      list_set os1 (Z.to_nat i) ((x + dm) mod Lattice.n L),
      list_set os2 (Z.to_nat i) ((x + dn) mod Lattice.n L)).
Proof.
  intros Hn Hx Hdm Hdn H2 H1 H3 Hi. unfold Lattice.P_wrap.
  rewrite Hx, Hdm, Hdn. cbn [bind].
  rewrite !lattice_mod_spec by assumption. cbn [bind].
  unfold vec_set. rewrite H2, H1, H3.
  destruct (Z.ltb_spec i 0); [lia|].
  destruct (Z.leb_spec (Z.of_nat 4) i); [lia|]. reflexivity.
Qed.

Lemma P_loop_spec (L : Lattice.t) (x : site) (mu nu : Z) :
  0 < Lattice.n L -> valid_direction mu -> valid_direction nu ->
  for_range 0 4
    (Lattice.P_wrap L (coords x) (coords (unit_vec mu)) (coords (unit_vec nu)))
    ([0; 0; 0; 0], [0; 0; 0; 0], [0; 0; 0; 0]) =
  Ok (coords (wrap (Lattice.n L) x),
      coords (wrap (Lattice.n L) (site_add x (unit_vec mu))),
      coords (wrap (Lattice.n L) (site_add x (unit_vec nu)))).
Proof.
  intros Hn Hmu Hnu. destruct x as [[[x0 x1] x2] x3].
  rewrite for_range_4.
  assert (mu = 0 \/ mu = 1 \/ mu = 2 \/ mu = 3) as [-> | [-> | [-> | ->]]]
    by (unfold valid_direction in Hmu; lia);
  assert (nu = 0 \/ nu = 1 \/ nu = 2 \/ nu = 3) as [-> | [-> | [-> | ->]]]
    by (unfold valid_direction in Hnu; lia);
  repeat (erewrite P_wrap_step;
          [cbn [bind] | assumption | reflexivity | reflexivity | reflexivity
           | reflexivity | reflexivity | reflexivity | lia]);
  reflexivity.
Qed.

Lemma P_spec (L : Lattice.t) (x : site) (mu nu : Z) :
  well_formed L -> valid_direction mu -> valid_direction nu ->
  Lattice.P L (coords x) mu nu = Ok (plaquette L x mu nu).
Proof.
  intros HL Hmu Hnu. pose proof HL as [Hn _]. unfold Lattice.P.
  rewrite (unit_vec_array Hmu), (unit_vec_array Hnu). cbn [bind].
  rewrite P_loop_spec by assumption. cbn [bind].
  rewrite !link_of_U by (try apply wrap_in_lattice; assumption). cbn [bind].
  rewrite mmul_Identity_l. unfold plaquette. f_equal. lra.
Qed.

Lemma P_invalid_mu (L : Lattice.t) (s : list Z) (mu nu : Z) :
  ~ valid_direction mu -> Lattice.P L s mu nu = Undefined.
Proof.
  intros Hmu. unfold Lattice.P. rewrite (unit_vec_array_invalid Hmu). reflexivity.
Qed.

Lemma P_invalid_nu (L : Lattice.t) (s : list Z) (mu nu : Z) :
  valid_direction mu -> ~ valid_direction nu -> Lattice.P L s mu nu = Undefined.
Proof.
  intros Hmu Hnu. unfold Lattice.P.
  rewrite (unit_vec_array Hmu), (unit_vec_array_invalid Hnu). reflexivity.
Qed.

(** ** Unitary matrices *)

Lemma unitary_Identity : unitary Identity.
Proof. split; matrix_ring. Qed.

Lemma unitary_adjoint (A : Matrix3cd) : unitary A -> unitary (adjoint A).
Proof.
  intros [H1 H2]. split; rewrite adjoint_involutive; assumption.
Qed.

Lemma unitary_mmul (A B : Matrix3cd) :
  unitary A -> unitary B -> unitary (mmul A B).
Proof.
  intros [A1 A2] [B1 B2]. split; rewrite adjoint_mmul.
  - rewrite mmul_assoc, <- (mmul_assoc B), B1, mmul_Identity_l. assumption.
  - rewrite mmul_assoc, <- (mmul_assoc (adjoint A)), A2, mmul_Identity_l.
    assumption.
Qed.

(** Every row of a unitary matrix has norm one, so no diagonal entry has a
    real part outside [[-1, 1]]. *)
Lemma unitary_trace_bound (W : Matrix3cd) :
  unitary W -> (-3 <= re (trace W) <= 3)%R.
Proof.
  intros [H _].
  pose proof (f_equal (fun M => re (m00 M)) H) as H0.
  pose proof (f_equal (fun M => re (m11 M)) H) as H1.
  pose proof (f_equal (fun M => re (m22 M)) H) as H2.
  destruct W as [[a00 b00] [a01 b01] [a02 b02]
                 [a10 b10] [a11 b11] [a12 b12]
                 [a20 b20] [a21 b21] [a22 b22]].
  cbv [mmul adjoint Identity trace Cdot3 Cadd Cmul Cconj Czero Cone re im
       m00 m01 m02 m10 m11 m12 m20 m21 m22] in *.
  assert (-1 <= a00 <= 1)%R by nra.
  assert (-1 <= a11 <= 1)%R by nra.
  assert (-1 <= a22 <= 1)%R by nra.
  lra.
Qed.

Lemma plaquette_product_bound (a b c d : Matrix3cd) :
  unitary a -> unitary b -> unitary c -> unitary d ->
  (-1 <= re (trace (mmul (mmul (mmul a b) (adjoint c)) (adjoint d))) / 3 <= 1)%R.
Proof.
  intros Ha Hb Hc Hd.
  assert (unitary (mmul (mmul (mmul a b) (adjoint c)) (adjoint d))) as HW
    by (repeat apply unitary_mmul; try apply unitary_adjoint; assumption).
  apply unitary_trace_bound in HW. lra.
Qed.

(** ** Cold configurations *)

Lemma sized_repeat {A : Type} (k : Z) (inner : A -> Prop) (x : A) :
  0 <= k -> inner x -> sized k inner (repeat x (Z.to_nat k)).
Proof.
  intros Hk Hx. split.
  - rewrite repeat_length. lia.
  - apply Forall_forall. intros y Hy. apply repeat_spec in Hy. subst. assumption.
Qed.

Lemma cold_start_well_formed (ext : Z) (b : R) (pool : list Matrix3cd) :
  0 < ext -> well_formed (cold_start ext b pool).
Proof.
  intros Hext. split; [assumption|]. cbn [cold_start Lattice.links Lattice.n].
  unfold cold_links.
  repeat (apply sized_repeat; [lia|]).
  exact I.
Qed.

Lemma special_unitary_Identity : special_unitary Identity.
Proof.
  split; [apply unitary_Identity|].
  cbv [determinant Identity Cadd Cmul Czero Cone re im
       m00 m01 m02 m10 m11 m12 m20 m21 m22]. f_equal; ring.
Qed.

Lemma special_unitary_flip23 : special_unitary flip23.
Proof.
  split; [split|];
  cbv [determinant mmul adjoint flip23 Identity Cdot3 Cadd Cmul Cconj Czero Cone re im
       m00 m01 m02 m10 m11 m12 m20 m21 m22]; repeat (f_equal; try ring).
Qed.

(** C5.  For a well-formed field, directions [mu], [nu] in 0..3 and every
    site [x] with [int] coordinates, inside the lattice or not, for which
    [x + e_mu] and [x + e_nu] are [int] sites too (the sums [site[i] + 1]
    that [P] forms do not overflow), the four wrapped link lookups succeed
    and [P] returns [Re Tr (U_mu(x) U_nu(x+mu) U_mu(x+nu)^+ U_nu(x)^+) / 3];
    when the four links are special-unitary the value is within [[-1, 1]]. *)
Theorem P_plaquette_formula_and_bound (L : Lattice.t) (x : site) (mu nu : Z) :
  well_formed L -> valid_direction mu -> valid_direction nu ->
  int_site x -> int_site (site_add x (unit_vec mu)) ->
  int_site (site_add x (unit_vec nu)) ->
  let w := wrap (Lattice.n L) in
  exists a b c d,
    Lattice.link_of L (coords (w x)) mu = Ok a /\
    Lattice.link_of L (coords (w (site_add x (unit_vec mu)))) nu = Ok b /\
    Lattice.link_of L (coords (w (site_add x (unit_vec nu)))) mu = Ok c /\
    Lattice.link_of L (coords (w x)) nu = Ok d /\
    Lattice.P L (coords x) mu nu =
      Ok (re (trace (mmul (mmul (mmul a b) (adjoint c)) (adjoint d))) / 3)%R /\
    (special_unitary a -> special_unitary b ->
     special_unitary c -> special_unitary d ->
     (-1 <= re (trace (mmul (mmul (mmul a b) (adjoint c)) (adjoint d))) / 3 <= 1)%R).
Proof.
  intros HL Hmu Hnu _ _ _ w. pose proof HL as [Hn _].
  exists (U L (w x) mu), (U L (w (site_add x (unit_vec mu))) nu),
         (U L (w (site_add x (unit_vec nu))) mu), (U L (w x) nu).
  do 4 (split; [apply link_of_U; try apply wrap_in_lattice; assumption|]).
  split; [apply P_spec; assumption|].
  intros Ha Hb Hc Hd.
  apply plaquette_product_bound; [apply Ha | apply Hb | apply Hc | apply Hd].
Qed.

Lemma P_plaquette_formula_and_bound_witness :
  let L := cold_start 2 (11 / 2)%R [flip23; adjoint flip23] in
  let w := wrap (Lattice.n L) in
  let x := (-1, 0, 3, 1) in
  exists a b c d,
    Lattice.link_of L (coords (w x)) 0 = Ok a /\
    Lattice.link_of L (coords (w (site_add x (unit_vec 0)))) 1 = Ok b /\
    Lattice.link_of L (coords (w (site_add x (unit_vec 1)))) 0 = Ok c /\
    Lattice.link_of L (coords (w x)) 1 = Ok d /\
    Lattice.P L (coords x) 0 1 =
      Ok (re (trace (mmul (mmul (mmul a b) (adjoint c)) (adjoint d))) / 3)%R /\
    (special_unitary a -> special_unitary b ->
     special_unitary c -> special_unitary d ->
     (-1 <= re (trace (mmul (mmul (mmul a b) (adjoint c)) (adjoint d))) / 3 <= 1)%R).
Proof.
  apply (P_plaquette_formula_and_bound
           (cold_start 2 (11 / 2)%R [flip23; adjoint flip23]) (-1, 0, 3, 1) 0 1).
  - apply cold_start_well_formed. lia.
  - unfold valid_direction. lia.
  - unfold valid_direction. lia.
  - cbv [int_site is_int INT_MIN INT_MAX]. lia.
  - cbv [int_site is_int INT_MIN INT_MAX site_add unit_vec]. cbn. lia.
  - cbv [int_site is_int INT_MIN INT_MAX site_add unit_vec]. cbn. lia.
Defined.

(** ** The local action *)

Ltac vec_step :=
  match goal with
  | |- context [vec_get (?h :: ?t) ?i] =>
      let l := constr:(h :: t) in
      lazymatch i with
      | Z0 => idtac
      | Zpos _ => idtac
      end;
      let v := eval cbv [vec_get nth_error Z.to_nat Pos.to_nat Pos.iter_op
                         Nat.add Z.ltb Z.compare] in (vec_get l i) in
      progress change (vec_get l i) with v
  end.

Ltac run_vec := repeat (vec_step; cbn [bind]).

Lemma Si_planes_loop (x : site) (d : Z) :
  valid_direction d ->
  for_range 0 4 (Lattice.Si_planes (coords x ++ [d])) ([0; 0; 0], 0) =
  Ok (other_directions d, 3).
Proof.
  intros Hd. destruct x as [[[x0 x1] x2] x3].
  assert (d = 0 \/ d = 1 \/ d = 2 \/ d = 3) as [-> | [-> | [-> | ->]]]
    by (unfold valid_direction in Hd; lia); reflexivity.
Qed.

Lemma Si_planes_loop_invalid (x : site) (d : Z) :
  ~ valid_direction d ->
  for_range 0 4 (Lattice.Si_planes (coords x ++ [d])) ([0; 0; 0], 0) = Undefined.
Proof.
  intros Hd. destruct x as [[[x0 x1] x2] x3].
  rewrite for_range_4. unfold Lattice.Si_planes. cbn [coords app].
  run_vec.
  assert (d <> 0 /\ d <> 1 /\ d <> 2 /\ d <> 3) as (H0 & H1 & H2 & H3)
    by (unfold valid_direction in Hd; lia).
  apply Z.eqb_neq in H0, H1, H2, H3. rewrite H0. cbn. run_vec. rewrite H1. cbn. run_vec.
  rewrite H2. cbn. run_vec. rewrite H3. cbn. reflexivity.
Qed.


Lemma back_step (x : site) (p : Z) :
  valid_direction p ->
  vec_upd (coords x) p (fun c => Ok (c - 1)) = Ok (coords (site_sub x (unit_vec p))).
Proof.
  intros Hp. destruct x as [[[x0 x1] x2] x3].
  assert (p = 0 \/ p = 1 \/ p = 2 \/ p = 3) as [-> | [-> | [-> | ->]]]
    by (unfold valid_direction in Hp; lia);
  cbn [coords site_sub unit_vec Z.eqb Pos.eqb]; rewrite !Z.sub_0_r; reflexivity.
Qed.

Lemma Si_body_spec (L : Lattice.t) (x : site) (d p i : Z) (planes : list Z) (Psum : R) :
  well_formed L -> valid_direction d -> valid_direction p ->
  vec_get planes i = Ok p ->
  Lattice.Si_body L (coords x ++ [d]) planes i Psum =
  Ok (Psum + plaquette L x d p + plaquette L (site_sub x (unit_vec p)) d p)%R.
Proof.
  intros HL Hd Hp Hpl. unfold Lattice.Si_body.
  replace (vec_get (coords x ++ [d]) 0) with (Ok (fst (fst (fst x))))
    by (destruct x as [[[x0 x1] x2] x3]; reflexivity).
  replace (vec_get (coords x ++ [d]) 1) with (Ok (snd (fst (fst x))))
    by (destruct x as [[[x0 x1] x2] x3]; reflexivity).
  replace (vec_get (coords x ++ [d]) 2) with (Ok (snd (fst x)))
    by (destruct x as [[[x0 x1] x2] x3]; reflexivity).
  replace (vec_get (coords x ++ [d]) 3) with (Ok (snd x))
    by (destruct x as [[[x0 x1] x2] x3]; reflexivity).
  replace (vec_get (coords x ++ [d]) 4) with (Ok d)
    by (destruct x as [[[x0 x1] x2] x3]; reflexivity).
  cbn [bind].
  replace [fst (fst (fst x)); snd (fst (fst x)); snd (fst x); snd x] with (coords x)
    by (destruct x as [[[x0 x1] x2] x3]; reflexivity).
  rewrite Hpl. cbn [bind].
  rewrite (P_spec L x d p HL Hd Hp). cbn [bind].
  rewrite (back_step x p Hp). cbn [bind].
  rewrite (P_spec L _ d p HL Hd Hp). cbn [bind]. reflexivity.
Qed.

Lemma other_directions_valid (d p : Z) :
  In p (other_directions d) -> valid_direction p /\ p <> d.
Proof.
  unfold other_directions. rewrite filter_In. intros [Hin Hne].
  apply negb_true_iff, Z.eqb_neq in Hne. split; [|assumption].
  unfold valid_direction. cbn in Hin. lia.
Qed.

Lemma Si_spec (L : Lattice.t) (x : site) (d : Z) :
  well_formed L -> valid_direction d ->
  Lattice.Si L (coords x ++ [d]) =
  Ok (- Lattice.beta L *
      Rsum (other_directions d)
           (fun nu => plaquette L x d nu +
                      plaquette L (site_sub x (unit_vec nu)) d nu))%R.
Proof.
  intros HL Hd. unfold Lattice.Si.
  rewrite (Si_planes_loop x d Hd). cbn [bind].
  rewrite for_range_3.
  assert (d = 0 \/ d = 1 \/ d = 2 \/ d = 3) as [-> | [-> | [-> | ->]]]
    by (unfold valid_direction in Hd; lia).
  all: repeat (erewrite Si_body_spec;
               [cbn [bind] | assumption | assumption | | reflexivity];
               [| unfold valid_direction; lia]).
  all: cbn [other_directions filter Z.eqb Pos.eqb negb Rsum fold_right].
  all: f_equal; ring.
Qed.

(** C4.  For a well-formed field, every direction [d] in 0..3 and every
    site [x], inside the lattice or not, whose coordinates can be stepped by
    one either way within [int] (so that neither [site[p] -= 1] in [Si] nor
    [site[i] + 1] in [P] overflows), [Si(x, d)] is [-beta] times the sum
    over the three directions [nu] other than [d] of
    [P(x, d, nu) + P(x - e_nu, d, nu)], each plaquette taken with periodic
    wrap. *)
Theorem Si_six_plaquette_sum (L : Lattice.t) (x : site) (d : Z) :
  well_formed L -> valid_direction d -> int_steps x ->
  length (other_directions d) = 3%nat /\
  (forall nu, In nu (other_directions d) <-> valid_direction nu /\ nu <> d) /\
  (forall nu, In nu (other_directions d) ->
     Lattice.P L (coords x) d nu = Ok (plaquette L x d nu) /\
     Lattice.P L (coords (site_sub x (unit_vec nu))) d nu =
       Ok (plaquette L (site_sub x (unit_vec nu)) d nu)) /\
  Lattice.Si L (coords x ++ [d]) =
  Ok (- Lattice.beta L *
      Rsum (other_directions d)
           (fun nu => plaquette L x d nu +
                      plaquette L (site_sub x (unit_vec nu)) d nu))%R.
Proof.
  intros HL Hd _. split; [|split; [|split]].
  - assert (d = 0 \/ d = 1 \/ d = 2 \/ d = 3) as [-> | [-> | [-> | ->]]]
      by (unfold valid_direction in Hd; lia); reflexivity.
  - intros nu. split; [apply other_directions_valid|].
    intros [Hv Hne]. unfold other_directions. apply filter_In. split.
    + unfold valid_direction in Hv. cbn. lia.
    + apply negb_true_iff, Z.eqb_neq. assumption.
  - intros nu Hnu. apply other_directions_valid in Hnu. destruct Hnu as [Hv Hne].
    split; apply P_spec; assumption.
  - apply Si_spec; assumption.
Qed.

Lemma Si_six_plaquette_sum_witness :
  let L := cold_start 2 (11 / 2)%R [flip23; adjoint flip23] in
  let x := (0, 1, 0, 1) in
  length (other_directions 2) = 3%nat /\
  (forall nu, In nu (other_directions 2) <-> valid_direction nu /\ nu <> 2) /\
  (forall nu, In nu (other_directions 2) ->
     Lattice.P L (coords x) 2 nu = Ok (plaquette L x 2 nu) /\
     Lattice.P L (coords (site_sub x (unit_vec nu))) 2 nu =
       Ok (plaquette L (site_sub x (unit_vec nu)) 2 nu)) /\
  Lattice.Si L (coords x ++ [2]) =
  Ok (- Lattice.beta L *
      Rsum (other_directions 2)
           (fun nu => plaquette L x 2 nu +
                      plaquette L (site_sub x (unit_vec nu)) 2 nu))%R.
Proof.
  apply (Si_six_plaquette_sum
           (cold_start 2 (11 / 2)%R [flip23; adjoint flip23]) (0, 1, 0, 1) 2).
  - apply cold_start_well_formed. lia.
  - unfold valid_direction. lia.
  - cbv [int_steps INT_MIN INT_MAX]. lia.
Defined.

(** ** Updating one link *)

Lemma vec_upd_frame {A B : Type} (a a' : list A) (i i' : Z)
    (f : A -> outcome A) (get : A -> outcome B) :
  vec_upd a i f = Ok a' ->
  (i' = i -> forall x x', vec_get a i = Ok x -> f x = Ok x' -> get x' = get x) ->
  (x <- vec_get a' i' ;; get x) = (x <- vec_get a i' ;; get x).
Proof.
  intros H Hsame. apply vec_upd_Ok in H.
  destruct H as (x & x' & Hx & Hf & -> & Hx').
  destruct (Z.eq_dec i' i) as [->|Hne].
  - rewrite Hx, Hx'. cbn [bind]. eauto.
  - rewrite vec_get_list_set_ne; [reflexivity | | congruence].
    apply vec_get_bound in Hx. lia.
Qed.

Lemma vec_upd_read {A B : Type} (a a' : list A) (i : Z)
    (f : A -> outcome A) (get : A -> outcome B) (r : B) :
  vec_upd a i f = Ok a' ->
  (forall x x', vec_get a i = Ok x -> f x = Ok x' -> get x' = Ok r) ->
  (x <- vec_get a' i ;; get x) = Ok r.
Proof.
  intros H Hget. apply vec_upd_Ok in H.
  destruct H as (x & x' & Hx & Hf & -> & Hx').
  rewrite Hx'. cbn [bind]. eauto.
Qed.

Lemma vec_upd_undo {A : Type} (a a' : list A) (i : Z) (f g : A -> outcome A) :
  vec_upd a i f = Ok a' ->
  (forall x x', vec_get a i = Ok x -> f x = Ok x' -> g x' = Ok x) ->
  vec_upd a' i g = Ok a.
Proof.
  intros H Hg. apply vec_upd_Ok in H.
  destruct H as (x & x' & Hx & Hf & -> & Hx').
  rewrite (vec_upd_run _ _ g _ _ Hx' (Hg _ _ Hx Hf)).
  rewrite list_set_twice. f_equal. apply list_set_same.
  apply vec_get_Ok in Hx. tauto.
Qed.

Lemma sized_vec_upd {A : Type} (k : Z) (inner : A -> Prop) (a a' : list A)
    (i : Z) (f : A -> outcome A) :
  sized k inner a -> vec_upd a i f = Ok a' ->
  (forall x x', inner x -> f x = Ok x' -> inner x') ->
  sized k inner a'.
Proof.
  intros Hs H Hf. apply vec_upd_Ok in H.
  destruct H as (x & x' & Hx & Hfx & -> & _).
  apply sized_list_set; [assumption|].
  apply (Hf x); [|assumption].
  destruct Hs as [_ Hall]. rewrite Forall_forall in Hall. apply Hall.
  apply vec_get_Ok in Hx. destruct Hx as [_ Hx].
  eapply nth_error_In; eassumption.
Qed.

(** Every other link is left as it was. *)
Lemma links_upd_frame (ls ls' : link_store) (i j k l m i' j' k' l' m' : Z)
    (f : Matrix3cd -> outcome Matrix3cd) :
  links_upd ls i j k l m f = Ok ls' ->
  (i', j', k', l', m') <> (i, j, k, l, m) ->
  links_at ls' i' j' k' l' m' = links_at ls i' j' k' l' m'.
Proof.
  intros H Hne. unfold links_upd in H. unfold links_at.
  eapply vec_upd_frame; [exact H|]. intros -> a a' _ Ha.
  eapply vec_upd_frame; [exact Ha|]. intros -> b b' _ Hb.
  eapply vec_upd_frame; [exact Hb|]. intros -> c c' _ Hc.
  eapply vec_upd_frame; [exact Hc|]. intros -> d d' _ Hd.
  apply vec_upd_Ok in Hd. destruct Hd as (u & u' & Hu & _ & -> & _).
  apply vec_get_list_set_ne; [|congruence].
  apply vec_get_bound in Hu. lia.
Qed.

Lemma links_upd_read (ls ls' : link_store) (i j k l m : Z)
    (f : Matrix3cd -> outcome Matrix3cd) :
  links_upd ls i j k l m f = Ok ls' ->
  exists u u', links_at ls i j k l m = Ok u /\ f u = Ok u' /\
               links_at ls' i j k l m = Ok u'.
Proof.
  intros H. unfold links_upd in H. unfold links_at.
  pose proof H as H0.
  apply vec_upd_Ok in H0. destruct H0 as (a & a' & Ea & Ha & -> & Ea').
  pose proof Ha as H0.
  apply vec_upd_Ok in H0. destruct H0 as (b & b' & Eb & Hb & -> & Eb').
  pose proof Hb as H0.
  apply vec_upd_Ok in H0. destruct H0 as (c & c' & Ec & Hc & -> & Ec').
  pose proof Hc as H0.
  apply vec_upd_Ok in H0. destruct H0 as (d & d' & Ed & Hd & -> & Ed').
  pose proof Hd as H0.
  apply vec_upd_Ok in H0. destruct H0 as (u & u' & Eu & Hu & -> & Eu').
  exists u, u'.
  rewrite Ea, Ea'. cbn [bind]. rewrite Eb, Eb'. cbn [bind].
  rewrite Ec, Ec'. cbn [bind]. rewrite Ed, Ed'. cbn [bind]. auto.
Qed.

Lemma links_upd_run (ls : link_store) (i j k l m : Z)
    (f : Matrix3cd -> outcome Matrix3cd) (u u' : Matrix3cd) :
  links_at ls i j k l m = Ok u -> f u = Ok u' ->
  exists ls', links_upd ls i j k l m f = Ok ls'.
Proof.
  unfold links_at, links_upd. intros H Hf.
  destruct (vec_get ls i) as [a| |] eqn:Ea; try discriminate. cbn [bind] in H.
  destruct (vec_get a j) as [b| |] eqn:Eb; try discriminate. cbn [bind] in H.
  destruct (vec_get b k) as [c| |] eqn:Ec; try discriminate. cbn [bind] in H.
  destruct (vec_get c l) as [d| |] eqn:Ed; try discriminate. cbn [bind] in H.
  eexists.
  eapply vec_upd_run; [exact Ea|].
  eapply vec_upd_run; [exact Eb|].
  eapply vec_upd_run; [exact Ec|].
  eapply vec_upd_run; [exact Ed|].
  eapply vec_upd_run; [exact H | exact Hf].
Qed.

(** Assigning the saved matrix back gives the store as it was. *)
Lemma links_upd_undo (ls ls' : link_store) (i j k l m : Z)
    (f : Matrix3cd -> outcome Matrix3cd) (u : Matrix3cd) :
  links_upd ls i j k l m f = Ok ls' ->
  links_at ls i j k l m = Ok u ->
  links_upd ls' i j k l m (fun _ => Ok u) = Ok ls.
Proof.
  unfold links_at, links_upd. intros H Hu.
  eapply vec_upd_undo; [exact H|]. intros a a' Ea Ha.
  rewrite Ea in Hu. cbn [bind] in Hu.
  eapply vec_upd_undo; [exact Ha|]. intros b b' Eb Hb.
  rewrite Eb in Hu. cbn [bind] in Hu.
  eapply vec_upd_undo; [exact Hb|]. intros c c' Ec Hc.
  rewrite Ec in Hu. cbn [bind] in Hu.
  eapply vec_upd_undo; [exact Hc|]. intros d d' Ed Hd.
  rewrite Ed in Hu. cbn [bind] in Hu.
  eapply vec_upd_undo; [exact Hd|]. intros v v' Ev _. congruence.
Qed.

Lemma links_upd_well_formed (L : Lattice.t) (ls' : link_store) (i j k l m : Z)
    (f : Matrix3cd -> outcome Matrix3cd) :
  well_formed L -> links_upd (Lattice.links L) i j k l m f = Ok ls' ->
  well_formed (Lattice.with_links L ls').
Proof.
  intros [Hn Hs] H. split; [exact Hn|]. cbn [Lattice.with_links Lattice.links Lattice.n].
  unfold links_upd in H.
  eapply sized_vec_upd; [exact Hs | exact H |]. intros a a' Ha Ha'.
  eapply sized_vec_upd; [exact Ha | exact Ha' |]. intros b b' Hb Hb'.
  eapply sized_vec_upd; [exact Hb | exact Hb' |]. intros c c' Hc Hc'.
  eapply sized_vec_upd; [exact Hc | exact Hc' |]. intros d d' Hd Hd'.
  eapply sized_vec_upd; [exact Hd | exact Hd' |]. auto.
Qed.

Lemma with_links_same (L : Lattice.t) : Lattice.with_links L (Lattice.links L) = L.
Proof. destruct L. reflexivity. Qed.

Lemma with_links_twice (L : Lattice.t) (ls ls' : link_store) :
  Lattice.with_links (Lattice.with_links L ls) ls' = Lattice.with_links L ls'.
Proof. reflexivity. Qed.

Lemma address_reads (x : site) (d : Z) :
  let '(x0, x1, x2, x3) := x in
  vec_get (coords x ++ [d]) 0 = Ok x0 /\ vec_get (coords x ++ [d]) 1 = Ok x1 /\
  vec_get (coords x ++ [d]) 2 = Ok x2 /\ vec_get (coords x ++ [d]) 3 = Ok x3 /\
  vec_get (coords x ++ [d]) 4 = Ok d.
Proof. destruct x as [[[x0 x1] x2] x3]. repeat split. Qed.

(** The steps of [update_link] up to the acceptance test. *)
Lemma update_link_trial (L : Lattice.t) (g : libc_rand) (x : site) (d : Z) :
  well_formed L -> in_lattice (Lattice.n L) x -> valid_direction d ->
  Lattice.randSU3s L <> [] -> rand_ok g ->
  let r1 := rand_seq g (rand_pos g) in
  let pool := Lattice.randSU3s L in
  exists (u X : Matrix3cd) (ls : link_store) (S_old S_new : R),
    site_link (Lattice.links L) x d = Ok u /\
    vec_get pool (r1 mod Z.of_nat (length pool)) = Ok X /\
    site_link_upd (Lattice.links L) x d (fun v => Ok (mmul v X)) = Ok ls /\
    site_link ls x d = Ok (mmul u X) /\
    site_link_upd ls x d (fun _ => Ok u) = Ok (Lattice.links L) /\
    Lattice.Si L (coords x ++ [d]) = Ok S_old /\
    Lattice.Si (Lattice.with_links L ls) (coords x ++ [d]) = Ok S_new /\
    Lattice.update_link L g (coords x ++ [d]) =
    let g1 := snd (rand g) in
    let L1 := Lattice.with_links L ls in
    let dS := (S_new - S_old)%R in
    if Rlt_dec 0 dS then
      let '(r, g2) := rand g1 in
      if Rlt_dec (exp (- dS)) (IZR r / IZR (RAND_MAX g2))
      then Ok (L, g2) else Ok (L1, g2)
    else Ok (L1, g1).
Proof.
  intros HL Hx Hd Hpool Hg r1 pool.
  destruct x as [[[x0 x1] x2] x3].
  destruct (links_at_well_formed HL Hx Hd) as [u Hu].
  assert (0 < Z.of_nat (length pool)) as Hsize
    by (subst pool; destruct (Lattice.randSU3s L); [congruence | cbn; lia]).
  destruct Hg as [HM Hr]. pose proof (Hr (rand_pos g)) as Hr1. fold r1 in Hr1.
  destruct (vec_get_in_range pool (r1 mod Z.of_nat (length pool))) as [X HX];
    [apply Z.mod_pos_bound; assumption|].
  destruct (links_upd_run (Lattice.links L) x0 x1 x2 x3 d
              (fun v => Ok (mmul v X)) u (mmul u X) Hu eq_refl) as [ls Hls].
  pose proof (links_upd_well_formed L _ _ _ _ _ _ _ HL Hls) as HL1.
  destruct (links_upd_read _ _ _ _ _ _ _ _ Hls) as (u0 & u0' & Hu0 & Hf & Hread).
  rewrite Hu in Hu0. injection Hu0 as <-. injection Hf as <-.
  pose proof (links_upd_undo _ _ _ _ _ _ _ _ u Hls Hu) as Hundo.
  pose proof (Si_spec L (x0, x1, x2, x3) d HL Hd) as HS0.
  pose proof (Si_spec _ (x0, x1, x2, x3) d HL1 Hd) as HS1.
  exists u, X, ls.
  eexists. eexists.
  split; [exact Hu|]. split; [exact HX|]. split; [exact Hls|].
  split; [exact Hread|]. split; [exact Hundo|].
  split; [exact HS0|]. split; [exact HS1|].
  unfold Lattice.update_link. rewrite HS0. cbn [bind].
  pose proof (address_reads (x0, x1, x2, x3) d) as (E0 & E1 & E2 & E3 & E4).
  rewrite E0, E1, E2, E3, E4. cbn [bind].
  rewrite Hu. cbn [bind]. cbn [rand fst snd].
  fold pool. fold r1.
  destruct (Z.eqb_spec (Z.of_nat (length pool)) 0) as [E|_]; [lia|].
  rewrite Z.rem_mod_nonneg by lia. rewrite HX. cbn [bind].
  rewrite Hls. cbn [bind]. rewrite HS1. cbn [bind].
  destruct (Rlt_dec _ _) as [HdS|HdS]; [|reflexivity].
  cbn [RAND_MAX].
  destruct (Rlt_dec _ _) as [Hrej|Hacc]; [|reflexivity].
  cbn [Lattice.with_links Lattice.links]. cbn [site_link_upd] in Hundo.
  rewrite Hundo. cbn [bind]. 
  destruct L; reflexivity.
Qed.

Lemma second_draw (g : libc_rand) :
  rand (snd (rand g)) =
  (rand_seq g (S (rand_pos g)), snd (rand (snd (rand g)))).
Proof. reflexivity. Qed.


Lemma tie_rand_ok : rand_ok tie_rand.
Proof.
  split; [reflexivity|]. intros [|k]; cbn; lia.
Qed.

(** ** Plaquettes of the cold field *)

Lemma vec_get_repeat {A : Type} (x : A) (N : nat) (i : Z) :
  0 <= i < Z.of_nat N -> vec_get (repeat x N) i = Ok x.
Proof.
  intros Hi. apply vec_get_Ok. split; [lia|].
  rewrite nth_error_repeat by lia. reflexivity.
Qed.

Lemma links_at_cold (ext i j k l m : Z) :
  in_lattice ext (i, j, k, l) -> valid_direction m ->
  links_at (cold_links ext) i j k l m = Ok Identity.
Proof.
  intros (Hi & Hj & Hk & Hl) Hm. unfold links_at, cold_links.
  rewrite vec_get_repeat by lia. cbn [bind].
  rewrite vec_get_repeat by lia. cbn [bind].
  rewrite vec_get_repeat by lia. cbn [bind].
  rewrite vec_get_repeat by lia. cbn [bind].
  apply vec_get_repeat. unfold valid_direction in Hm. lia.
Qed.

Lemma U_cold (ext : Z) (b : R) (pool : list Matrix3cd) (x : site) (m : Z) :
  in_lattice ext x -> valid_direction m ->
  U (cold_start ext b pool) x m = Identity.
Proof.
  intros Hx Hm. destruct x as [[[x0 x1] x2] x3]. unfold U.
  cbn [cold_start Lattice.links]. rewrite links_at_cold by assumption. reflexivity.
Qed.

Lemma re_trace_Identity : re (trace Identity) = 3%R.
Proof. cbn. lra. Qed.

Lemma re_trace_flip23 : re (trace flip23) = (-1)%R.
Proof. cbn. lra. Qed.

Lemma adjoint_flip23 : adjoint flip23 = flip23.
Proof.
  cbv [adjoint flip23 Cconj Czero Cone re im m00 m01 m02 m10 m11 m12 m20 m21 m22].
  rewrite Ropp_0. reflexivity.
Qed.

Lemma plaquette_cold (ext : Z) (b : R) (pool : list Matrix3cd) (x : site) (mu nu : Z) :
  0 < ext -> valid_direction mu -> valid_direction nu ->
  plaquette (cold_start ext b pool) x mu nu = 1%R.
Proof.
  intros Hext Hmu Hnu. unfold plaquette. cbn [cold_start Lattice.n].
  rewrite !U_cold by (try apply wrap_in_lattice; assumption).
  rewrite adjoint_Identity, !mmul_Identity_l, re_trace_Identity. lra.
Qed.

(** On a cold field every plaquette is 1. *)
Lemma P_cold (ext : Z) (b : R) (pool : list Matrix3cd) (x : site) (mu nu : Z) :
  0 < ext -> valid_direction mu -> valid_direction nu ->
  Lattice.P (cold_start ext b pool) (coords x) mu nu = Ok 1%R.
Proof.
  intros Hext Hmu Hnu.
  rewrite P_spec by (try apply cold_start_well_formed; assumption).
  rewrite plaquette_cold by assumption. reflexivity.
Qed.

Lemma other_directions_length (d : Z) :
  valid_direction d -> length (other_directions d) = 3%nat.
Proof.
  intros Hd.
  assert (d = 0 \/ d = 1 \/ d = 2 \/ d = 3) as [-> | [-> | [-> | ->]]]
    by (unfold valid_direction in Hd; lia); reflexivity.
Qed.

Lemma Si_cold (ext : Z) (b : R) (pool : list Matrix3cd) (x : site) (d : Z) :
  0 < ext -> valid_direction d ->
  Lattice.Si (cold_start ext b pool) (coords x ++ [d]) = Ok (- b * 6)%R.
Proof.
  intros Hext Hd.
  rewrite Si_spec by (try apply cold_start_well_formed; assumption).
  cbn [cold_start Lattice.beta]. f_equal. f_equal.
  assert (forall l : list Z, Forall valid_direction l ->
            Rsum l (fun nu => plaquette (cold_start ext b pool) x d nu +
                      plaquette (cold_start ext b pool) (site_sub x (unit_vec nu)) d nu)%R
            = (2 * INR (length l))%R) as Hsum.
  { unfold Rsum. induction 1 as [|nu l Hnu Hl IH]; [cbn; lra|].
    cbn [fold_right]. rewrite IH. rewrite !plaquette_cold by assumption.
    change (length (nu :: l)) with (S (length l)). rewrite S_INR. lra. }
  rewrite Hsum.
  - replace (length (other_directions d)) with 3%nat; [cbn; lra|].
    symmetry. apply other_directions_length. assumption.
  - apply Forall_forall. intros nu Hnu. apply other_directions_valid in Hnu. tauto.
Qed.

(** ** The frame of [update_link] *)

Lemma same_but_link_refl (L : Lattice.t) (x : site) (d : Z) :
  same_but_link L L x d.
Proof. repeat split. Qed.

Lemma same_but_link_upd (L : Lattice.t) (ls : link_store) (x : site) (d : Z)
    (f : Matrix3cd -> outcome Matrix3cd) :
  site_link_upd (Lattice.links L) x d f = Ok ls ->
  same_but_link L (Lattice.with_links L ls) x d.
Proof.
  intros Hls. split; [|repeat split].
  intros [[[y0 y1] y2] y3] m Hne. destruct x as [[[x0 x1] x2] x3].
  cbn [site_link site_link_upd Lattice.with_links Lattice.links] in *.
  eapply links_upd_frame; [exact Hls|]. congruence.
Qed.

(** Inside the lattice, with a direction in 0..3 and a pool that is not
    empty, the call returns whichever way the acceptance test goes. *)
Lemma update_link_returns (L : Lattice.t) (g : libc_rand) (x : site) (d : Z) :
  well_formed L -> in_lattice (Lattice.n L) x -> valid_direction d ->
  Lattice.randSU3s L <> [] -> rand_ok g ->
  exists (L' : Lattice.t) (g' : libc_rand),
    Lattice.update_link L g (coords x ++ [d]) = Ok (L', g').
Proof.
  intros HL Hx Hd Hpool Hg.
  destruct (update_link_trial L g x d HL Hx Hd Hpool Hg)
    as (u & X & ls & S_old & S_new & _ & _ & _ & _ & _ & _ & _ & Hrun).
  cbv zeta in Hrun. rewrite second_draw in Hrun.
  destruct (Rlt_dec _ _) in Hrun; [destruct (Rlt_dec _ _) in Hrun|];
    eexists; eexists; exact Hrun.
Qed.

Lemma tie_lattice_returns :
  exists (L' : Lattice.t) (g' : libc_rand),
    Lattice.update_link tie_lattice tie_rand [0; 0; 0; 0; 0] = Ok (L', g').
Proof.
  apply (update_link_returns tie_lattice tie_rand (0, 0, 0, 0) 0).
  - apply cold_start_well_formed. lia.
  - cbn. lia.
  - unfold valid_direction. lia.
  - discriminate.
  - apply tie_rand_ok.
Qed.

(** C10.  A call [update_link(link)] on a well-formed field returns, and the
    object it leaves differs from the one it found at most in the link
    matrix the argument addresses: every other link, the pool [randSU3s]
    and [n], [beta], [eps], [Ncor], [Ncf] are as before, whether the trial
    was kept or undone. *)
Theorem update_link_frame (L : Lattice.t) (g : libc_rand) (x : site) (d : Z) :
  well_formed L -> in_lattice (Lattice.n L) x -> valid_direction d ->
  Lattice.randSU3s L <> [] -> rand_ok g ->
  exists (L' : Lattice.t) (g' : libc_rand),
    Lattice.update_link L g (coords x ++ [d]) = Ok (L', g') /\
    same_but_link L L' x d.
Proof.
  intros HL Hx Hd Hpool Hg.
  destruct (update_link_trial L g x d HL Hx Hd Hpool Hg)
    as (u & X & ls & S_old & S_new & _ & _ & Hls & _ & _ & _ & _ & Hrun).
  cbv zeta in Hrun. rewrite second_draw in Hrun.
  destruct (Rlt_dec _ _) in Hrun; [destruct (Rlt_dec _ _) in Hrun|];
    eexists; eexists; (split; [exact Hrun|]).
  - apply same_but_link_refl.
  - eapply same_but_link_upd; exact Hls.
  - eapply same_but_link_upd; exact Hls.
Qed.

Lemma update_link_frame_witness :
  exists (L' : Lattice.t) (g' : libc_rand),
    Lattice.update_link tie_lattice tie_rand (coords (0, 0, 0, 0) ++ [0]) =
      Ok (L', g') /\
    same_but_link tie_lattice L' (0, 0, 0, 0) 0.
Proof.
  apply (update_link_frame tie_lattice tie_rand (0, 0, 0, 0) 0).
  - apply cold_start_well_formed. lia.
  - cbn. lia.
  - unfold valid_direction. lia.
  - discriminate.
  - apply tie_rand_ok.
Defined.

(** ** The average plaquette *)

Lemma Rsum_app {A : Type} (l1 l2 : list A) (f : A -> R) :
  Rsum (l1 ++ l2) f = (Rsum l1 f + Rsum l2 f)%R.
Proof.
  unfold Rsum. induction l1 as [|a l1 IH]; cbn [app fold_right]; [lra|].
  rewrite IH. lra.
Qed.

Lemma Rsum_map {A B : Type} (h : A -> B) (l : list A) (f : B -> R) :
  Rsum (map h l) f = Rsum l (fun a => f (h a)).
Proof.
  unfold Rsum. induction l as [|a l IH]; cbn [map fold_right]; [reflexivity|].
  rewrite IH. reflexivity.
Qed.

Lemma Rsum_flat_map {A B : Type} (h : A -> list B) (l : list A) (f : B -> R) :
  Rsum (flat_map h l) f = Rsum l (fun a => Rsum (h a) f).
Proof.
  induction l as [|a l IH]; cbn [flat_map]; [reflexivity|].
  rewrite Rsum_app, IH. reflexivity.
Qed.

Lemma Rsum_ext {A : Type} (l : list A) (f g : A -> R) :
  (forall a, In a l -> f a = g a) -> Rsum l f = Rsum l g.
Proof.
  unfold Rsum. induction l as [|a l IH]; intros H; cbn [fold_right]; [reflexivity|].
  rewrite (H a) by (left; reflexivity). rewrite IH; [reflexivity|].
  intros b Hb. apply H. right. assumption.
Qed.

(** A loop that adds [g i] to its accumulator computes a sum. *)
Lemma for_range_Rsum (body : Z -> R -> outcome R) (g : Z -> R) (count : nat) :
  forall (a : nat) (acc : R),
  (forall i s, In i (map Z.of_nat (seq a count)) -> body i s = Ok (s + g i)%R) ->
  for_range (Z.of_nat a) count body acc =
  Ok (acc + Rsum (map Z.of_nat (seq a count)) g)%R.
Proof.
  induction count as [|count IH]; intros a acc Hbody.
  - cbn. f_equal. lra.
  - cbn [for_range seq map]. rewrite Hbody by (left; reflexivity). cbn [bind].
    replace (Z.of_nat a + 1) with (Z.of_nat (S a)) by lia.
    rewrite IH.
    + f_equal. unfold Rsum. cbn [fold_right]. lra.
    + intros i s Hi. apply Hbody. right. assumption.
Qed.

Lemma for_range_Rsum_0 (body : Z -> R -> outcome R) (g : Z -> R) (ext : Z) (acc : R) :
  (forall i s, In i (range ext) -> body i s = Ok (s + g i)%R) ->
  for_range 0 (Z.to_nat ext) body acc = Ok (acc + Rsum (range ext) g)%R.
Proof. intros H. apply (for_range_Rsum body g (Z.to_nat ext) 0). exact H. Qed.

Lemma in_range (ext i : Z) : In i (range ext) <-> 0 <= i < ext.
Proof.
  unfold range. rewrite in_map_iff. split.
  - intros (k & <- & Hk). apply in_seq in Hk. lia.
  - intros Hi. exists (Z.to_nat i). split; [lia|]. apply in_seq. lia.
Qed.

Lemma in_all_sites (ext : Z) (x : site) : In x (all_sites ext) <-> in_lattice ext x.
Proof.
  destruct x as [[[x0 x1] x2] x3]. unfold all_sites, in_lattice. split.
  - intros H.
    apply in_flat_map in H. destruct H as (i & Hi & H).
    apply in_flat_map in H. destruct H as (j & Hj & H).
    apply in_flat_map in H. destruct H as (k & Hk & H).
    apply in_map_iff in H. destruct H as (l & Heq & Hl).
    injection Heq as <- <- <- <-.
    apply in_range in Hi, Hj, Hk, Hl. tauto.
  - intros (H0 & H1 & H2 & H3).
    apply in_flat_map. exists x0. split; [apply in_range; assumption|].
    apply in_flat_map. exists x1. split; [apply in_range; assumption|].
    apply in_flat_map. exists x2. split; [apply in_range; assumption|].
    apply in_map_iff. exists x3. split; [reflexivity | apply in_range; assumption].
Qed.

Lemma length_flat_map_const {A B : Type} (h : A -> list B) (l : list A) (c : nat) :
  (forall a, length (h a) = c) -> length (flat_map h l) = (length l * c)%nat.
Proof.
  intros H. induction l as [|a l IH]; cbn [flat_map length]; [reflexivity|].
  rewrite length_app, H, IH. lia.
Qed.

Lemma length_all_sites (ext : Z) :
  0 <= ext -> Z.of_nat (length (all_sites ext)) = ext ^ 4.
Proof.
  intros Hext. unfold all_sites.
  assert (length (range ext) = Z.to_nat ext) as Hr
    by (unfold range; rewrite length_map, length_seq; reflexivity).
  rewrite (length_flat_map_const _ _ (Z.to_nat ext * (Z.to_nat ext * Z.to_nat ext))).
  - rewrite Hr. lia.
  - intros i. rewrite (length_flat_map_const _ _ (Z.to_nat ext * Z.to_nat ext)).
    + rewrite Hr. reflexivity.
    + intros j. rewrite (length_flat_map_const _ _ (Z.to_nat ext)).
      * rewrite Hr. reflexivity.
      * intros k. rewrite length_map. exact Hr.
Qed.

(** Exchanging the two directions conjugates the loop, which leaves the
    real part of the trace as it is. *)
Lemma plaquette_sym (L : Lattice.t) (x : site) (mu nu : Z) :
  plaquette L x mu nu = plaquette L x nu mu.
Proof.
  unfold plaquette. f_equal.
  rewrite <- re_trace_adjoint. rewrite !adjoint_mmul, !adjoint_involutive.
  rewrite !mmul_assoc. reflexivity.
Qed.

Lemma Pav_body_spec (L : Lattice.t) (nus mus : list Z) (x : site) (m mu nu : Z)
    (Ptot : R) :
  well_formed L -> vec_get mus m = Ok mu -> vec_get nus m = Ok nu ->
  valid_direction mu -> valid_direction nu ->
  let '(i, j, k, l) := x in
  Lattice.Pav_body L nus mus i j k l m Ptot = Ok (Ptot + plaquette L x mu nu)%R.
Proof.
  intros HL Hmu Hnu Vmu Vnu. destruct x as [[[i j] k] l].
  unfold Lattice.Pav_body. rewrite Hmu, Hnu. cbn [bind].
  change [i; j; k; l] with (coords (i, j, k, l)).
  rewrite (P_spec L (i, j, k, l) mu nu HL Vmu Vnu). reflexivity.
Qed.

Lemma Pav_planes (L : Lattice.t) (i j k l : Z) (Ptot : R) :
  well_formed L ->
  for_range 0 6
    (Lattice.Pav_body L [0; 0; 0; 1; 1; 2] [1; 2; 3; 2; 3; 3] i j k l) Ptot =
  Ok (Ptot + Rsum plane_pairs
                  (fun p => plaquette L (i, j, k, l) (fst p) (snd p)))%R.
Proof.
  intros HL. rewrite for_range_6.
  rewrite (Pav_body_spec L [0; 0; 0; 1; 1; 2] [1; 2; 3; 2; 3; 3] (i, j, k, l) 0 1 0 _ HL eq_refl eq_refl)
    by (unfold valid_direction; lia). cbn [bind].
  rewrite (Pav_body_spec L [0; 0; 0; 1; 1; 2] [1; 2; 3; 2; 3; 3] (i, j, k, l) 1 2 0 _ HL eq_refl eq_refl)
    by (unfold valid_direction; lia). cbn [bind].
  rewrite (Pav_body_spec L [0; 0; 0; 1; 1; 2] [1; 2; 3; 2; 3; 3] (i, j, k, l) 2 3 0 _ HL eq_refl eq_refl)
    by (unfold valid_direction; lia). cbn [bind].
  rewrite (Pav_body_spec L [0; 0; 0; 1; 1; 2] [1; 2; 3; 2; 3; 3] (i, j, k, l) 3 2 1 _ HL eq_refl eq_refl)
    by (unfold valid_direction; lia). cbn [bind].
  rewrite (Pav_body_spec L [0; 0; 0; 1; 1; 2] [1; 2; 3; 2; 3; 3] (i, j, k, l) 4 3 1 _ HL eq_refl eq_refl)
    by (unfold valid_direction; lia). cbn [bind].
  rewrite (Pav_body_spec L [0; 0; 0; 1; 1; 2] [1; 2; 3; 2; 3; 3] (i, j, k, l) 5 3 2 _ HL eq_refl eq_refl)
    by (unfold valid_direction; lia). cbn [bind].
  f_equal. unfold plane_pairs, Rsum. cbn [fold_right fst snd].
  rewrite (plaquette_sym L _ 0 1), (plaquette_sym L _ 0 2), (plaquette_sym L _ 0 3),
          (plaquette_sym L _ 1 2), (plaquette_sym L _ 1 3), (plaquette_sym L _ 2 3).
  lra.
Qed.

Lemma Pav_spec (L : Lattice.t) :
  well_formed L ->
  Lattice.Pav L =
  Ok ((Rsum (all_sites (Lattice.n L))
         (fun x => Rsum plane_pairs (fun p => plaquette L x (fst p) (snd p)))
       / (IZR (Lattice.n L) ^ 4 * 6))%R, L).
Proof.
  intros HL. unfold Lattice.Pav.
  rewrite (for_range_Rsum_0 _
    (fun i => Rsum (range (Lattice.n L)) (fun j =>
              Rsum (range (Lattice.n L)) (fun k =>
              Rsum (range (Lattice.n L)) (fun l =>
              Rsum plane_pairs (fun p => plaquette L (i, j, k, l) (fst p) (snd p))))))).
  - cbn [bind]. f_equal. f_equal. f_equal. rewrite Rplus_0_l.
    unfold all_sites. rewrite Rsum_flat_map. apply Rsum_ext. intros i _.
    rewrite Rsum_flat_map. apply Rsum_ext. intros j _.
    rewrite Rsum_flat_map. apply Rsum_ext. intros k _.
    rewrite Rsum_map. reflexivity.
  - intros i s _. apply for_range_Rsum_0. intros j s1 _.
    apply for_range_Rsum_0. intros k s2 _.
    apply for_range_Rsum_0. intros l s3 _.
    apply Pav_planes. assumption.
Qed.

(** C8.  On a well-formed field [Pav()] returns the sum of the plaquette
    [P(x, mu, nu)] over the [n^4] sites of the lattice and the six unordered
    pairs of directions, divided by [n^4 * 6]; the object after the call is
    the object before it, so calling it again returns the same value. *)
Theorem Pav_average_read_only (L : Lattice.t) :
  well_formed L ->
  let sites := all_sites (Lattice.n L) in
  let avg :=
    (Rsum sites (fun x => Rsum plane_pairs
                            (fun p => plaquette L x (fst p) (snd p)))
     / (IZR (Lattice.n L) ^ 4 * 6))%R in
  Z.of_nat (length sites) = Lattice.n L ^ 4 /\
  (forall x, In x sites <-> in_lattice (Lattice.n L) x) /\
  (forall x p, In x sites -> In p plane_pairs ->
     Lattice.P L (coords x) (fst p) (snd p) =
     Ok (plaquette L x (fst p) (snd p))) /\
  Lattice.Pav L = Ok (avg, L) /\
  (r <- Lattice.Pav L ;; Lattice.Pav (snd r)) = Ok (avg, L).
Proof.
  intros HL sites avg. pose proof HL as [Hn _].
  split; [apply length_all_sites; lia|].
  split; [intros x; apply in_all_sites|].
  split.
  - intros x p _ Hp. apply P_spec; [assumption| |];
      cbn in Hp; unfold valid_direction;
      destruct Hp as [<- | [<- | [<- | [<- | [<- | [<- | []]]]]]]; cbn; lia.
  - rewrite (Pav_spec L HL). cbn [bind snd]. rewrite (Pav_spec L HL). auto.
Qed.

Lemma Pav_average_read_only_witness :
  let L := cold_start 2 (11 / 2)%R [flip23; adjoint flip23] in
  let sites := all_sites (Lattice.n L) in
  let avg :=
    (Rsum sites (fun x => Rsum plane_pairs
                            (fun p => plaquette L x (fst p) (snd p)))
     / (IZR (Lattice.n L) ^ 4 * 6))%R in
  Z.of_nat (length sites) = Lattice.n L ^ 4 /\
  (forall x, In x sites <-> in_lattice (Lattice.n L) x) /\
  (forall x p, In x sites -> In p plane_pairs ->
     Lattice.P L (coords x) (fst p) (snd p) =
     Ok (plaquette L x (fst p) (snd p))) /\
  Lattice.Pav L = Ok (avg, L) /\
  (r <- Lattice.Pav L ;; Lattice.Pav (snd r)) = Ok (avg, L).
Proof.
  apply (Pav_average_read_only (cold_start 2 (11 / 2)%R [flip23; adjoint flip23])).
  apply cold_start_well_formed. lia.
Defined.

(** ** The parity classes of [update()] *)

(** With an even extent the class of a site is the parity of its last
    coordinate alone. *)
Lemma even_extent_parity (L : Lattice.t) (i j k l : Z) :
  Z.even (Lattice.n L) = true -> 0 <= i -> 0 <= j -> 0 <= k -> 0 <= l ->
  0 < Lattice.n L ->
  is_even_site L (i, j, k, l) = Z.even l.
Proof.
  intros He Hi Hj Hk Hl Hn. unfold is_even_site, Lattice.index.
  apply Z.even_spec in He. destruct He as [h Hh].
  rewrite Z.rem_mod_nonneg by nia.
  rewrite Hh.
  replace (l + 2 * h * (k + 2 * h * (j + 2 * h * i)))
    with (l + (h * (k + 2 * h * (j + 2 * h * i))) * 2) by ring.
  rewrite Z_mod_plus_full. rewrite Zmod_even.
  destruct (Z.even l); reflexivity.
Qed.

(** So a step in one of the directions 0, 1, 2 stays in the class. *)
Lemma even_extent_same_class (L : Lattice.t) (x : site) (k : Z) :
  Z.even (Lattice.n L) = true -> 0 < Lattice.n L ->
  in_lattice (Lattice.n L) x -> 0 <= k < 3 ->
  is_even_site L (neighbour L x k) = is_even_site L x.
Proof.
  intros He Hn Hx Hk. destruct x as [[[x0 x1] x2] x3].
  destruct Hx as (H0 & H1 & H2 & H3).
  unfold neighbour. cbn [site_add unit_vec wrap].
  rewrite !even_extent_parity;
    try assumption; try lia; try (apply Z.mod_pos_bound; assumption).
  assert (k = 0 \/ k = 1 \/ k = 2) as [-> | [-> | ->]] by lia;
    cbn [Z.eqb Pos.eqb]; rewrite Z.add_0_r, Z.mod_small by lia; reflexivity.
Qed.

(** C2 fails on the code.  With the default extent 8 the site [(0,0,0,0)]
    and its neighbour in direction 0, which the wrap loop of [P] computes as
    [(1,0,0,0)], have the indices 0 and 512: [update()] puts both in the
    even class. *)
Theorem neighbour_in_same_parity_class :
  let L := cold_start 8 (11 / 2)%R [flip23; adjoint flip23] in
  for_range 0 4 (Lattice.P_wrap L [0; 0; 0; 0] [1; 0; 0; 0] [0; 1; 0; 0])
    ([0; 0; 0; 0], [0; 0; 0; 0], [0; 0; 0; 0]) =
    Ok ([0; 0; 0; 0], coords (neighbour L (0, 0, 0, 0) 0),
        coords (neighbour L (0, 0, 0, 0) 1)) /\
  neighbour L (0, 0, 0, 0) 0 = (1, 0, 0, 0) /\
  Lattice.index L 0 0 0 0 = 0 /\ Lattice.index L 1 0 0 0 = 512 /\
  is_even_site L (0, 0, 0, 0) = true /\
  is_even_site L (neighbour L (0, 0, 0, 0) 0) = true.
Proof.
  intros L.
  split; [|repeat split].
  exact (P_loop_spec L (0, 0, 0, 0) 0 1 eq_refl
           (conj (Z.le_refl 0) eq_refl) (conj (Zle_0_pos 1) eq_refl)).
Qed.

(** For an odd extent it is the wrapping step that stays in the class. *)
Lemma odd_extent_wrap_same_class :
  let L := cold_start 3 (11 / 2)%R [flip23; adjoint flip23] in
  neighbour L (2, 0, 0, 0) 0 = (0, 0, 0, 0) /\
  is_even_site L (2, 0, 0, 0) = true /\ is_even_site L (0, 0, 0, 0) = true.
Proof. repeat split. Qed.

(** ** The thread schedule of [update()] *)

Lemma update_only_reads_extent (L L' : Lattice.t) :
  Lattice.n L = Lattice.n L' -> Lattice.update L = Lattice.update L'.
Proof.
  intros H. unfold Lattice.update, Lattice.update_site, Lattice.index.
  rewrite H. reflexivity.
Qed.

(** C3 fails on the code.  On a lattice of extent 2 [update()] issues 128
    thread operations: the 64 thread creations come first, then the 32
    joins of the odd class, then the 32 joins of the even class.  The
    thread of the even link [(0,0,0,0; 0)] is started by the first
    operation, the first join of an odd thread is operation 64: whichever
    class is taken as the first phase, threads of the other class are
    started before any thread of the first has been joined. *)
Theorem update_starts_both_phases_before_any_join :
  let L := cold_start 2 (11 / 2)%R [flip23; adjoint flip23] in
  exists tr : list event,
    Lattice.update L = Ok tr /\
    length tr = 128%nat /\
    (forall a link, nth_error tr a = Some (Start link) -> (a < 64)%nat) /\
    (forall a link, nth_error tr a = Some (Join link) -> (64 <= a)%nat) /\
    nth_error tr 0 = Some (Start [0; 0; 0; 0; 0]) /\
    is_even_link L [0; 0; 0; 0; 0] = true /\
    nth_error tr 4 = Some (Start [0; 0; 0; 1; 0]) /\
    is_even_link L [0; 0; 0; 1; 0] = false /\
    nth_error tr 64 = Some (Join [0; 0; 0; 1; 0]) /\
    nth_error tr 96 = Some (Join [0; 0; 0; 0; 0]) /\
    ~ phase_barrier L false tr /\ ~ phase_barrier L true tr.
Proof.
  intros L.
  assert (exists tr, Lattice.update L = Ok tr /\
            forallb (fun e => match e with Start _ => true | Join _ => false end)
                    (firstn 64 tr) = true /\
            forallb (fun e => match e with Start _ => false | Join _ => true end)
                    (skipn 64 tr) = true /\
            length tr = 128%nat /\
            nth_error tr 0 = Some (Start [0; 0; 0; 0; 0]) /\
            nth_error tr 4 = Some (Start [0; 0; 0; 1; 0]) /\
            nth_error tr 64 = Some (Join [0; 0; 0; 1; 0]) /\
            nth_error tr 96 = Some (Join [0; 0; 0; 0; 0]))
    as (tr & Hrun & Hstarts & Hjoins & Hlen & H0 & H4 & H64 & H96).
  { unfold Lattice.update, Lattice.update_site, Lattice.index.
    change (Lattice.n L) with 2.
    eexists. split; [vm_compute; reflexivity|]. vm_compute. repeat split. }
  exists tr. split; [exact Hrun|]. split; [exact Hlen|].
  assert (forall a link, nth_error tr a = Some (Start link) -> (a < 64)%nat) as HS.
  { intros a link Ha. destruct (Nat.lt_ge_cases a 64) as [|Hge]; [assumption|].
    exfalso. rewrite forallb_forall in Hjoins.
    assert (In (Start link) (skipn 64 tr)) as Hin.
    { apply nth_error_In with (n := (a - 64)%nat).
      rewrite nth_error_skipn. replace (64 + (a - 64))%nat with a by lia. exact Ha. }
    apply Hjoins in Hin. discriminate. }
  assert (forall a link, nth_error tr a = Some (Join link) -> (64 <= a)%nat) as HJ.
  { intros a link Ha. destruct (Nat.lt_ge_cases a 64) as [Hlt|]; [|assumption].
    exfalso. rewrite forallb_forall in Hstarts.
    assert (In (Join link) (firstn 64 tr)) as Hin.
    { apply nth_error_In with (n := a).
      rewrite nth_error_firstn. destruct (Nat.ltb_spec a 64); [exact Ha | lia]. }
    apply Hstarts in Hin. discriminate. }
  repeat (split; [assumption || reflexivity|]).
  split.
  - intros Hbar. specialize (Hbar 64%nat 0%nat _ _ H64 eq_refl H0 eq_refl). lia.
  - intros Hbar. specialize (Hbar 96%nat 4%nat _ _ H96 eq_refl H4 eq_refl). lia.
Qed.

(** ** Direction arguments *)

Lemma never_raises_Ok {A : Type} (a : A) : never_raises (Ok a).
Proof. intros e. discriminate. Qed.

Lemma never_raises_Undefined {A : Type} : never_raises (@Undefined A).
Proof. intros e. discriminate. Qed.

Lemma never_raises_bind {A B : Type} (o : outcome A) (f : A -> outcome B) :
  never_raises o -> (forall a, never_raises (f a)) -> never_raises (bind o f).
Proof.
  intros Ho Hf e. destruct o as [a|e'|]; cbn [bind].
  - apply Hf.
  - exfalso. apply (Ho e'). reflexivity.
  - discriminate.
Qed.

Lemma never_raises_vec_get {A : Type} (a : list A) (i : Z) :
  never_raises (vec_get a i).
Proof.
  unfold vec_get. destruct (i <? 0); [apply never_raises_Undefined|].
  destruct (nth_error a (Z.to_nat i));
    [apply never_raises_Ok | apply never_raises_Undefined].
Qed.

Lemma never_raises_vec_set {A : Type} (a : list A) (i : Z) (x : A) :
  never_raises (vec_set a i x).
Proof.
  unfold vec_set. destruct (_ || _);
    [apply never_raises_Undefined | apply never_raises_Ok].
Qed.

Lemma never_raises_vec_upd {A : Type} (a : list A) (i : Z) (f : A -> outcome A) :
  (forall x, never_raises (f x)) -> never_raises (vec_upd a i f).
Proof.
  intros Hf. unfold vec_upd.
  apply never_raises_bind; [apply never_raises_vec_get|]. intros x.
  apply never_raises_bind; [apply Hf|]. intros x'. apply never_raises_vec_set.
Qed.

Lemma never_raises_mod (n d : Z) : never_raises (lattice_mod n d).
Proof.
  unfold lattice_mod. generalize (S (Z.to_nat (- n))) as fuel. intros fuel.
  revert n. induction fuel as [|fuel IH]; intros n; cbn [mod_loop].
  - apply never_raises_Undefined.
  - destruct (n <? 0); [apply IH|].
    destruct (d =? 0); [apply never_raises_Undefined | apply never_raises_Ok].
Qed.

Lemma never_raises_for_range {S : Type} (body : Z -> S -> outcome S)
    (count : nat) :
  (forall i s, never_raises (body i s)) ->
  forall i s, never_raises (for_range i count body s).
Proof.
  intros Hbody. induction count as [|count IH]; intros i s; cbn [for_range].
  - apply never_raises_Ok.
  - apply never_raises_bind; [apply Hbody|]. intros s'. apply IH.
Qed.

Ltac no_raise_step :=
  lazymatch goal with
  | |- never_raises (Ok _) => apply never_raises_Ok
  | |- never_raises Undefined => apply never_raises_Undefined
  | |- never_raises (vec_get _ _) => apply never_raises_vec_get
  | |- never_raises (vec_set _ _ _) => apply never_raises_vec_set
  | |- never_raises (lattice_mod _ _) => apply never_raises_mod
  | |- never_raises (vec_upd _ _ _) => apply never_raises_vec_upd; intros ?
  | |- never_raises (for_range _ _ _ _) =>
      apply never_raises_for_range; intros ? ?
  | |- never_raises (bind _ _) => apply never_raises_bind; [|intros ?]
  | |- never_raises (let '(_, _) := ?p in _) => destruct p
  | |- never_raises (if ?c then _ else _) => destruct c
  end.

Ltac no_raise := repeat no_raise_step.

Lemma never_raises_links_at (ls : link_store) (i j k l m : Z) :
  never_raises (links_at ls i j k l m).
Proof. unfold links_at. no_raise. Qed.

Lemma never_raises_links_upd (ls : link_store) (i j k l m : Z)
    (f : Matrix3cd -> outcome Matrix3cd) :
  (forall u, never_raises (f u)) -> never_raises (links_upd ls i j k l m f).
Proof. intros Hf. unfold links_upd. no_raise. apply Hf. Qed.

Lemma never_raises_P (L : Lattice.t) (s : list Z) (mu nu : Z) :
  never_raises (Lattice.P L s mu nu).
Proof.
  unfold Lattice.P, Lattice.P_wrap, Lattice.link_of. no_raise;
    apply never_raises_links_at.
Qed.

Lemma never_raises_Si (L : Lattice.t) (link : list Z) :
  never_raises (Lattice.Si L link).
Proof.
  unfold Lattice.Si, Lattice.Si_planes, Lattice.Si_body. no_raise;
    apply never_raises_P.
Qed.

Lemma never_raises_update_link (L : Lattice.t) (g : libc_rand) (link : list Z) :
  never_raises (Lattice.update_link L g link).
Proof.
  unfold Lattice.update_link. no_raise;
    try apply never_raises_Si; try apply never_raises_links_at;
    try (apply never_raises_links_upd; intros; apply never_raises_Ok).
Qed.

(** C6 as stated fails: [P] called with the direction 4 does not fail with
    [InvalidDirection]; it writes [mu_vec[4]], outside the array. *)
Lemma P_direction_unchecked :
  Lattice.P tie_lattice [0; 0; 0; 0] 4 0 = Undefined /\
  Lattice.P tie_lattice [0; 0; 0; 0] 4 0 <>
  direction_checked 4 (Lattice.P tie_lattice [0; 0; 0; 0] 4 0).
Proof.
  assert (Lattice.P tie_lattice [0; 0; 0; 0] 4 0 = Undefined) as H.
  { apply P_invalid_mu. unfold valid_direction. lia. }
  split; [exact H|]. rewrite H. discriminate.
Qed.

(** C6 (amended).  No operation validates a direction argument.  [P], [Si]
    and [update_link] never raise a failure, whatever their arguments; given
    a direction outside 0..3 they access an array out of bounds
    ([mu_vec[mu]] and [nu_vec[nu]] in [P], [planes[3]] in [Si]), which is
    undefined behaviour. *)
Theorem direction_not_validated (L : Lattice.t) (g : libc_rand) (x : site)
    (d nu : Z) :
  ~ valid_direction d ->
  Lattice.P L (coords x) d nu = Undefined /\
  Lattice.P L (coords x) nu d = Undefined /\
  Lattice.Si L (coords x ++ [d]) = Undefined /\
  Lattice.update_link L g (coords x ++ [d]) = Undefined /\
  (forall (s link : list Z) (mu nu' : Z),
     never_raises (Lattice.P L s mu nu') /\
     never_raises (Lattice.Si L link) /\
     never_raises (Lattice.update_link L g link)).
Proof.
  intros Hd.
  assert (Lattice.Si L (coords x ++ [d]) = Undefined) as HSi.
  { unfold Lattice.Si. rewrite Si_planes_loop_invalid by assumption. reflexivity. }
  split; [apply P_invalid_mu; assumption|].
  split.
  { destruct (Z_lt_dec nu 0) as [Hlo|Hlo];
      [apply P_invalid_mu; unfold valid_direction; lia|].
    destruct (Z_lt_dec nu 4) as [Hhi|Hhi];
      [|apply P_invalid_mu; unfold valid_direction; lia].
    apply P_invalid_nu; [unfold valid_direction; lia | assumption]. }
  split; [exact HSi|].
  split.
  { unfold Lattice.update_link. rewrite HSi. reflexivity. }
  intros s link mu nu'. split; [apply never_raises_P|].
  split; [apply never_raises_Si | apply never_raises_update_link].
Qed.

Lemma direction_not_validated_witness :
  let L := tie_lattice in
  let x := (0, 0, 0, 0) in
  Lattice.P L (coords x) 4 1 = Undefined /\
  Lattice.P L (coords x) 1 4 = Undefined /\
  Lattice.Si L (coords x ++ [4]) = Undefined /\
  Lattice.update_link L tie_rand (coords x ++ [4]) = Undefined /\
  (forall (s link : list Z) (mu nu' : Z),
     never_raises (Lattice.P L s mu nu') /\
     never_raises (Lattice.Si L link) /\
     never_raises (Lattice.update_link L tie_rand link)).
Proof.
  apply (direction_not_validated tie_lattice tie_rand (0, 0, 0, 0) 4 1).
  unfold valid_direction. lia.
Defined.

(** * Further properties *)

(** ** [lattice::mod] outside its intended domain *)

Lemma mod_loop_spins (fuel : nat) (n : Z) :
  n < 0 -> mod_loop fuel n 0 = Undefined.
Proof.
  revert n. induction fuel as [|fuel IH]; intros n Hn; [reflexivity|].
  cbn [mod_loop]. destruct (Z.ltb_spec n 0); [|lia]. apply IH; lia.
Qed.

(** X1.  Where the loop of [mod(n, d)] cannot overflow, that is for
    [n >= 0] (it is not entered) or [d >= 0] (it does not move [n] away
    from 0), the call returns a value exactly when [d <> 0]: with [d = 0]
    and [n >= 0] it evaluates [n % 0], and with [d = 0] and [n < 0] the loop
    has no exit. *)
Theorem mod_returns_iff (n d : Z) :
  0 <= n \/ 0 <= d ->
  ((exists (fuel : nat) (r : Z), mod_loop fuel n d = Ok r) <-> d <> 0).
Proof.
  intros Hdom. split.
  - intros (fuel & r & H) ->.
    destruct (Z_lt_dec n 0) as [Hn|Hn].
    + rewrite mod_loop_spins in H by assumption. discriminate.
    + destruct fuel as [|fuel]; [discriminate|].
      cbn [mod_loop] in H. destruct (Z.ltb_spec n 0); [lia|]. discriminate.
  - intros Hd. destruct (Z_lt_dec 0 d) as [Hpos|Hneg].
    + exists (S (Z.to_nat (- n))), (n mod d). apply mod_loop_spec; [assumption | lia].
    + exists 1%nat, (Z.rem n d). cbn [mod_loop].
      destruct (Z.ltb_spec n 0); [lia|].
      destruct (Z.eqb_spec d 0); [contradiction | reflexivity].
Qed.

Lemma mod_returns_iff_witness :
  (exists (fuel : nat) (r : Z), mod_loop fuel (-7) 3 = Ok r) <-> 3 <> 0.
Proof.
  apply (mod_returns_iff (-7) 3). lia.
Defined.

(** ** Symmetry and periodicity of the plaquette *)

Lemma valid_direction_dec (d : Z) : {valid_direction d} + {~ valid_direction d}.
Proof.
  unfold valid_direction.
  destruct (Z_le_dec 0 d); [destruct (Z_lt_dec d 4)|]; (left; lia) || (right; lia).
Qed.

Lemma P_invalid (L : Lattice.t) (s : list Z) (mu nu : Z) :
  ~ valid_direction mu \/ ~ valid_direction nu -> Lattice.P L s mu nu = Undefined.
Proof.
  intros H. destruct (valid_direction_dec mu) as [Hmu|Hmu].
  - apply P_invalid_nu; tauto.
  - apply P_invalid_mu; assumption.
Qed.



Lemma wrap_shift (ext : Z) (x t : site) :
  wrap ext (site_add x (site_scale ext t)) = wrap ext x.
Proof.
  destruct x as [[[x0 x1] x2] x3], t as [[[t0 t1] t2] t3].
  cbn [site_add site_scale wrap].
  rewrite !(Z.mul_comm ext), !Z_mod_plus_full. reflexivity.
Qed.

Lemma site_add_shift (x t e : site) (ext : Z) :
  wrap ext (site_add (site_add x (site_scale ext t)) e) = wrap ext (site_add x e).
Proof.
  destruct x as [[[x0 x1] x2] x3], t as [[[t0 t1] t2] t3], e as [[[e0 e1] e2] e3].
  cbn [site_add site_scale wrap].
  replace (x0 + ext * t0 + e0) with (x0 + e0 + t0 * ext) by ring.
  replace (x1 + ext * t1 + e1) with (x1 + e1 + t1 * ext) by ring.
  replace (x2 + ext * t2 + e2) with (x2 + e2 + t2 * ext) by ring.
  replace (x3 + ext * t3 + e3) with (x3 + e3 + t3 * ext) by ring.
  rewrite !Z_mod_plus_full. reflexivity.
Qed.

Lemma site_sub_shift (x t e : site) (ext : Z) :
  site_sub (site_add x (site_scale ext t)) e =
  site_add (site_sub x e) (site_scale ext t).
Proof.
  destruct x as [[[x0 x1] x2] x3], t as [[[t0 t1] t2] t3], e as [[[e0 e1] e2] e3].
  cbn [site_add site_sub site_scale].
  f_equal; [f_equal; [f_equal|]|]; ring.
Qed.

Lemma plaquette_periodic (L : Lattice.t) (x t : site) (mu nu : Z) :
  plaquette L (site_add x (site_scale (Lattice.n L) t)) mu nu = plaquette L x mu nu.
Proof.
  unfold plaquette. rewrite !site_add_shift, wrap_shift. reflexivity.
Qed.

Lemma Si_invalid (L : Lattice.t) (x : site) (d : Z) :
  ~ valid_direction d -> Lattice.Si L (coords x ++ [d]) = Undefined.
Proof.
  intros Hd. unfold Lattice.Si.
  rewrite Si_planes_loop_invalid by assumption. reflexivity.
Qed.

(** X3.  [P] and [Si] see a site only through its wrapped coordinates:
    moving the site by [n] times any integer vector changes neither, as long
    as the coordinates of both sites can be stepped by one either way
    within [int]. *)
Theorem P_Si_periodic (L : Lattice.t) (x t : site) (mu nu : Z) :
  well_formed L ->
  int_steps x -> int_steps (site_add x (site_scale (Lattice.n L) t)) ->
  Lattice.P L (coords (site_add x (site_scale (Lattice.n L) t))) mu nu =
    Lattice.P L (coords x) mu nu /\
  Lattice.Si L (coords (site_add x (site_scale (Lattice.n L) t)) ++ [mu]) =
    Lattice.Si L (coords x ++ [mu]).
Proof.
  intros HL _ _. split.
  - destruct (valid_direction_dec mu) as [Hmu|Hmu];
      [destruct (valid_direction_dec nu) as [Hnu|Hnu]|].
    + rewrite !P_spec by assumption. f_equal. apply plaquette_periodic.
    + rewrite !P_invalid by tauto. reflexivity.
    + rewrite !P_invalid by tauto. reflexivity.
  - destruct (valid_direction_dec mu) as [Hmu|Hmu].
    + rewrite !Si_spec by assumption. f_equal. f_equal.
      apply Rsum_ext. intros p _.
      rewrite site_sub_shift, !plaquette_periodic. reflexivity.
    + rewrite !Si_invalid by assumption. reflexivity.
Qed.

Lemma P_Si_periodic_witness :
  let L := tie_lattice in
  Lattice.P L (coords (site_add (1, 0, 1, 1) (site_scale (Lattice.n L) (2, -3, 0, 1)))) 1 3 =
    Lattice.P L (coords (1, 0, 1, 1)) 1 3 /\
  Lattice.Si L (coords (site_add (1, 0, 1, 1) (site_scale (Lattice.n L) (2, -3, 0, 1))) ++ [1]) =
    Lattice.Si L (coords (1, 0, 1, 1) ++ [1]).
Proof.
  apply (P_Si_periodic tie_lattice (1, 0, 1, 1) (2, -3, 0, 1) 1 3).
  - apply cold_start_well_formed. lia.
  - cbv [int_steps INT_MIN INT_MAX]. lia.
  - cbv [int_steps INT_MIN INT_MAX site_add site_scale]. cbn. lia.
Defined.

(** ** Bounds for unitary fields *)

Lemma U_good (good : Matrix3cd -> Prop) (L : Lattice.t) (x : site) (m : Z) :
  well_formed L -> all_links good (Lattice.links L) ->
  in_lattice (Lattice.n L) x -> valid_direction m -> good (U L x m).
Proof.
  intros HL Hall Hx Hm. destruct x as [[[x0 x1] x2] x3].
  apply (Hall x0 x1 x2 x3 m). apply links_at_U; assumption.
Qed.

Lemma plaquette_bound (L : Lattice.t) (x : site) (mu nu : Z) :
  well_formed L -> all_links unitary (Lattice.links L) ->
  valid_direction mu -> valid_direction nu ->
  (-1 <= plaquette L x mu nu <= 1)%R.
Proof.
  intros HL Hall Hmu Hnu. pose proof HL as [Hn _]. unfold plaquette.
  apply plaquette_product_bound;
    apply U_good; try assumption; apply wrap_in_lattice; assumption.
Qed.

Lemma Rsum_bound {A : Type} (l : list A) (f : A -> R) (c : R) :
  (forall a, In a l -> (- c <= f a <= c)%R) ->
  (- (INR (length l) * c) <= Rsum l f <= INR (length l) * c)%R.
Proof.
  unfold Rsum. induction l as [|a l IH]; intros H.
  - cbn. lra.
  - cbn [fold_right]. change (length (a :: l)) with (S (length l)).
    rewrite S_INR.
    pose proof (H a (or_introl eq_refl)).
    assert (forall b, In b l -> (- c <= f b <= c)%R) as H' by (intros; apply H; right; assumption).
    specialize (IH H'). lra.
Qed.


Lemma all_links_cold (good : Matrix3cd -> Prop) (ext : Z) :
  good Identity -> all_links good (cold_links ext).
Proof.
  intros Hg i j k l m u. unfold links_at, cold_links. intros H.
  repeat match type of H with
         | bind (vec_get (repeat ?a ?N) ?i) _ = _ =>
             let E := fresh "E" in
             destruct (vec_get (repeat a N) i) as [y| |] eqn:E; try discriminate;
             apply vec_get_Ok in E; destruct E as [_ E];
             apply nth_error_In, repeat_spec in E; subst y; cbn [bind] in H
         end.
  apply vec_get_Ok in H. destruct H as [_ H].
  apply nth_error_In, repeat_spec in H. subst u. assumption.
Qed.


(** X5.  When every stored link is unitary, the average plaquette lies in
    [[-1, 1]]. *)
Theorem Pav_bounded (L : Lattice.t) :
  well_formed L -> all_links unitary (Lattice.links L) ->
  exists v : R, Lattice.Pav L = Ok (v, L) /\ (-1 <= v <= 1)%R.
Proof.
  intros HL Hall. pose proof HL as [Hn _].
  eexists. split; [apply Pav_spec; assumption|].
  pose proof (Rsum_bound (all_sites (Lattice.n L))
    (fun x => Rsum plane_pairs (fun p => plaquette L x (fst p) (snd p))) 6) as Hb.
  assert (forall x, In x (all_sites (Lattice.n L)) ->
            (- (6) <= Rsum plane_pairs (fun p => plaquette L x (fst p) (snd p)) <= 6)%R)
    as Hterm.
  { intros x _.
    pose proof (Rsum_bound plane_pairs (fun p => plaquette L x (fst p) (snd p)) 1) as Hp.
    change (INR (length plane_pairs)) with (INR 6) in Hp.
    replace (INR 6) with 6%R in Hp by (cbn; lra).
    assert (forall p, In p plane_pairs ->
              (- (1) <= plaquette L x (fst p) (snd p) <= 1)%R) as Hpl.
    { intros p Hp'. apply plaquette_bound; try assumption;
        cbn in Hp'; unfold valid_direction;
        destruct Hp' as [<- | [<- | [<- | [<- | [<- | [<- | []]]]]]]; cbn; lia. }
    specialize (Hp Hpl). lra. }
  specialize (Hb Hterm).
  assert (INR (length (all_sites (Lattice.n L))) = (IZR (Lattice.n L) ^ 4)%R) as Hlen.
  { rewrite INR_IZR_INZ, length_all_sites by lia.
    symmetry. apply (pow_IZR (Lattice.n L) 4). }
  rewrite Hlen in Hb.
  assert (0 < IZR (Lattice.n L) ^ 4)%R as Hpos
    by (apply pow_lt; apply IZR_lt; assumption).
  set (N := (IZR (Lattice.n L) ^ 4)%R) in *.
  set (S := Rsum _ _) in *.
  split.
  - apply Rmult_le_reg_r with (N * 6)%R; [lra|].
    unfold Rdiv. rewrite Rmult_assoc, Rinv_l by lra. lra.
  - apply Rmult_le_reg_r with (N * 6)%R; [lra|].
    unfold Rdiv. rewrite Rmult_assoc, Rinv_l by lra. lra.
Qed.

Lemma Pav_bounded_witness :
  exists v : R, Lattice.Pav tie_lattice = Ok (v, tie_lattice) /\ (-1 <= v <= 1)%R.
Proof.
  apply (Pav_bounded tie_lattice).
  - apply cold_start_well_formed. lia.
  - apply all_links_cold. apply unitary_Identity.
Defined.

(** ** Invariants of [update_link] *)

Ltac complex_ring :=
  matrix_entries;
  cbv [determinant mmul adjoint Identity trace Cdot3 Cadd Cmul Cconj Czero Cone
       re im m00 m01 m02 m10 m11 m12 m20 m21 m22];
  f_equal; ring.

Lemma determinant_mmul (A B : Matrix3cd) :
  determinant (mmul A B) = Cmul (determinant A) (determinant B).
Proof. complex_ring. Qed.

Lemma Cmul_Cone : Cmul Cone Cone = Cone.
Proof. complex_ring. Qed.


Lemma special_unitary_mmul (A B : Matrix3cd) :
  special_unitary A -> special_unitary B -> special_unitary (mmul A B).
Proof.
  intros [HA dA] [HB dB]. split; [apply unitary_mmul; assumption|].
  rewrite determinant_mmul, dA, dB. apply Cmul_Cone.
Qed.

Lemma bind_Ok {A B : Type} (o : outcome A) (f : A -> outcome B) (b : B) :
  bind o f = Ok b -> exists a, o = Ok a /\ f a = Ok b.
Proof. destruct o as [a| |]; cbn [bind]; intros H; try discriminate; eauto. Qed.

Lemma vec_get_In {A : Type} (a : list A) (i : Z) (x : A) :
  vec_get a i = Ok x -> In x a.
Proof.
  intros H. apply vec_get_Ok in H. destruct H as [_ H].
  eapply nth_error_In; eassumption.
Qed.

(** Whatever the arguments, a call that returns has multiplied one pool
    matrix into one link, or has put that link back. *)
Lemma update_link_inv (L L' : Lattice.t) (g g' : libc_rand) (link : list Z) :
  Lattice.update_link L g link = Ok (L', g') ->
  exists (l0 l1 l2 l3 l4 : Z) (u X : Matrix3cd) (ls : link_store),
    links_at (Lattice.links L) l0 l1 l2 l3 l4 = Ok u /\
    In X (Lattice.randSU3s L) /\
    links_upd (Lattice.links L) l0 l1 l2 l3 l4 (fun v => Ok (mmul v X)) = Ok ls /\
    (L' = Lattice.with_links L ls \/ L' = L).
Proof.
  unfold Lattice.update_link. intros H.
  apply bind_Ok in H. destruct H as (S_old & _ & H).
  apply bind_Ok in H. destruct H as (l0 & _ & H).
  apply bind_Ok in H. destruct H as (l1 & _ & H).
  apply bind_Ok in H. destruct H as (l2 & _ & H).
  apply bind_Ok in H. destruct H as (l3 & _ & H).
  apply bind_Ok in H. destruct H as (l4 & _ & H).
  apply bind_Ok in H. destruct H as (u & Hu & H).
  destruct (rand g) as [r g1].
  destruct (Z.of_nat (length (Lattice.randSU3s L)) =? 0); [discriminate|].
  apply bind_Ok in H. destruct H as (X & HX & H).
  apply bind_Ok in H. destruct H as (ls & Hls & H).
  apply bind_Ok in H. destruct H as (S_new & _ & H).
  exists l0, l1, l2, l3, l4, u, X, ls.
  split; [exact Hu|]. split; [eapply vec_get_In; exact HX|]. split; [exact Hls|].
  destruct (Rlt_dec 0 (S_new - S_old)) as [_|_].
  - destruct (rand g1) as [r2 g2].
    destruct (Rlt_dec _ _) as [_|_].
    + apply bind_Ok in H. destruct H as (ls2 & Hls2 & H).
      injection H as <- _. right.
      cbn [Lattice.with_links Lattice.links] in Hls2.
      rewrite (links_upd_undo _ _ _ _ _ _ _ _ u Hls Hu) in Hls2.
      injection Hls2 as <-. destruct L; reflexivity.
    + injection H as <- _. left. reflexivity.
  - injection H as <- _. left. reflexivity.
Qed.

(** X6.  A call of [update_link] that returns leaves the link store in the
    shape the constructor gave it ([n^4] sites of 4 links), whatever the
    [link] array was. *)
Theorem update_link_keeps_shape (L L' : Lattice.t) (g g' : libc_rand)
    (link : list Z) :
  well_formed L ->
  Lattice.update_link L g link = Ok (L', g') ->
  well_formed L'.
Proof.
  intros HL H. apply update_link_inv in H.
  destruct H as (l0 & l1 & l2 & l3 & l4 & u & X & ls & _ & _ & Hls & [-> | ->]).
  - eapply links_upd_well_formed; eassumption.
  - assumption.
Qed.

Lemma update_link_keeps_shape_witness :
  exists (L' : Lattice.t) (g' : libc_rand),
    Lattice.update_link tie_lattice tie_rand [0; 0; 0; 0; 0] = Ok (L', g') /\
    well_formed L'.
Proof.
  destruct tie_lattice_returns as (L' & g' & Hrun).
  exists L', g'. split; [exact Hrun|].
  apply (update_link_keeps_shape tie_lattice L' tie_rand g' [0; 0; 0; 0; 0]).
  - apply cold_start_well_formed. lia.
  - exact Hrun.
Defined.

(** X7.  [update_link] keeps the gauge field on SU(3): when every stored
    link and every pool matrix is special-unitary, so is every stored link
    after a call that returns, whether the trial was kept or undone. *)
Theorem update_link_keeps_SU3 (L L' : Lattice.t) (g g' : libc_rand)
    (link : list Z) :
  all_links special_unitary (Lattice.links L) ->
  Forall special_unitary (Lattice.randSU3s L) ->
  Lattice.update_link L g link = Ok (L', g') ->
  all_links special_unitary (Lattice.links L') /\
  Lattice.randSU3s L' = Lattice.randSU3s L.
Proof.
  intros Hall Hpool H. apply update_link_inv in H.
  destruct H as (l0 & l1 & l2 & l3 & l4 & u & X & ls & Hu & HX & Hls & [-> | ->]);
    [|split; [assumption | reflexivity]].
  split; [|reflexivity]. cbn [Lattice.with_links Lattice.links].
  intros i j k l m v Hv.
  destruct (links_upd_read _ _ _ _ _ _ _ _ Hls) as (u0 & u0' & Hu0 & Hf & Hread).
  rewrite Hu in Hu0. injection Hu0 as <-. injection Hf as <-.
  assert ({(i, j, k, l, m) = (l0, l1, l2, l3, l4)} +
          {(i, j, k, l, m) <> (l0, l1, l2, l3, l4)}) as [Heq | Hne]
    by (repeat decide equality).
  - injection Heq as -> -> -> -> ->. rewrite Hread in Hv. injection Hv as <-.
    apply special_unitary_mmul.
    + eapply Hall; exact Hu.
    + rewrite Forall_forall in Hpool. apply Hpool. exact HX.
  - rewrite (links_upd_frame _ _ _ _ _ _ _ _ _ _ _ _ _ Hls Hne) in Hv.
    eapply Hall; exact Hv.
Qed.

Lemma special_unitary_tie_pool : Forall special_unitary tie_pool.
Proof.
  unfold tie_pool. apply Forall_forall. intros X HX.
  apply in_concat in HX. destruct HX as (l & Hl & HX).
  apply repeat_spec in Hl. subst l.
  destruct HX as [<- | [<- | []]].
  - apply special_unitary_flip23.
  - rewrite adjoint_flip23. apply special_unitary_flip23.
Qed.

Lemma update_link_keeps_SU3_witness :
  exists (L' : Lattice.t) (g' : libc_rand),
    Lattice.update_link tie_lattice tie_rand [0; 0; 0; 0; 0] = Ok (L', g') /\
    all_links special_unitary (Lattice.links L') /\
    Lattice.randSU3s L' = Lattice.randSU3s tie_lattice.
Proof.
  destruct tie_lattice_returns as (L' & g' & Hrun).
  exists L', g'. split; [exact Hrun|].
  apply (update_link_keeps_SU3 tie_lattice L' tie_rand g' [0; 0; 0; 0; 0]).
  - apply all_links_cold. apply special_unitary_Identity.
  - apply special_unitary_tie_pool.
  - exact Hrun.
Defined.

Lemma in_lattice_dec (ext : Z) (x : site) :
  {in_lattice ext x} + {~ in_lattice ext x}.
Proof.
  destruct x as [[[x0 x1] x2] x3]. unfold in_lattice.
  destruct (Z_le_dec 0 x0), (Z_lt_dec x0 ext), (Z_le_dec 0 x1), (Z_lt_dec x1 ext),
           (Z_le_dec 0 x2), (Z_lt_dec x2 ext), (Z_le_dec 0 x3), (Z_lt_dec x3 ext);
    (left; lia) || (right; lia).
Qed.

Lemma vec_get_outside {A : Type} (a : list A) (i : Z) :
  ~ 0 <= i < Z.of_nat (length a) -> vec_get a i = Undefined.
Proof.
  intros Hi. destruct (vec_get a i) as [x| |] eqn:E; try reflexivity.
  - apply vec_get_bound in E. contradiction.
  - exfalso. exact (never_raises_vec_get a i e E).
Qed.

(** The raw index of [update_link] is not wrapped. *)
Lemma links_at_outside (L : Lattice.t) (x0 x1 x2 x3 m : Z) :
  well_formed L -> ~ in_lattice (Lattice.n L) (x0, x1, x2, x3) ->
  links_at (Lattice.links L) x0 x1 x2 x3 m = Undefined.
Proof.
  intros [_ H] Hx. unfold links_at, in_lattice in *.
  destruct (Z_le_dec 0 x0) as [L0|]; [destruct (Z_lt_dec x0 (Lattice.n L)) as [U0|]|];
    try (rewrite vec_get_outside by (destruct H as [-> _]; lia); reflexivity).
  destruct (sized_get x0 H (conj L0 U0)) as (a & -> & Ha). cbn [bind].
  destruct (Z_le_dec 0 x1) as [L1|]; [destruct (Z_lt_dec x1 (Lattice.n L)) as [U1|]|];
    try (rewrite vec_get_outside by (destruct Ha as [-> _]; lia); reflexivity).
  destruct (sized_get x1 Ha (conj L1 U1)) as (b & -> & Hb). cbn [bind].
  destruct (Z_le_dec 0 x2) as [L2|]; [destruct (Z_lt_dec x2 (Lattice.n L)) as [U2|]|];
    try (rewrite vec_get_outside by (destruct Hb as [-> _]; lia); reflexivity).
  destruct (sized_get x2 Hb (conj L2 U2)) as (c & -> & Hc). cbn [bind].
  rewrite vec_get_outside by (destruct Hc as [-> _]; lia). reflexivity.
Qed.

Lemma pool_dec (L : Lattice.t) :
  {Lattice.randSU3s L = []} + {Lattice.randSU3s L <> []}.
Proof. destruct (Lattice.randSU3s L); [left; reflexivity | right; discriminate]. Qed.

(** X8.  On a well-formed field and with a conforming [rand()],
    [update_link(x, d)] returns exactly when the site [x] lies inside the
    lattice, [d] is in 0..3 and the pool is not empty.  Unlike [P] and [Si]
    it does not wrap the site: outside the lattice it indexes [links] out
    of bounds, and with an empty pool it computes [rand() % 0]. *)
Theorem update_link_returns_iff (L : Lattice.t) (g : libc_rand) (x : site) (d : Z) :
  well_formed L -> rand_ok g ->
  ((exists (L' : Lattice.t) (g' : libc_rand),
      Lattice.update_link L g (coords x ++ [d]) = Ok (L', g')) <->
   (in_lattice (Lattice.n L) x /\ valid_direction d /\ Lattice.randSU3s L <> [])) /\
  (~ (in_lattice (Lattice.n L) x /\ valid_direction d /\ Lattice.randSU3s L <> []) ->
   Lattice.update_link L g (coords x ++ [d]) = Undefined).
Proof.
  intros HL Hg.
  assert (~ (in_lattice (Lattice.n L) x /\ valid_direction d /\
             Lattice.randSU3s L <> []) ->
          Lattice.update_link L g (coords x ++ [d]) = Undefined) as Hundef.
  { intros Hno. unfold Lattice.update_link.
    destruct (valid_direction_dec d) as [Hd|Hd];
      [|rewrite Si_invalid by assumption; reflexivity].
    rewrite Si_spec by assumption. cbn [bind].
    pose proof (address_reads x d) as Hreads.
    destruct x as [[[x0 x1] x2] x3]. destruct Hreads as (E0 & E1 & E2 & E3 & E4).
    rewrite E0, E1, E2, E3, E4. cbn [bind].
    destruct (in_lattice_dec (Lattice.n L) (x0, x1, x2, x3)) as [Hx|Hx];
      [|rewrite links_at_outside by assumption; reflexivity].
    rewrite (links_at_U L x0 x1 x2 x3 d HL Hx Hd). cbn [bind].
    destruct (rand g) as [r g1].
    destruct (pool_dec L) as [Hp|Hp]; [rewrite Hp; reflexivity|].
    exfalso. apply Hno. split; [exact Hx|]. split; [exact Hd | exact Hp]. }
  split; [|exact Hundef].
  split.
  - intros (L' & g' & Hrun).
    destruct (in_lattice_dec (Lattice.n L) x) as [Hx|Hx];
      [destruct (valid_direction_dec d) as [Hd|Hd];
       [destruct (pool_dec L) as [Hp|Hp]|]|];
      try (rewrite Hundef in Hrun by tauto; discriminate).
    split; [exact Hx|]. split; [exact Hd | exact Hp].
  - intros (Hx & Hd & Hpool).
    destruct (update_link_trial L g x d HL Hx Hd Hpool Hg)
      as (u & X & ls & S_old & S_new & _ & _ & _ & _ & _ & _ & _ & Hrun).
    cbv zeta in Hrun. rewrite second_draw in Hrun.
    destruct (Rlt_dec _ _) in Hrun; [destruct (Rlt_dec _ _) in Hrun|]; eauto.
Qed.

Lemma update_link_returns_iff_witness :
  ((exists (L' : Lattice.t) (g' : libc_rand),
      Lattice.update_link tie_lattice tie_rand (coords (0, 2, 0, 0) ++ [1]) =
      Ok (L', g')) <->
   (in_lattice (Lattice.n tie_lattice) (0, 2, 0, 0) /\ valid_direction 1 /\
    Lattice.randSU3s tie_lattice <> [])) /\
  (~ (in_lattice (Lattice.n tie_lattice) (0, 2, 0, 0) /\ valid_direction 1 /\
      Lattice.randSU3s tie_lattice <> []) ->
   Lattice.update_link tie_lattice tie_rand (coords (0, 2, 0, 0) ++ [1]) = Undefined).
Proof.
  apply (update_link_returns_iff tie_lattice tie_rand (0, 2, 0, 0) 1).
  - apply cold_start_well_formed. lia.
  - apply tie_rand_ok.
Defined.

(** ** Loops over the sites *)

Lemma for_range_run_list {St : Type} (body : Z -> St -> outcome St) (count : nat) :
  forall (a : nat) (s : St),
  for_range (Z.of_nat a) count body s =
  run_list body (map Z.of_nat (seq a count)) s.
Proof.
  induction count as [|count IH]; intros a s; [reflexivity|].
  cbn [for_range seq map run_list].
  destruct (body (Z.of_nat a) s) as [s'| |]; cbn [bind]; try reflexivity.
  replace (Z.of_nat a + 1) with (Z.of_nat (S a)) by lia. apply IH.
Qed.

Lemma for_range_range {St : Type} (body : Z -> St -> outcome St) (k : Z) (s : St) :
  for_range 0 (Z.to_nat k) body s = run_list body (range k) s.
Proof. apply (for_range_run_list body (Z.to_nat k) 0). Qed.

Lemma run_list_ext {St A : Type} (f g : A -> St -> outcome St) (l : list A) (s : St) :
  (forall a s', In a l -> f a s' = g a s') -> run_list f l s = run_list g l s.
Proof.
  revert s. induction l as [|a l IH]; intros s H; [reflexivity|].
  cbn [run_list]. rewrite (H a s) by (left; reflexivity).
  destruct (g a s) as [s'| |]; cbn [bind]; try reflexivity.
  apply IH. intros b s'' Hb. apply H. right. assumption.
Qed.

Lemma run_list_app {St A : Type} (f : A -> St -> outcome St) (l1 l2 : list A) (s : St) :
  run_list f (l1 ++ l2) s = (s' <- run_list f l1 s ;; run_list f l2 s').
Proof.
  revert s. induction l1 as [|a l1 IH]; intros s; [reflexivity|].
  cbn [app run_list]. destruct (f a s) as [s'| |]; cbn [bind]; try reflexivity.
  apply IH.
Qed.

Lemma run_list_flat_map {St A B : Type} (f : B -> St -> outcome St)
    (h : A -> list B) (l : list A) (s : St) :
  run_list f (flat_map h l) s = run_list (fun a => run_list f (h a)) l s.
Proof.
  revert s. induction l as [|a l IH]; intros s; [reflexivity|].
  cbn [flat_map run_list]. rewrite run_list_app.
  destruct (run_list f (h a) s) as [s'| |]; cbn [bind]; try reflexivity.
  apply IH.
Qed.

Lemma run_list_map {St A B : Type} (f : B -> St -> outcome St) (h : A -> B)
    (l : list A) (s : St) :
  run_list f (map h l) s = run_list (fun a => f (h a)) l s.
Proof.
  revert s. induction l as [|a l IH]; intros s; [reflexivity|].
  cbn [map run_list]. destruct (f (h a) s) as [s'| |]; cbn [bind]; try reflexivity.
  apply IH.
Qed.

(** The four nested site loops visit [all_sites] in order. *)
Lemma site_loops {St : Type} (body : Z -> Z -> Z -> Z -> St -> outcome St)
    (ext : Z) (s : St) :
  for_range 0 (Z.to_nat ext) (fun i =>
  for_range 0 (Z.to_nat ext) (fun j =>
  for_range 0 (Z.to_nat ext) (fun k =>
  for_range 0 (Z.to_nat ext) (fun l => body i j k l)))) s =
  run_list (fun x => let '(i, j, k, l) := x in body i j k l) (all_sites ext) s.
Proof.
  unfold all_sites. rewrite run_list_flat_map, for_range_range.
  apply run_list_ext. intros i s1 _.
  rewrite run_list_flat_map, for_range_range.
  apply run_list_ext. intros j s2 _.
  rewrite run_list_flat_map, for_range_range.
  apply run_list_ext. intros k s3 _.
  rewrite run_list_map, for_range_range. reflexivity.
Qed.

(** A loop that establishes an invariant of the elements handled so far. *)
Lemma run_list_invariant {St A : Type} (Inv : list A -> St -> Prop)
    (body : A -> St -> outcome St) (l : list A) :
  (forall pre a s, In a l -> Inv pre s ->
     exists s', body a s = Ok s' /\ Inv (pre ++ [a]) s') ->
  forall pre s, Inv pre s ->
  exists s', run_list body l s = Ok s' /\ Inv (pre ++ l) s'.
Proof.
  induction l as [|a l IH]; intros Hstep pre s Hinv.
  - exists s. rewrite app_nil_r. auto.
  - destruct (Hstep pre a s (or_introl eq_refl) Hinv) as (s1 & Hs1 & Hinv1).
    destruct (IH (fun pre' b s' Hb => Hstep pre' b s' (or_intror Hb))
                 (pre ++ [a]) s1 Hinv1) as (s2 & Hs2 & Hinv2).
    exists s2. cbn [run_list]. rewrite Hs1. cbn [bind].
    rewrite <- app_assoc in Hinv2. auto.
Qed.

(** ** The order of [printL] *)

Lemma printL_site (L : Lattice.t) (x : site) (cout : list Matrix3cd) :
  well_formed L -> in_lattice (Lattice.n L) x ->
  (let '(i, j, k, l) := x in
   for_range 0 4 (fun m cout =>
     u <- links_at (Lattice.links L) i j k l m ;; Ok (cout ++ [u])) cout) =
  Ok (cout ++ map (U L x) (range 4)).
Proof.
  intros HL Hx. destruct x as [[[i j] k] l]. rewrite for_range_4. cbv beta.
  rewrite (links_at_U L i j k l 0), (links_at_U L i j k l 1),
          (links_at_U L i j k l 2), (links_at_U L i j k l 3)
    by (try assumption; unfold valid_direction; lia).
  cbn [bind]. rewrite <- !app_assoc. reflexivity.
Qed.

Lemma printL_spec (L : Lattice.t) (cout : list Matrix3cd) :
  well_formed L ->
  printL L cout =
  Ok (cout ++ flat_map (fun x => map (U L x) (range 4)) (all_sites (Lattice.n L))).
Proof.
  intros HL. unfold printL. rewrite site_loops.
  destruct (run_list_invariant
              (fun pre out => out = cout ++ flat_map (fun x => map (U L x) (range 4)) pre)
              (fun x : site => let '(i, j, k, l) := x in
                 for_range 0 4 (fun m cout =>
                   u <- links_at (Lattice.links L) i j k l m ;; Ok (cout ++ [u])))
              (all_sites (Lattice.n L))) with (pre := @nil site) (s := cout)
    as (out & Hout & ->).
  - intros pre x out Hx ->. apply in_all_sites in Hx.
    eexists. split.
    { pose proof (printL_site L x
        (cout ++ flat_map (fun y => map (U L y) (range 4)) pre) HL Hx) as H.
      destruct x as [[[i j] k] l]. exact H. }
    rewrite flat_map_app. cbn [flat_map]. rewrite app_nil_r, app_assoc. reflexivity.
  - cbn. rewrite app_nil_r. reflexivity.
  - exact Hout.
Qed.

(** ** The position of a site in the loops *)

Lemma nth_error_flat_map_block {A B : Type} (h : A -> list B) (l : list A)
    (c p q : nat) :
  (forall a, length (h a) = c) -> (q < c)%nat ->
  nth_error (flat_map h l) (p * c + q) =
  match nth_error l p with
  | Some a => nth_error (h a) q
  | None => None
  end.
Proof.
  intros Hlen Hq. revert p. induction l as [|a l IH]; intros p.
  - cbn [flat_map]. destruct p; destruct (_ + _)%nat; reflexivity.
  - cbn [flat_map]. destruct p as [|p].
    + cbn [Nat.mul Nat.add nth_error]. apply nth_error_app1. rewrite Hlen. assumption.
    + cbn [nth_error]. rewrite nth_error_app2 by (rewrite Hlen; lia).
      rewrite Hlen. replace (S p * c + q - c)%nat with (p * c + q)%nat by lia.
      apply IH.
Qed.

Lemma length_range (k : Z) : length (range k) = Z.to_nat k.
Proof. unfold range. rewrite length_map, length_seq. reflexivity. Qed.

Lemma nth_error_range (k i : Z) :
  0 <= i < k -> nth_error (range k) (Z.to_nat i) = Some i.
Proof.
  intros Hi. unfold range. rewrite nth_error_map, nth_error_seq.
  destruct (Nat.ltb_spec (Z.to_nat i) (Z.to_nat k)); [|lia].
  cbn. f_equal. lia.
Qed.

Lemma index_position (L : Lattice.t) (i j k l : Z) :
  in_lattice (Lattice.n L) (i, j, k, l) ->
  Z.to_nat (Lattice.index L i j k l) =
  (Z.to_nat i * (Z.to_nat (Lattice.n L) * (Z.to_nat (Lattice.n L) * Z.to_nat (Lattice.n L))) +
   (Z.to_nat j * (Z.to_nat (Lattice.n L) * Z.to_nat (Lattice.n L)) +
    (Z.to_nat k * Z.to_nat (Lattice.n L) + Z.to_nat l)))%nat.
Proof.
  intros (Hi & Hj & Hk & Hl). unfold Lattice.index.
  assert (0 <= Lattice.n L) as Hn by lia.
  assert (0 <= Lattice.n L * i) as H1 by nia.
  assert (0 <= Lattice.n L * (j + Lattice.n L * i)) as H2 by nia.
  assert (0 <= Lattice.n L * (k + Lattice.n L * (j + Lattice.n L * i))) as H3 by nia.
  apply Nat2Z.inj.
  rewrite !Nat2Z.inj_add, !Nat2Z.inj_mul, !Z2Nat.id by lia. ring.
Qed.

Lemma block_bound (N a b : nat) : (a < N)%nat -> (b < N)%nat -> (a * N + b < N * N)%nat.
Proof. intros. nia. Qed.

(** The loops reach the site [x] at step [index x]. *)
Lemma nth_error_all_sites (L : Lattice.t) (x : site) :
  in_lattice (Lattice.n L) x ->
  nth_error (all_sites (Lattice.n L))
            (let '(i, j, k, l) := x in Z.to_nat (Lattice.index L i j k l)) = Some x.
Proof.
  destruct x as [[[i j] k] l]. intros Hx. rewrite (index_position L i j k l Hx).
  destruct Hx as (Hi & Hj & Hk & Hl). set (N := Z.to_nat (Lattice.n L)).
  assert (Z.to_nat i < N /\ Z.to_nat j < N /\ Z.to_nat k < N /\ Z.to_nat l < N)%nat
    as (Ni & Nj & Nk & Nl) by (subst N; lia).
  unfold all_sites.
  rewrite (nth_error_flat_map_block _ _ (N * (N * N))).
  - rewrite nth_error_range by assumption.
    rewrite (nth_error_flat_map_block _ _ (N * N)).
    + rewrite nth_error_range by assumption.
      rewrite (nth_error_flat_map_block _ _ N).
      * rewrite nth_error_range by assumption.
        rewrite nth_error_map, nth_error_range by assumption. reflexivity.
      * intros c. rewrite length_map. apply length_range.
      * assumption.
    + intros b. rewrite (length_flat_map_const _ _ N).
      * rewrite length_range. reflexivity.
      * intros c. rewrite length_map. apply length_range.
    + pose proof (block_bound N _ _ Nk Nl). lia.
  - intros a. rewrite (length_flat_map_const _ _ (N * N)).
    + rewrite length_range. reflexivity.
    + intros b. rewrite (length_flat_map_const _ _ N).
      * rewrite length_range. reflexivity.
      * intros c. rewrite length_map. apply length_range.
  - pose proof (block_bound N _ _ Nk Nl). nia.
Qed.

(** X9.  On a well-formed field [printL()] writes the [4 n^4] link
    matrices after what the stream held, in the order of the coordinates
    and then the direction: the link [(x, m)] is matrix number
    [4 * index(x) + m], with
    [index(i,j,k,l) = l + n*(k + n*(j + n*i))]. *)
Theorem printL_order (L : Lattice.t) (cout : list Matrix3cd) :
  well_formed L ->
  exists out : list Matrix3cd,
    printL L cout = Ok (cout ++ out) /\
    Z.of_nat (length out) = 4 * Lattice.n L ^ 4 /\
    forall (i j k l m : Z),
      in_lattice (Lattice.n L) (i, j, k, l) -> valid_direction m ->
      exists u : Matrix3cd,
        links_at (Lattice.links L) i j k l m = Ok u /\
        nth_error out (Z.to_nat (4 * Lattice.index L i j k l + m)) = Some u.
Proof.
  intros HL. pose proof HL as [Hn _].
  exists (flat_map (fun x => map (U L x) (range 4)) (all_sites (Lattice.n L))).
  split; [apply printL_spec; assumption|]. split.
  - rewrite (length_flat_map_const _ _ 4)
      by (intros x; rewrite length_map; apply length_range).
    pose proof (length_all_sites (Lattice.n L)). lia.
  - intros i j k l m Hx Hm. exists (U L (i, j, k, l) m).
    split; [apply links_at_U; assumption|].
    assert (0 <= Lattice.index L i j k l) as Hidx
      by (unfold Lattice.index; destruct Hx as (? & ? & ? & ?); nia).
    replace (Z.to_nat (4 * Lattice.index L i j k l + m))
      with (Z.to_nat (Lattice.index L i j k l) * 4 + Z.to_nat m)%nat
      by (unfold valid_direction in Hm; lia).
    rewrite (nth_error_flat_map_block _ _ 4)
      by (try (intros x; rewrite length_map; apply length_range);
          unfold valid_direction in Hm; lia).
    rewrite (nth_error_all_sites L (i, j, k, l) Hx).
    rewrite nth_error_map, nth_error_range by (unfold valid_direction in Hm; lia).
    reflexivity.
Qed.

Lemma printL_order_witness :
  exists out : list Matrix3cd,
    printL tie_lattice [flip23] = Ok ([flip23] ++ out) /\
    Z.of_nat (length out) = 4 * Lattice.n tie_lattice ^ 4 /\
    forall (i j k l m : Z),
      in_lattice (Lattice.n tie_lattice) (i, j, k, l) -> valid_direction m ->
      exists u : Matrix3cd,
        links_at (Lattice.links tie_lattice) i j k l m = Ok u /\
        nth_error out (Z.to_nat (4 * Lattice.index tie_lattice i j k l + m)) = Some u.
Proof.
  apply (printL_order tie_lattice [flip23]).
  apply cold_start_well_formed. lia.
Defined.

(** ** The sites in index order *)

Lemma range_succ (k : Z) : 0 <= k -> range (k + 1) = range k ++ [k].
Proof.
  intros Hk. unfold range.
  replace (Z.to_nat (k + 1)) with (Z.to_nat k + 1)%nat by lia.
  rewrite seq_app, map_app. cbn [seq map Nat.add]. f_equal. f_equal. lia.
Qed.

Lemma range_add (a b : Z) :
  0 <= a -> 0 <= b -> range (a + b) = range a ++ map (fun t => t + a) (range b).
Proof.
  intros Ha Hb. unfold range.
  replace (Z.to_nat (a + b)) with (Z.to_nat a + Z.to_nat b)%nat by lia.
  rewrite seq_app, map_app. f_equal.
  generalize (Z.to_nat b) as c. intros c.
  generalize 0%nat as s. intros s. revert s.
  induction c as [|c IH]; intros s; [reflexivity|].
  cbn [seq map]. f_equal; [lia | apply (IH (S s))].
Qed.

Lemma map_flat_map {A B C : Type} (f : B -> C) (h : A -> list B) (l : list A) :
  map f (flat_map h l) = flat_map (fun a => map f (h a)) l.
Proof.
  induction l as [|a l IH]; [reflexivity|].
  cbn [flat_map]. rewrite map_app, IH. reflexivity.
Qed.

Lemma flat_map_ext_in {A B : Type} (f g : A -> list B) (l : list A) :
  (forall a, In a l -> f a = g a) -> flat_map f l = flat_map g l.
Proof.
  induction l as [|a l IH]; intros H; [reflexivity|].
  cbn [flat_map]. rewrite (H a) by (left; reflexivity). f_equal.
  apply IH. intros b Hb. apply H. right. assumption.
Qed.

(** [m] consecutive blocks of [n] consecutive numbers are [n * m]
    consecutive numbers. *)
Lemma range_blocks (n m off : Z) :
  0 <= n -> 0 <= m ->
  flat_map (fun a => map (fun b => b + n * a + off) (range n)) (range m) =
  map (fun t => t + off) (range (n * m)).
Proof.
  intros Hn Hm. revert m Hm. apply natlike_ind.
  - rewrite Z.mul_0_r. reflexivity.
  - intros m Hm IH. unfold Z.succ.
    rewrite range_succ, flat_map_app, IH by assumption.
    replace (n * (m + 1)) with (n * m + n) by ring.
    rewrite range_add by nia. rewrite map_app, map_map.
    cbn [flat_map]. rewrite app_nil_r. reflexivity.
Qed.

Lemma index_all_sites (L : Lattice.t) :
  0 <= Lattice.n L ->
  map (fun x : site => let '(i, j, k, l) := x in Lattice.index L i j k l)
      (all_sites (Lattice.n L)) =
  range (Lattice.n L ^ 4).
Proof.
  intros Hn. unfold all_sites, Lattice.index. set (n := Lattice.n L) in *.
  rewrite map_flat_map.
  rewrite (flat_map_ext_in _
             (fun i => map (fun t => t + (n * n * n) * i + 0) (range (n * n * n)))).
  - rewrite range_blocks by nia.
    replace (n * n * n * n) with (n ^ 4) by ring.
    rewrite <- (map_id (range (n ^ 4))) at 2. apply map_ext. intros t. lia.
  - intros i _. rewrite map_flat_map.
    rewrite (flat_map_ext_in _
               (fun j => map (fun t => t + (n * n) * j + n * n * n * i) (range (n * n)))).
    + rewrite range_blocks by nia.
      replace (n * n * n) with (n * n * n)%Z by ring. apply map_ext. intros t. ring.
    + intros j _. rewrite map_flat_map.
      rewrite (flat_map_ext_in _
                 (fun k => map (fun l => l + n * k + n * n * (j + n * i)) (range n))).
      * rewrite range_blocks by nia. apply map_ext. intros t. ring.
      * intros k _. rewrite map_map. apply map_ext. intros l. ring.
Qed.

(** ** Counting the two classes *)

Lemma length_filter_map {A B : Type} (p : B -> bool) (f : A -> B) (l : list A) :
  length (filter p (map f l)) = length (filter (fun a => p (f a)) l).
Proof.
  induction l as [|a l IH]; [reflexivity|].
  cbn [map filter]. destruct (p (f a)); cbn [length]; rewrite IH; reflexivity.
Qed.

Lemma filter_ext_in {A : Type} (p q : A -> bool) (l : list A) :
  (forall a, In a l -> p a = q a) -> filter p l = filter q l.
Proof.
  induction l as [|a l IH]; intros H; [reflexivity|].
  cbn [filter]. rewrite (H a) by (left; reflexivity).
  rewrite IH by (intros b Hb; apply H; right; assumption). reflexivity.
Qed.

Lemma count_even_range (N : Z) :
  0 <= N ->
  Z.of_nat (length (filter Z.even (range N))) = (N + 1) / 2 /\
  Z.of_nat (length (filter Z.odd (range N))) = N / 2.
Proof.
  revert N. apply natlike_ind; [split; reflexivity|].
  intros N HN [IHe IHo]. unfold Z.succ.
  rewrite range_succ, !filter_app, !length_app, !Nat2Z.inj_add, IHe, IHo by assumption.
  cbn [filter]. rewrite <- Z.negb_even.
  destruct (Z.even N) eqn:E; cbn [negb length].
  - apply Z.even_spec in E. destruct E as [h ->].
    split.
    + replace (2 * h + 1 + 1) with ((h + 1) * 2) by ring.
      replace (2 * h + 1) with (1 + h * 2) by ring.
      rewrite Z_div_plus_full, Z_div_mult_full by lia. cbn. lia.
    + replace (2 * h + 1) with (1 + h * 2) by ring.
      replace (2 * h) with (h * 2) by ring.
      rewrite Z_div_plus_full, Z_div_mult_full by lia. cbn. lia.
  - rewrite <- Z.negb_odd in E. apply negb_false_iff, Z.odd_spec in E.
    destruct E as [h ->].
    split.
    + replace (2 * h + 1 + 1 + 1) with (1 + (h + 1) * 2) by ring.
      replace (2 * h + 1 + 1) with ((h + 1) * 2) by ring.
      rewrite Z_div_plus_full, Z_div_mult_full by lia. cbn. lia.
    + replace (2 * h + 1 + 1) with ((h + 1) * 2) by ring.
      replace (2 * h + 1) with (1 + h * 2) by ring.
      rewrite Z_div_plus_full, Z_div_mult_full by lia. cbn. lia.
Qed.

Lemma is_even_site_index (L : Lattice.t) (x : site) :
  0 <= Lattice.n L -> in_lattice (Lattice.n L) x ->
  is_even_site L x = Z.even (let '(i, j, k, l) := x in Lattice.index L i j k l).
Proof.
  destruct x as [[[i j] k] l]. intros Hn (Hi & Hj & Hk & Hl).
  unfold is_even_site.
  assert (0 <= Lattice.index L i j k l) as Hidx by (unfold Lattice.index; nia).
  rewrite Z.rem_mod_nonneg by lia. rewrite Zmod_even.
  destruct (Z.even _); reflexivity.
Qed.

(** Of the [n^4] sites, [ceil(n^4 / 2)] are in the even class and
    [floor(n^4 / 2)] in the odd class. *)
Lemma class_sizes (L : Lattice.t) :
  0 <= Lattice.n L ->
  Z.of_nat (length (filter (is_even_site L) (all_sites (Lattice.n L)))) =
    (Lattice.n L ^ 4 + 1) / 2 /\
  Z.of_nat (length (filter (fun x => negb (is_even_site L x))
                           (all_sites (Lattice.n L)))) =
    Lattice.n L ^ 4 / 2.
Proof.
  intros Hn.
  pose proof (count_even_range (Lattice.n L ^ 4) ltac:(lia)) as [He Ho].
  rewrite <- (index_all_sites L Hn) in He, Ho.
  rewrite length_filter_map in He, Ho.
  split.
  - rewrite <- He. f_equal. f_equal. apply filter_ext_in.
    intros x Hx. apply in_all_sites in Hx. apply is_even_site_index; assumption.
  - rewrite <- Ho. f_equal. f_equal. apply filter_ext_in.
    intros x Hx. apply in_all_sites in Hx.
    rewrite is_even_site_index by assumption. apply Z.negb_even.
Qed.

(** ** The schedule of [update()] for every extent *)

Lemma direction_row_snoc (xs : list site) (x : site) (m : Z) :
  direction_row (xs ++ [x]) m = direction_row xs m ++ [coords x ++ [m]].
Proof. unfold direction_row. rewrite map_app. reflexivity. Qed.

(** One round of the site loops: four threads are started, and entered in
    the table of the class of the site. *)
Lemma update_site_step (L : Lattice.t) (x : site) (E O : list site)
    (tr : list event) :
  let '(i, j, k, l) := x in
  Lattice.update_site L i j k l
    (Lattice.mkSweep (map (direction_row E) (range 4))
                     (map (direction_row O) (range 4)) tr) =
  Ok (Lattice.mkSweep
        (map (direction_row (if is_even_site L x then E ++ [x] else E)) (range 4))
        (map (direction_row (if is_even_site L x then O else O ++ [x])) (range 4))
        (tr ++ map Start (site_links x))).
Proof.
  destruct x as [[[i j] k] l]. unfold Lattice.update_site, is_even_site.
  destruct (Z.rem (Lattice.index L i j k l) 2 =? 0);
    rewrite for_range_4; unfold Lattice.spawn;
    change (range 4) with [0; 1; 2; 3]; cbn [map];
    rewrite !direction_row_snoc; cbn [site_links map coords app];
    change (range 4) with [0; 1; 2; 3]; cbn [map app];
    cbv [bind vec_upd vec_get vec_set Lattice.even_threads Lattice.odd_threads
         Lattice.issued nth_error Z.to_nat Pos.to_nat Pos.iter_op Nat.add Z.ltb
         Z.leb Z.compare length Z.of_nat Pos.of_succ_nat Pos.succ orb list_set
         Pos.compare Pos.compare_cont];
    rewrite <- !app_assoc; reflexivity.
Qed.

Lemma filter_snoc {A : Type} (p : A -> bool) (l : list A) (a : A) :
  filter p (l ++ [a]) = if p a then filter p l ++ [a] else filter p l.
Proof.
  rewrite filter_app. cbn [filter]. destruct (p a); [reflexivity | apply app_nil_r].
Qed.

(** The state of [update()] when the site loops are done. *)
Lemma update_site_loops (L : Lattice.t) :
  for_range 0 (Z.to_nat (Lattice.n L)) (fun i =>
  for_range 0 (Z.to_nat (Lattice.n L)) (fun j =>
  for_range 0 (Z.to_nat (Lattice.n L)) (fun k =>
  for_range 0 (Z.to_nat (Lattice.n L)) (fun l => Lattice.update_site L i j k l))))
    (Lattice.mkSweep [[]; []; []; []] [[]; []; []; []] []) =
  Ok (Lattice.mkSweep
        (map (direction_row (filter (is_even_site L) (all_sites (Lattice.n L))))
             (range 4))
        (map (direction_row (filter (fun x => negb (is_even_site L x))
                                    (all_sites (Lattice.n L))))
             (range 4))
        (flat_map (fun x => map Start (site_links x)) (all_sites (Lattice.n L)))).
Proof.
  rewrite site_loops.
  destruct (run_list_invariant
    (fun pre s =>
       s = Lattice.mkSweep
             (map (direction_row (filter (is_even_site L) pre)) (range 4))
             (map (direction_row (filter (fun x => negb (is_even_site L x)) pre))
                  (range 4))
             (flat_map (fun x => map Start (site_links x)) pre))
    (fun x : site => let '(i, j, k, l) := x in Lattice.update_site L i j k l)
    (all_sites (Lattice.n L)))
    with (pre := @nil site)
         (s := Lattice.mkSweep [[]; []; []; []] [[]; []; []; []] [])
    as (s & Hrun & ->).
  - intros pre x s _ ->.
    pose proof (update_site_step L x (filter (is_even_site L) pre)
                  (filter (fun y => negb (is_even_site L y)) pre)
                  (flat_map (fun y => map Start (site_links y)) pre)) as Hstep.
    eexists. split; [destruct x as [[[i j] k] l]; exact Hstep|].
    rewrite !filter_snoc, flat_map_app. cbn [flat_map]. rewrite app_nil_r.
    destruct (is_even_site L x); reflexivity.
  - reflexivity.
  - exact Hrun.
Qed.

Lemma skipn_nth_error {A : Type} (l : list A) (a : nat) (x : A) :
  nth_error l a = Some x -> skipn a l = x :: skipn (S a) l.
Proof.
  revert a. induction l as [|h t IH]; intros [|a] H; cbn in *; try discriminate.
  - congruence.
  - apply IH. assumption.
Qed.

(** One of the eight join loops: the first [c] handles of the row, from
    position [a] on, are joined in order. *)
Lemma join_loop (even : bool) (j : Z) (row : list (list Z)) (c : nat) :
  forall (a : nat) (s : Lattice.sweep),
  vec_get (if even then Lattice.even_threads s else Lattice.odd_threads s) j = Ok row ->
  (a + c <= length row)%nat ->
  for_range (Z.of_nat a) c (fun i => Lattice.join even j i) s =
  Ok (Lattice.mkSweep (Lattice.even_threads s) (Lattice.odd_threads s)
        (Lattice.issued s ++ map Join (firstn c (skipn a row)))).
Proof.
  induction c as [|c IH]; intros a s Hrow Hlen.
  - cbn [for_range firstn map]. rewrite app_nil_r. destruct s; reflexivity.
  - cbn [for_range]. unfold Lattice.join at 1. rewrite Hrow. cbn [bind].
    destruct (nth_error row a) as [th|] eqn:Hth;
      [|apply nth_error_None in Hth; lia].
    assert (vec_get row (Z.of_nat a) = Ok th) as Hget
      by (apply vec_get_Ok; split; [lia | rewrite Nat2Z.id; exact Hth]).
    rewrite Hget. cbn [bind].
    replace (Z.of_nat a + 1) with (Z.of_nat (S a)) by lia.
    rewrite IH.
    + cbn [Lattice.even_threads Lattice.odd_threads Lattice.issued].
      rewrite (skipn_nth_error row a th Hth). cbn [firstn map].
      rewrite <- app_assoc. reflexivity.
    + destruct even; exact Hrow.
    + lia.
Qed.

Lemma join_loops (even : bool) (rows : list site) (K : nat) (s : Lattice.sweep) :
  (if even then Lattice.even_threads s else Lattice.odd_threads s) =
    map (direction_row rows) (range 4) ->
  (K <= length rows)%nat ->
  for_range 0 4 (fun j =>
    for_range 0 K (fun i => Lattice.join even j i)) s =
  Ok (Lattice.mkSweep (Lattice.even_threads s) (Lattice.odd_threads s)
        (Lattice.issued s ++
         flat_map (fun m => map Join (firstn K (direction_row rows m))) (range 4))).
Proof.
  intros Htab HK. rewrite for_range_4.
  assert (forall m, length (direction_row rows m) = length rows) as Hlen
    by (intros m; unfold direction_row; apply length_map).
  assert (forall (m : Z) (s' : Lattice.sweep),
            Lattice.even_threads s' = Lattice.even_threads s ->
            Lattice.odd_threads s' = Lattice.odd_threads s ->
            In m [0; 1; 2; 3] ->
            for_range 0 K (fun i => Lattice.join even m i) s' =
            Ok (Lattice.mkSweep (Lattice.even_threads s) (Lattice.odd_threads s)
                  (Lattice.issued s' ++
                   map Join (firstn K (direction_row rows m))))) as Hone.
  { intros m s' He Ho Hm.
    pose proof (join_loop even m (direction_row rows m) K 0 s') as Hloop.
    cbn [Z.of_nat skipn Nat.add] in Hloop. rewrite Hloop.
    - rewrite He, Ho. reflexivity.
    - rewrite He, Ho, Htab. change (range 4) with [0; 1; 2; 3].
      cbn in Hm. destruct Hm as [<- | [<- | [<- | [<- | []]]]]; reflexivity.
    - rewrite Hlen. lia. }
  rewrite Hone by (try reflexivity; cbn; tauto). cbn [bind].
  rewrite Hone by (try reflexivity; cbn; tauto). cbn [bind].
  rewrite Hone by (try reflexivity; cbn; tauto). cbn [bind].
  rewrite Hone by (try reflexivity; cbn; tauto). cbn [bind].
  cbn [Lattice.issued]. change (range 4) with [0; 1; 2; 3].
  cbn [flat_map]. rewrite app_nil_r, <- !app_assoc. reflexivity.
Qed.

(** What [update()] issues, in order. *)
Lemma update_issues (L : Lattice.t) :
  0 <= Lattice.n L ->
  let sites := all_sites (Lattice.n L) in
  let evens := filter (is_even_site L) sites in
  let odds := filter (fun x => negb (is_even_site L x)) sites in
  let K := Z.to_nat (Lattice.n L ^ 4 / 2) in
  Lattice.update L =
  Ok (flat_map (fun x => map Start (site_links x)) sites ++
      flat_map (fun m => map Join (direction_row odds m)) (range 4) ++
      flat_map (fun m => map Join (firstn K (direction_row evens m))) (range 4)).
Proof.
  intros Hn sites evens odds K.
  destruct (class_sizes L Hn) as [He Ho]. fold sites in He, Ho. fold evens in He.
  fold odds in Ho.
  assert (Z.to_nat (Z.quot (Lattice.n L * Lattice.n L * Lattice.n L * Lattice.n L) 2) = K)
    as HK.
  { subst K. f_equal. rewrite Z.quot_div_nonneg by nia. f_equal. ring. }
  assert (0 <= Lattice.n L ^ 4) as Hpow by (apply Z.pow_nonneg; assumption).
  assert (length odds = K) as HKo by (subst K; lia).
  assert (K <= length evens)%nat as HKe.
  { subst K. apply Nat2Z.inj_le. rewrite He, Z2Nat.id by (apply Z.div_pos; lia).
    apply Z.div_le_mono; lia. }
  unfold Lattice.update. rewrite update_site_loops. cbn [bind]. rewrite HK.
  rewrite (join_loops false odds K) by (try reflexivity; lia). cbn [bind].
  rewrite (join_loops true evens K) by (try reflexivity; assumption). cbn [bind].
  cbn [Lattice.issued]. rewrite <- app_assoc. f_equal. f_equal. f_equal.
  apply flat_map_ext_in. intros m _. f_equal. apply firstn_all2.
  unfold direction_row. rewrite length_map. lia.
Qed.

(** X10.  For every extent [n >= 0] with [n^4 <= INT_MAX] (so that neither
    [n_sites = n*n*n*n] nor a site index overflows), [update()] returns.  It
    first starts
    one thread per link, site by site in index order and, within a site,
    direction by direction; only then does it join, direction by direction,
    the threads of the odd class, and after them the first [n^4 / 2]
    threads of each direction of the even class. *)
Theorem update_schedule (L : Lattice.t) :
  0 <= Lattice.n L -> Lattice.n L ^ 4 <= INT_MAX ->
  let sites := all_sites (Lattice.n L) in
  let evens := filter (is_even_site L) sites in
  let odds := filter (fun x => negb (is_even_site L x)) sites in
  let K := Z.to_nat (Lattice.n L ^ 4 / 2) in
  Lattice.update L =
  Ok (flat_map (fun x => map Start (site_links x)) sites ++
      flat_map (fun m => map Join (direction_row odds m)) (range 4) ++
      flat_map (fun m => map Join (firstn K (direction_row evens m))) (range 4)).
Proof.
  intros Hn _. apply update_issues. assumption.
Qed.

Lemma update_schedule_witness :
  let L := cold_start 3 (11 / 2)%R tie_pool in
  let sites := all_sites (Lattice.n L) in
  let evens := filter (is_even_site L) sites in
  let odds := filter (fun x => negb (is_even_site L x)) sites in
  let K := Z.to_nat (Lattice.n L ^ 4 / 2) in
  Lattice.update L =
  Ok (flat_map (fun x => map Start (site_links x)) sites ++
      flat_map (fun m => map Join (direction_row odds m)) (range 4) ++
      flat_map (fun m => map Join (firstn K (direction_row evens m))) (range 4)).
Proof.
  apply (update_schedule (cold_start 3 (11 / 2)%R tie_pool)).
  - cbn. lia.
  - cbv [INT_MAX]. cbn. lia.
Defined.

Lemma filter_is_start_starts (l : list (list Z)) :
  filter is_start (map Start l) = map Start l.
Proof. induction l as [|a l IH]; cbn; [|rewrite IH]; reflexivity. Qed.

Lemma filter_is_start_joins (l : list (list Z)) :
  filter is_start (map Join l) = [].
Proof. induction l as [|a l IH]; cbn; [|rewrite IH]; reflexivity. Qed.

Lemma filter_not_start_starts (l : list (list Z)) :
  filter (fun e => negb (is_start e)) (map Start l) = [].
Proof. induction l as [|a l IH]; cbn; [|rewrite IH]; reflexivity. Qed.

Lemma filter_not_start_joins (l : list (list Z)) :
  filter (fun e => negb (is_start e)) (map Join l) = map Join l.
Proof. induction l as [|a l IH]; cbn; [|rewrite IH]; reflexivity. Qed.

Lemma filter_flat_map {A B : Type} (p : B -> bool) (h : A -> list B) (l : list A) :
  filter p (flat_map h l) = flat_map (fun a => filter p (h a)) l.
Proof.
  induction l as [|a l IH]; [reflexivity|].
  cbn [flat_map]. rewrite filter_app, IH. reflexivity.
Qed.

Lemma flat_map_nil {A B : Type} (l : list A) :
  flat_map (fun _ : A => @nil B) l = [].
Proof. induction l; [reflexivity | assumption]. Qed.

(** X11.  For an extent [n >= 0] with [n^4 <= INT_MAX], [update()] starts
    [4 n^4] threads and joins [8 * (n^4 / 2)] of them.  With an even extent that is all of them; with an odd extent four
    threads, one per direction, are started and never joined. *)
Theorem update_thread_counts (L : Lattice.t) :
  0 <= Lattice.n L -> Lattice.n L ^ 4 <= INT_MAX ->
  exists tr : list event,
    Lattice.update L = Ok tr /\
    Z.of_nat (length (filter is_start tr)) = 4 * Lattice.n L ^ 4 /\
    Z.of_nat (length (filter (fun e => negb (is_start e)) tr)) =
      8 * (Lattice.n L ^ 4 / 2) /\
    (Z.even (Lattice.n L) = true ->
     8 * (Lattice.n L ^ 4 / 2) = 4 * Lattice.n L ^ 4) /\
    (Z.odd (Lattice.n L) = true ->
     8 * (Lattice.n L ^ 4 / 2) = 4 * Lattice.n L ^ 4 - 4).
Proof.
  intros Hn _. eexists. split; [apply update_issues; assumption|].
  destruct (class_sizes L Hn) as [He Ho].
  assert (0 <= Lattice.n L ^ 4) as Hpow by (apply Z.pow_nonneg; assumption).
  set (sites := all_sites (Lattice.n L)) in *.
  set (evens := filter (is_even_site L) sites) in *.
  set (odds := filter (fun x => negb (is_even_site L x)) sites) in *.
  set (K := Z.to_nat (Lattice.n L ^ 4 / 2)).
  assert (Z.of_nat K = Lattice.n L ^ 4 / 2) as HK
    by (subst K; apply Z2Nat.id, Z.div_pos; lia).
  assert (K <= length evens)%nat as HKe.
  { apply Nat2Z.inj_le. rewrite He, HK. apply Z.div_le_mono; lia. }
  split; [|split; [|split]].
  - rewrite !filter_app, !filter_flat_map.
    rewrite (flat_map_ext_in _ (fun x => map Start (site_links x)))
      by (intros; apply filter_is_start_starts).
    rewrite (flat_map_ext_in (fun m => filter is_start (map Join (direction_row odds m)))
                             (fun _ => []))
      by (intros; apply filter_is_start_joins).
    rewrite (flat_map_ext_in
               (fun m => filter is_start (map Join (firstn K (direction_row evens m))))
               (fun _ => []))
      by (intros; apply filter_is_start_joins).
    rewrite !flat_map_nil, !app_nil_r.
    rewrite (length_flat_map_const _ _ 4)
      by (intros x; unfold site_links; rewrite !length_map; apply length_range).
    pose proof (length_all_sites (Lattice.n L) Hn). fold sites in H. lia.
  - rewrite !filter_app, !filter_flat_map.
    rewrite (flat_map_ext_in
               (fun x => filter (fun e => negb (is_start e)) (map Start (site_links x)))
               (fun _ => []))
      by (intros; apply filter_not_start_starts).
    rewrite (flat_map_ext_in
               (fun m => filter (fun e => negb (is_start e))
                                (map Join (direction_row odds m)))
               (fun m => map Join (direction_row odds m)))
      by (intros; apply filter_not_start_joins).
    rewrite (flat_map_ext_in
               (fun m => filter (fun e => negb (is_start e))
                                (map Join (firstn K (direction_row evens m))))
               (fun m => map Join (firstn K (direction_row evens m))))
      by (intros; apply filter_not_start_joins).
    rewrite flat_map_nil. cbn [app]. rewrite length_app.
    rewrite (length_flat_map_const _ _ K)
      by (intros m; unfold direction_row; rewrite !length_map; lia).
    rewrite (length_flat_map_const _ _ K)
      by (intros m; unfold direction_row;
          rewrite length_map, length_firstn, length_map; lia).
    rewrite length_range. lia.
  - intros Hev. apply Z.even_spec in Hev. destruct Hev as [h Hh].
    replace (Lattice.n L ^ 4) with ((8 * h * h * h * h) * 2) by (rewrite Hh; ring).
    rewrite Z_div_mult_full by lia. ring.
  - intros Hod. apply Z.odd_spec in Hod. destruct Hod as [h Hh].
    replace (Lattice.n L ^ 4)
      with (1 + (8 * h * h * h * h + 16 * h * h * h + 12 * h * h + 4 * h) * 2)
      by (rewrite Hh; ring).
    rewrite Z_div_plus_full by lia. change (1 / 2) with 0. ring.
Qed.

Lemma update_thread_counts_witness :
  let L := cold_start 3 (11 / 2)%R tie_pool in
  exists tr : list event,
    Lattice.update L = Ok tr /\
    Z.of_nat (length (filter is_start tr)) = 4 * Lattice.n L ^ 4 /\
    Z.of_nat (length (filter (fun e => negb (is_start e)) tr)) =
      8 * (Lattice.n L ^ 4 / 2) /\
    (Z.even (Lattice.n L) = true ->
     8 * (Lattice.n L ^ 4 / 2) = 4 * Lattice.n L ^ 4) /\
    (Z.odd (Lattice.n L) = true ->
     8 * (Lattice.n L ^ 4 / 2) = 4 * Lattice.n L ^ 4 - 4).
Proof.
  apply (update_thread_counts (cold_start 3 (11 / 2)%R tie_pool)).
  - cbn. lia.
  - cbv [INT_MAX]. cbn. lia.
Defined.

(** ** [randomSU3] *)

Section RandomSU3.

Variable householderQ : Matrix3cd -> Matrix3cd.
Variable cpow : complex -> R -> complex.
Variable uninitialized : Matrix3cd.

Lemma rand_seq_plus_0 (g : libc_rand) : (rand_pos g + 0 = rand_pos g)%nat.
Proof. lia. Qed.

Lemma randomSU3_row (i : Z) (A : Matrix3cd) (g : libc_rand) :
  0 <= i < 3 ->
  for_range 0 3 (fun j => randomSU3_entry i j) (A, g) =
  Ok (match i with
      | 0 => mk33 (random_coeff g 0) (random_coeff g 1) (random_coeff g 2)
                  (m10 A) (m11 A) (m12 A) (m20 A) (m21 A) (m22 A)
      | 1 => mk33 (m00 A) (m01 A) (m02 A)
                  (random_coeff g 0) (random_coeff g 1) (random_coeff g 2)
                  (m20 A) (m21 A) (m22 A)
      | _ => mk33 (m00 A) (m01 A) (m02 A) (m10 A) (m11 A) (m12 A)
                  (random_coeff g 0) (random_coeff g 1) (random_coeff g 2)
      end, advance g 6).
Proof.
  intros Hi. destruct A as [a00 a01 a02 a10 a11 a12 a20 a21 a22].
  rewrite for_range_3.
  assert (i = 0 \/ i = 1 \/ i = 2) as [-> | [-> | ->]] by lia;
    cbv [bind randomSU3_entry rand set_coeff coeff RAND_MAX rand_seq rand_pos
         m00 m01 m02 m10 m11 m12 m20 m21 m22 random_coeff advance];
    repeat (f_equal; try lia).
Qed.

Lemma advance_advance (g : libc_rand) (a b : nat) :
  advance (advance g a) b = advance g (a + b).
Proof. unfold advance. cbn [RAND_MAX rand_seq rand_pos]. f_equal. lia. Qed.

Lemma random_coeff_advance (g : libc_rand) (a q : nat) :
  random_coeff (advance g (2 * a)) q = random_coeff g (a + q).
Proof.
  unfold random_coeff, advance. cbn [RAND_MAX rand_seq rand_pos].
  repeat (f_equal; try lia).
Qed.

(** The two loops fill [A] from 18 draws, whatever it held. *)
Lemma randomSU3_fill (g : libc_rand) :
  for_range 0 3 (fun i => for_range 0 3 (fun j => randomSU3_entry i j))
    (uninitialized, g) =
  Ok (random_matrix g, advance g 18).
Proof.
  rewrite for_range_3. cbv beta.
  rewrite (randomSU3_row 0) by lia. cbn [bind].
  rewrite (randomSU3_row 1) by lia. cbn [bind].
  rewrite (randomSU3_row 2) by lia. cbn [bind].
  rewrite !advance_advance. cbn [Nat.add m00 m01 m02 m10 m11 m12 m20 m21 m22].
  unfold random_matrix.
  rewrite !(random_coeff_advance g 3), !(random_coeff_advance g 6). reflexivity.
Qed.


Lemma randomSU3_value (eps : R) (g : libc_rand) :
  randomSU3 householderQ cpow uninitialized eps g =
    Ok (let Q := householderQ
                   (madd Identity (mscale (Cscale lattice_i eps) (random_matrix g))) in
        mquot Q (cpow (determinant Q) (1 / 3)), advance g 18).
Proof.
  unfold randomSU3. rewrite randomSU3_fill. reflexivity.
Qed.


End RandomSU3.


(** ** The normalisation step of [randomSU3] *)

Ltac scalar_ring :=
  matrix_entries;
  cbv [determinant mmul adjoint mscale mquot Identity trace Cdot3 Cadd Cmul Cconj
       Cdiv Cover Czero Cone re im m00 m01 m02 m10 m11 m12 m20 m21 m22];
  repeat (f_equal; try ring).

Ltac expand_complex :=
  cbv [determinant mmul adjoint mscale mquot Identity trace Cdot3 Cadd Cmul Cconj
       Cdiv Cover Czero Cone re im m00 m01 m02 m10 m11 m12 m20 m21 m22].

Lemma determinant_adjoint (A : Matrix3cd) :
  determinant (adjoint A) = Cconj (determinant A).
Proof. scalar_ring. Qed.

Lemma determinant_Identity : determinant Identity = Cone.
Proof. scalar_ring. Qed.

Lemma determinant_mscale (s : complex) (A : Matrix3cd) :
  determinant (mscale s A) = Cmul (Cmul s (Cmul s s)) (determinant A).
Proof. scalar_ring. Qed.

Lemma mscale_mmul_adjoint (s : complex) (A : Matrix3cd) :
  mmul (mscale s A) (adjoint (mscale s A)) =
  mscale (Cmul s (Cconj s)) (mmul A (adjoint A)).
Proof. scalar_ring. Qed.

Lemma adjoint_mscale_mmul (s : complex) (A : Matrix3cd) :
  mmul (adjoint (mscale s A)) (mscale s A) =
  mscale (Cmul s (Cconj s)) (mmul (adjoint A) A).
Proof. scalar_ring. Qed.

Lemma mscale_Cone (A : Matrix3cd) : mscale Cone A = A.
Proof. scalar_ring. Qed.

(** The determinant of a unitary matrix has modulus one. *)
Lemma unitary_determinant (Q : Matrix3cd) :
  unitary Q ->
  (re (determinant Q) * re (determinant Q) +
   im (determinant Q) * im (determinant Q) = 1)%R.
Proof.
  intros [H _]. apply (f_equal determinant) in H.
  rewrite determinant_mmul, determinant_adjoint, determinant_Identity in H.
  apply (f_equal re) in H. destruct (determinant Q) as [a b].
  cbn [Cmul Cconj Cone re im] in *. lra.
Qed.

(** A cube root of a number of modulus one has modulus one. *)
Lemma cube_root_modulus (c d : complex) :
  Cmul c (Cmul c c) = d ->
  (re d * re d + im d * im d = 1)%R ->
  (re c * re c + im c * im c = 1)%R.
Proof.
  intros <- H. destruct c as [w v]. cbn [Cmul re im] in *.
  assert ((w * w + v * v) * ((w * w + v * v) * (w * w + v * v)) = 1)%R as H3
    by (rewrite <- H; ring).
  set (N := (w * w + v * v)%R) in *.
  assert (0 <= N)%R by (subst N; nra).
  nra.
Qed.

Lemma mquot_unit (Q : Matrix3cd) (c : complex) :
  (re c * re c + im c * im c = 1)%R -> mquot Q c = mscale (Cconj c) Q.
Proof.
  intros Hc. destruct c as [w v]. cbn [re im] in Hc.
  matrix_entries. expand_complex.
  rewrite Hc. unfold Rdiv. rewrite Rinv_1. repeat (f_equal; try ring).
Qed.

Lemma special_unitary_quotient (Q : Matrix3cd) (c : complex) :
  unitary Q -> Cmul c (Cmul c c) = determinant Q ->
  special_unitary (mquot Q c).
Proof.
  intros HQ Hc.
  pose proof (cube_root_modulus c _ Hc (unitary_determinant Q HQ)) as Hmod.
  rewrite (mquot_unit Q c Hmod).
  assert (Cmul (Cconj c) (Cconj (Cconj c)) = Cone) as Hone.
  { destruct c as [w v]. cbn [re im] in Hmod.
    cbv [Cmul Cconj Cone re im]. f_equal; [rewrite <- Hmod|]; ring. }
  destruct HQ as [H1 H2]. split; [split|].
  - rewrite mscale_mmul_adjoint, Hone, H1. apply mscale_Cone.
  - rewrite adjoint_mscale_mmul, Hone, H2. apply mscale_Cone.
  - rewrite determinant_mscale, <- Hc.
    destruct c as [w v]. cbn [re im] in Hmod.
    cbv [Cmul Cconj Cone re im].
    set (N := (w * w + v * v)%R) in *.
    f_equal.
    + replace 1%R with (N * (N * N))%R by (rewrite Hmod; ring). subst N. ring.
    + ring.
Qed.

Section RandomSU3Group.

Variable householderQ : Matrix3cd -> Matrix3cd.
Variable cpow : complex -> R -> complex.
Variable uninitialized : Matrix3cd.

(** What is assumed of Eigen and of [std::pow]: the factor of a QR
    decomposition is unitary, and [pow(z, 1./3)] is a cube root of [z]. *)
Hypothesis householderQ_unitary : forall B, unitary (householderQ B).
Hypothesis cpow_cube_root : forall B,
  let c := cpow (determinant (householderQ B)) (1 / 3) in
  Cmul c (Cmul c c) = determinant (householderQ B).

(** X13.  In exact arithmetic, and provided Eigen's [householderQ()] is
    unitary and [pow(z, 1./3)] a cube root of [z], the matrix
    [randomSU3()] returns is special-unitary: dividing [Q] by the cube
    root of its determinant keeps it unitary and makes the determinant 1. *)
Theorem randomSU3_special_unitary (eps : R) (g : libc_rand) :
  exists (M : Matrix3cd) (g' : libc_rand),
    randomSU3 householderQ cpow uninitialized eps g = Ok (M, g') /\
    special_unitary M.
Proof.
  eexists. eexists. split; [apply randomSU3_value|]. cbv zeta.
  apply special_unitary_quotient; [apply householderQ_unitary|].
  apply cpow_cube_root.
Qed.

End RandomSU3Group.

Lemma randomSU3_special_unitary_witness :
  exists (M : Matrix3cd) (g' : libc_rand),
    randomSU3 (fun _ => flip23) (fun _ _ => Cone) Identity (24 / 100)%R tie_rand =
      Ok (M, g') /\
    special_unitary M.
Proof.
  apply (randomSU3_special_unitary (fun _ => flip23) (fun _ _ => Cone) Identity).
  - intros B. apply special_unitary_flip23.
  - intros B. cbv zeta.
    destruct special_unitary_flip23 as [_ ->]. rewrite Cmul_Cone. apply Cmul_Cone.
Defined.

(** ** Loops that work on one element of a vector *)

Lemma for_range_ext {St : Type} (f h : Z -> St -> outcome St) (c : nat) :
  (forall t s, f t s = h t s) ->
  forall lo s, for_range lo c f s = for_range lo c h s.
Proof.
  intros Hfh. induction c as [|c IH]; intros lo s; [reflexivity|].
  cbn [for_range]. rewrite Hfh. destruct (h lo s); cbn [bind]; auto.
Qed.

Lemma vec_set_in_range {A : Type} (v : list A) (i : Z) (a x : A) :
  vec_get v i = Ok a -> vec_set v i x = Ok (list_set v (Z.to_nat i) x).
Proof.
  intros H. apply vec_get_bound in H. unfold vec_set.
  destruct (Z.ltb_spec i 0); [lia|].
  destruct (Z.leb_spec (Z.of_nat (length v)) i); [lia|]. reflexivity.
Qed.

Lemma vec_get_list_set_eq {A : Type} (v : list A) (i : Z) (a x : A) :
  vec_get v i = Ok a -> vec_get (list_set v (Z.to_nat i) x) i = Ok x.
Proof.
  intros H. pose proof (vec_get_bound H). apply vec_get_Ok. split; [lia|].
  apply nth_error_list_set_eq. lia.
Qed.

(** A loop of focused steps is the focused loop. *)
Lemma for_range_focus {A G : Type} (i : Z)
    (inner : Z -> A * G -> outcome (A * G)) (c : nat) :
  forall (lo : Z) (v : list A) (g : G) (a : A),
  vec_get v i = Ok a ->
  for_range lo c (fun t => focus i (inner t)) (v, g) =
  focus i (for_range lo c inner) (v, g).
Proof.
  induction c as [|c IH]; intros lo v g a Ha.
  - cbn [for_range focus]. rewrite Ha. cbn [bind].
    rewrite (vec_set_in_range v i a a Ha). cbn [bind].
    rewrite list_set_same by (apply vec_get_Ok in Ha; tauto). reflexivity.
  - cbn [for_range]. unfold focus at 1. rewrite Ha. cbn [bind].
    unfold focus at 2. rewrite Ha. cbn [bind for_range].
    destruct (inner lo (a, g)) as [[a1 g1]| |]; cbn [bind]; try reflexivity.
    rewrite (vec_set_in_range v i a a1 Ha). cbn [bind].
    rewrite (IH (lo + 1) _ g1 a1 (vec_get_list_set_eq v i a a1 Ha)).
    unfold focus. rewrite (vec_get_list_set_eq v i a a1 Ha). cbn [bind].
    destruct (for_range (lo + 1) c inner (a1, g1)) as [[a2 g2]| |];
      cbn [bind]; try reflexivity.
    rewrite (vec_set_in_range _ i a1 a2 (vec_get_list_set_eq v i a a1 Ha)).
    rewrite (vec_set_in_range v i a a2 Ha). cbn [bind].
    rewrite list_set_twice. reflexivity.
Qed.

(** An update of [v[i]] followed by a loop of steps focused on [v[i]]. *)
Lemma vec_upd_then_focus {A G : Type} (i : Z) (f : A -> outcome A)
    (inner : Z -> A * G -> outcome (A * G)) (lo : Z) (c : nat)
    (v : list A) (g : G) :
  (v' <- vec_upd v i f ;; for_range lo c (fun t => focus i (inner t)) (v', g)) =
  focus i (fun s => let '(a, g) := s in
                    a' <- f a ;; for_range lo c inner (a', g)) (v, g).
Proof.
  unfold vec_upd, focus at 2.
  destruct (vec_get v i) as [a| |] eqn:Ha; cbn [bind]; try reflexivity.
  destruct (f a) as [a1| |]; cbn [bind]; try reflexivity.
  rewrite (vec_set_in_range v i a a1 Ha). cbn [bind].
  rewrite (for_range_focus i inner c lo _ g a1 (vec_get_list_set_eq v i a a1 Ha)).
  unfold focus. rewrite (vec_get_list_set_eq v i a a1 Ha). cbn [bind].
  destruct (for_range lo c inner (a1, g)) as [[a2 g2]| |]; cbn [bind]; try reflexivity.
  rewrite (vec_set_in_range _ i a1 a2 (vec_get_list_set_eq v i a a1 Ha)).
  rewrite (vec_set_in_range v i a a2 Ha). cbn [bind].
  rewrite list_set_twice. reflexivity.
Qed.

(** A single update of [v[i]] that also moves the state on. *)
Lemma vec_upd_focus {A G : Type} (i : Z) (f : A -> outcome A) (g' : G)
    (v : list A) (g : G) :
  (v' <- vec_upd v i f ;; Ok (v', g')) =
  focus i (fun s => a' <- f (fst s) ;; Ok (a', g')) (v, g).
Proof.
  unfold vec_upd, focus.
  destruct (vec_get v i) as [a| |] eqn:Ha; cbn [bind fst]; try reflexivity.
  destruct (f a) as [a1| |]; cbn [bind]; reflexivity.
Qed.

Lemma focus_ext {A G : Type} (i : Z) (f h : A * G -> outcome (A * G))
    (s : list A * G) :
  (forall x, f x = h x) -> focus i f s = focus i h s.
Proof.
  intros Hfh. destruct s as [v g]. unfold focus.
  destruct (vec_get v i); cbn [bind]; try reflexivity. rewrite Hfh. reflexivity.
Qed.

(** A loop that rebuilds every element of a vector in turn. *)
Lemma for_range_build {A G : Type} (build : G -> A * G)
    (inner : A * G -> outcome (A * G)) :
  (forall a g, inner (a, g) = Ok (build g)) ->
  forall (l pre : list A) (g : G),
  for_range (Z.of_nat (length pre)) (length l) (fun t => focus t inner)
    (pre ++ l, g) =
  Ok (pre ++ fst (build_list build (length l) g),
      snd (build_list build (length l) g)).
Proof.
  intros Hinner. induction l as [|a l IH]; intros pre g.
  - cbn. reflexivity.
  - cbn [length for_range build_list]. unfold focus at 1.
    assert (vec_get (pre ++ a :: l) (Z.of_nat (length pre)) = Ok a) as Ha.
    { apply vec_get_Ok. split; [lia|]. rewrite Nat2Z.id.
      rewrite nth_error_app2 by lia. rewrite Nat.sub_diag. reflexivity. }
    rewrite Ha. cbn [bind]. rewrite Hinner.
    destruct (build g) as [b g1]. cbn [bind].
    rewrite (vec_set_in_range _ _ a b Ha). cbn [bind].
    assert (list_set (pre ++ a :: l) (Z.to_nat (Z.of_nat (length pre))) b =
            (pre ++ [b]) ++ l) as ->.
    { rewrite Nat2Z.id. clear. induction pre as [|p pre IHp]; [reflexivity|].
      cbn [length app list_set]. rewrite IHp. reflexivity. }
    replace (Z.of_nat (length pre) + 1) with (Z.of_nat (length (pre ++ [b])))
      by (rewrite length_app; cbn [length]; lia).
    rewrite IH. destruct (build_list build (length l) g1) as [l' g2].
    cbn [fst snd]. rewrite <- app_assoc. reflexivity.
Qed.

Lemma length_build_list {A G : Type} (build : G -> A * G) (N : nat) (g : G) :
  length (fst (build_list build N g)) = N.
Proof.
  revert g. induction N as [|N IH]; intros g; [reflexivity|].
  cbn [build_list]. destruct (build g) as [a g1].
  specialize (IH g1). destruct (build_list build N g1) as [l g2].
  cbn [fst length] in *. lia.
Qed.

Lemma Forall_build_list {A G : Type} (build : G -> A * G) (good : A -> Prop)
    (N : nat) (g : G) :
  (forall g', good (fst (build g'))) -> Forall good (fst (build_list build N g)).
Proof.
  intros Hgood. revert g. induction N as [|N IH]; intros g; [constructor|].
  cbn [build_list]. pose proof (Hgood g) as Hg. destruct (build g) as [a g1].
  specialize (IH g1). destruct (build_list build N g1) as [l g2].
  cbn [fst] in *. constructor; assumption.
Qed.

Lemma length_vec_resize {A : Type} (v : list A) (k : Z) (d : A) :
  length (vec_resize v k d) = Z.to_nat k.
Proof.
  unfold vec_resize. rewrite length_app, length_firstn, repeat_length. lia.
Qed.



Lemma bind_ext {A B : Type} (o : outcome A) (k k' : A -> outcome B) :
  (forall x, k x = k' x) -> bind o k = bind o k'.
Proof. intros H. destruct o; cbn [bind]; auto. Qed.

(** One level of a loop nest: the element is replaced, then an inner loop
    works on it. *)
Lemma peel {A G : Type} (i : Z) (f : A -> outcome A)
    (body : Z -> list A * G -> outcome (list A * G))
    (inner : Z -> A * G -> outcome (A * G))
    (tgt : A * G -> outcome (A * G)) (lo : Z) (c : nat) (v : list A) (g : G) :
  (forall t s, body t s = focus i (inner t) s) ->
  (forall a g, (a' <- f a ;; for_range lo c inner (a', g)) = tgt (a, g)) ->
  (v' <- vec_upd v i f ;; for_range lo c body (v', g)) = focus i tgt (v, g).
Proof.
  intros Hbody Htgt.
  rewrite (bind_ext _ _ (fun v' => for_range lo c (fun t => focus i (inner t)) (v', g)))
    by (intros v'; apply for_range_ext; assumption).
  rewrite vec_upd_then_focus. apply focus_ext. intros [a g0]. apply Htgt.
Qed.

(** The last level: a fresh vector, every element of which is built. *)
Lemma resize_then_build {A G : Type} (build : G -> A * G) (N : nat) (d : list A)
    (dflt : A) (g : G) :
  for_range 0 N (fun t => focus t (rebuilt build))
    (vec_resize d (Z.of_nat N) dflt, g) = Ok (build_list build N g).
Proof.
  pose proof (length_vec_resize d (Z.of_nat N) dflt) as Hlen.
  rewrite Nat2Z.id in Hlen.
  pose proof (for_range_build build (rebuilt build) (fun a g => eq_refl)
                (vec_resize d (Z.of_nat N) dflt) [] g) as H.
  rewrite Hlen in H. cbn [length Z.of_nat app] in H. rewrite H.
  destruct (build_list build N g). reflexivity.
Qed.

Lemma vec_upd_rebuilt {A G : Type} (i : Z) (f : A -> outcome A)
    (inner : A * G -> outcome (A * G)) (g' : G) (v : list A) (g : G) :
  (forall a, inner (a, g) = (a' <- f a ;; Ok (a', g'))) ->
  (v' <- vec_upd v i f ;; Ok (v', g')) = focus i inner (v, g).
Proof.
  intros Hinner. unfold vec_upd, focus.
  destruct (vec_get v i) as [a| |] eqn:Ha; cbn [bind]; try reflexivity.
  rewrite Hinner.
  destruct (f a) as [a1| |]; cbn [bind]; reflexivity.
Qed.

Section Constructor.

Variable householderQ : Matrix3cd -> Matrix3cd.
Variable cpow : complex -> R -> complex.
Variable uninitialized : Matrix3cd.
Variable eps : R.

Let rnd := random_link householderQ cpow eps.

Lemma fill_link_focus (i j k l m : Z) (s : link_store * libc_rand) :
  fill_link householderQ cpow uninitialized eps i j k l m s =
  focus i (focus j (focus k (focus l (focus m (rebuilt rnd))))) s.
Proof.
  destruct s as [ls g]. unfold fill_link. rewrite randomSU3_value. cbn [bind].
  unfold links_upd.
  apply vec_upd_rebuilt. intros a. symmetry.
  apply vec_upd_rebuilt. intros b. symmetry.
  apply vec_upd_rebuilt. intros c. symmetry.
  apply vec_upd_rebuilt. intros d. symmetry.
  apply vec_upd_rebuilt. intros e. reflexivity.
Qed.

Let site_block := build_list rnd 4.

Lemma new_links_l (i j k l : Z) (ls : link_store) (g : libc_rand) :
  (ls <- vec_upd ls i (fun a => vec_upd a j (fun b => vec_upd b k (fun c =>
         vec_upd c l (fun d => Ok (vec_resize d 4 uninitialized))))) ;;
   for_range 0 4 (fun m => fill_link householderQ cpow uninitialized eps i j k l m)
     (ls, g)) =
  focus i (focus j (focus k (focus l (rebuilt site_block)))) (ls, g).
Proof.
  apply (peel i _ _ (fun m => focus j (focus k (focus l (focus m (rebuilt rnd)))))).
  { intros t s. apply fill_link_focus. }
  intros a g1.
  apply (peel j _ _ (fun m => focus k (focus l (focus m (rebuilt rnd))))).
  { reflexivity. }
  intros b g2.
  apply (peel k _ _ (fun m => focus l (focus m (rebuilt rnd)))).
  { reflexivity. }
  intros c g3.
  apply (peel l _ _ (fun m => focus m (rebuilt rnd))).
  { reflexivity. }
  intros d g4. cbn [bind].
  apply (resize_then_build rnd 4 d uninitialized g4).
Qed.

Variable N : nat.

Let line_block := build_list site_block N.

Lemma new_links_k (i j k : Z) (ls : link_store) (g : libc_rand) :
  (ls <- vec_upd ls i (fun a => vec_upd a j (fun b =>
         vec_upd b k (fun c => Ok (vec_resize c (Z.of_nat N) [])))) ;;
   for_range 0 N (fun l '(ls, g) =>
     ls <- vec_upd ls i (fun a => vec_upd a j (fun b => vec_upd b k (fun c =>
           vec_upd c l (fun d => Ok (vec_resize d 4 uninitialized))))) ;;
     for_range 0 4 (fun m => fill_link householderQ cpow uninitialized eps i j k l m)
       (ls, g)) (ls, g)) =
  focus i (focus j (focus k (rebuilt line_block))) (ls, g).
Proof.
  apply (peel i _ _ (fun l => focus j (focus k (focus l (rebuilt site_block))))).
  { intros t [ls0 g0]. apply new_links_l. }
  intros a g1.
  apply (peel j _ _ (fun l => focus k (focus l (rebuilt site_block)))).
  { reflexivity. }
  intros b g2.
  apply (peel k _ _ (fun l => focus l (rebuilt site_block))).
  { reflexivity. }
  intros c g3. cbn [bind].
  apply (resize_then_build site_block N c [] g3).
Qed.

Let plane_block := build_list line_block N.

Lemma new_links_j (i j : Z) (ls : link_store) (g : libc_rand) :
  (ls <- vec_upd ls i (fun a =>
         vec_upd a j (fun b => Ok (vec_resize b (Z.of_nat N) []))) ;;
   for_range 0 N (fun k '(ls, g) =>
     ls <- vec_upd ls i (fun a => vec_upd a j (fun b =>
           vec_upd b k (fun c => Ok (vec_resize c (Z.of_nat N) [])))) ;;
     for_range 0 N (fun l '(ls, g) =>
       ls <- vec_upd ls i (fun a => vec_upd a j (fun b => vec_upd b k (fun c =>
             vec_upd c l (fun d => Ok (vec_resize d 4 uninitialized))))) ;;
       for_range 0 4 (fun m => fill_link householderQ cpow uninitialized eps i j k l m)
         (ls, g)) (ls, g)) (ls, g)) =
  focus i (focus j (rebuilt plane_block)) (ls, g).
Proof.
  apply (peel i _ _ (fun k => focus j (focus k (rebuilt line_block)))).
  { intros t [ls0 g0]. apply new_links_k. }
  intros a g1.
  apply (peel j _ _ (fun k => focus k (rebuilt line_block))).
  { reflexivity. }
  intros b g2. cbn [bind].
  apply (resize_then_build line_block N b [] g2).
Qed.

Let cube_block := build_list plane_block N.

Lemma new_links_i (i : Z) (ls : link_store) (g : libc_rand) :
  (ls <- vec_upd ls i (fun a => Ok (vec_resize a (Z.of_nat N) [])) ;;
   for_range 0 N (fun j '(ls, g) =>
     ls <- vec_upd ls i (fun a =>
           vec_upd a j (fun b => Ok (vec_resize b (Z.of_nat N) []))) ;;
     for_range 0 N (fun k '(ls, g) =>
       ls <- vec_upd ls i (fun a => vec_upd a j (fun b =>
             vec_upd b k (fun c => Ok (vec_resize c (Z.of_nat N) [])))) ;;
       for_range 0 N (fun l '(ls, g) =>
         ls <- vec_upd ls i (fun a => vec_upd a j (fun b => vec_upd b k (fun c =>
               vec_upd c l (fun d => Ok (vec_resize d 4 uninitialized))))) ;;
         for_range 0 4 (fun m => fill_link householderQ cpow uninitialized eps i j k l m)
           (ls, g)) (ls, g)) (ls, g)) (ls, g)) =
  focus i (rebuilt cube_block) (ls, g).
Proof.
  apply (peel i _ _ (fun j => focus j (rebuilt plane_block))).
  { intros t [ls0 g0]. apply new_links_j. }
  intros a g1. cbn [bind].
  apply (resize_then_build plane_block N a [] g1).
Qed.

(** The first loop nest builds the store site by site, in index order. *)
Lemma new_links_built (g : libc_rand) :
  new_links householderQ cpow uninitialized (Z.of_nat N) eps g =
  Ok (build_list cube_block N g).
Proof.
  unfold new_links. rewrite Nat2Z.id.
  rewrite (for_range_ext _ (fun i => focus i (rebuilt cube_block)))
    by (intros t [ls0 g0]; apply new_links_i).
  apply (resize_then_build cube_block N [] [] g).
Qed.

(** The second loop. *)
Lemma new_pool_built (c : nat) :
  forall (lo : Z) (pool : list Matrix3cd) (g : libc_rand),
  for_range lo c (fun (_ : Z) '(pool, g) =>
    '(randSU3, g) <- randomSU3 householderQ cpow uninitialized eps g ;;
    let pool := pool ++ [randSU3] in
    let pool := pool ++ [adjoint randSU3] in
    Ok (pool, g)) (pool, g) =
  Ok (pool ++ fst (pool_list rnd c g), snd (pool_list rnd c g)).
Proof.
  induction c as [|c IH]; intros lo pool g.
  - cbn [for_range pool_list fst snd]. rewrite app_nil_r. reflexivity.
  - cbn [for_range pool_list]. rewrite randomSU3_value.
    change (Ok _) with (Ok (rnd g)) at 1.
    destruct (rnd g) as [M g1]. cbn [bind]. rewrite IH.
    destruct (pool_list rnd c g1) as [l g2]. cbn [fst snd].
    rewrite <- !app_assoc. reflexivity.
Qed.

End Constructor.

Lemma new_Lattice_built (householderQ : Matrix3cd -> Matrix3cd)
    (cpow : complex -> R -> complex) (uninitialized : Matrix3cd)
    (n : Z) (beta : R) (Ncor Ncf : Z) (eps : R) (g : libc_rand) :
  0 <= n ->
  let rnd := random_link householderQ cpow eps in
  let made := built_links rnd (Z.to_nat n) g in
  new_Lattice householderQ cpow uninitialized n beta Ncor Ncf eps g =
  Built (Lattice.mk Ncor Ncf n beta eps (fst made)
           (fst (pool_list rnd 50 (snd made))))
        (snd (pool_list rnd 50 (snd made))).
Proof.
  intros Hn rnd made. unfold new_Lattice.
  destruct (Z.ltb_spec n 0); [lia|].
  rewrite <- (Z2Nat.id n) at 1 by assumption.
  rewrite new_links_built. fold rnd. fold (built_links rnd (Z.to_nat n) g).
  fold made.
  destruct made as [ls g1]. cbn [bind fst snd].
  unfold new_pool. rewrite new_pool_built. fold rnd.
  destruct (pool_list rnd 50 g1) as [pool g2]. cbn [bind fst snd app]. reflexivity.
Qed.


Lemma advance_0 (g : libc_rand) : advance g 0 = g.
Proof.
  destruct g as [mx sq ps]. unfold advance. cbn [RAND_MAX rand_seq rand_pos].
  f_equal. lia.
Qed.

Lemma snd_build_list {A : Type} (build : libc_rand -> A * libc_rand) (c : nat) :
  (forall g, snd (build g) = advance g c) ->
  forall (N : nat) (g : libc_rand),
  snd (build_list build N g) = advance g (N * c).
Proof.
  intros Hc. induction N as [|N IH]; intros g.
  - cbn [build_list snd Nat.mul]. symmetry. apply advance_0.
  - cbn [build_list]. pose proof (Hc g) as Hg. destruct (build g) as [a g1].
    specialize (IH g1). destruct (build_list build N g1) as [l g2].
    cbn [snd] in *. subst. rewrite advance_advance. f_equal.
Qed.

Lemma sized_build_list {A G : Type} (build : G -> A * G) (inner : A -> Prop)
    (N : nat) (g : G) :
  (forall g', inner (fst (build g'))) ->
  sized (Z.of_nat N) inner (fst (build_list build N g)).
Proof.
  intros H. split.
  - rewrite length_build_list. reflexivity.
  - apply Forall_build_list. assumption.
Qed.

Lemma snd_pool_list (rnd : libc_rand -> Matrix3cd * libc_rand) (k : nat) :
  (forall g, snd (rnd g) = advance g k) ->
  forall (c : nat) (g : libc_rand),
  snd (pool_list rnd c g) = advance g (c * k).
Proof.
  intros Hk. induction c as [|c IH]; intros g.
  - cbn [pool_list snd Nat.mul]. symmetry. apply advance_0.
  - cbn [pool_list]. pose proof (Hk g) as Hg. destruct (rnd g) as [M g1].
    specialize (IH g1). destruct (pool_list rnd c g1) as [l g2].
    cbn [snd] in *. subst. rewrite advance_advance. f_equal.
Qed.

Lemma length_pool_list (rnd : libc_rand -> Matrix3cd * libc_rand) (c : nat) :
  forall g : libc_rand, length (fst (pool_list rnd c g)) = (2 * c)%nat.
Proof.
  induction c as [|c IH]; intros g; [reflexivity|].
  cbn [pool_list]. destruct (rnd g) as [M g1].
  specialize (IH g1). destruct (pool_list rnd c g1) as [l g2].
  cbn [fst length] in *. lia.
Qed.

Lemma pool_list_pairs (rnd : libc_rand -> Matrix3cd * libc_rand) (c : nat) :
  forall (g : libc_rand) (q : nat), (q < c)%nat ->
  exists M : Matrix3cd,
    nth_error (fst (pool_list rnd c g)) (2 * q) = Some M /\
    nth_error (fst (pool_list rnd c g)) (2 * q + 1) = Some (adjoint M).
Proof.
  induction c as [|c IH]; intros g q Hq; [lia|].
  cbn [pool_list]. destruct (rnd g) as [M g1].
  specialize (IH g1). destruct (pool_list rnd c g1) as [l g2]. cbn [fst] in *.
  destruct q as [|q].
  - exists M. split; reflexivity.
  - destruct (IH q ltac:(lia)) as (M' & H1 & H2). exists M'.
    replace (2 * Datatypes.S q)%nat with (Datatypes.S (Datatypes.S (2 * q))) by lia.
    replace (Datatypes.S (Datatypes.S (2 * q)) + 1)%nat
      with (Datatypes.S (Datatypes.S (2 * q + 1))) by lia.
    split; assumption.
Qed.

Lemma Forall_pool_list (rnd : libc_rand -> Matrix3cd * libc_rand)
    (good : Matrix3cd -> Prop) (c : nat) :
  (forall g, good (fst (rnd g))) ->
  (forall M, good M -> good (adjoint M)) ->
  forall g : libc_rand, Forall good (fst (pool_list rnd c g)).
Proof.
  intros Hrnd Hadj. induction c as [|c IH]; intros g; [constructor|].
  cbn [pool_list]. pose proof (Hrnd g) as Hg. destruct (rnd g) as [M g1].
  specialize (IH g1). destruct (pool_list rnd c g1) as [l g2]. cbn [fst] in *.
  repeat constructor; auto.
Qed.

Lemma all_links_Forall (good : Matrix3cd -> Prop) (ls : link_store) :
  Forall (Forall (Forall (Forall (Forall good)))) ls -> all_links good ls.
Proof.
  intros H i j k l m u Hu. unfold links_at in Hu.
  apply bind_Ok in Hu. destruct Hu as (a & Ha & Hu).
  apply bind_Ok in Hu. destruct Hu as (b & Hb & Hu).
  apply bind_Ok in Hu. destruct Hu as (c & Hc & Hu).
  apply bind_Ok in Hu. destruct Hu as (d & Hd & Hu).
  apply vec_get_In in Ha, Hb, Hc, Hd, Hu.
  rewrite Forall_forall in H. specialize (H a Ha).
  rewrite Forall_forall in H. specialize (H b Hb).
  rewrite Forall_forall in H. specialize (H c Hc).
  rewrite Forall_forall in H. specialize (H d Hd).
  rewrite Forall_forall in H. exact (H u Hu).
Qed.

Lemma special_unitary_adjoint (A : Matrix3cd) :
  special_unitary A -> special_unitary (adjoint A).
Proof.
  intros [HA Hd]. split; [apply unitary_adjoint; assumption|].
  rewrite determinant_adjoint, Hd. unfold Cconj, Cone. cbn [re im]. f_equal. lra.
Qed.

(** ** The constructor *)

(** X14.  For [n >= 0] the constructor returns.  It stores its arguments,
    leaves [links] with [n] x [n] x [n] x [n] sites of 4 matrices each and
    [randSU3s] with 100 matrices, the one at every odd position being the
    adjoint of the one before it, and has called [rand()] exactly
    [18 * (4 n^4 + 50)] times. *)
Theorem new_Lattice_shape (householderQ : Matrix3cd -> Matrix3cd)
    (cpow : complex -> R -> complex) (uninitialized : Matrix3cd)
    (n : Z) (beta : R) (Ncor Ncf : Z) (eps : R) (g : libc_rand) :
  0 <= n ->
  exists L : Lattice.t,
    new_Lattice householderQ cpow uninitialized n beta Ncor Ncf eps g =
      Built L (advance g (18 * (4 * Z.to_nat n ^ 4 + 50))%nat) /\
    Lattice.n L = n /\ Lattice.beta L = beta /\ Lattice.Ncor L = Ncor /\
    Lattice.Ncf L = Ncf /\ Lattice.eps L = eps /\
    sized n (sized n (sized n (sized n (sized 4 (fun _ : Matrix3cd => True)))))
      (Lattice.links L) /\
    (0 < n -> well_formed L) /\
    length (Lattice.randSU3s L) = 100%nat /\
    (forall q : nat, (q < 50)%nat ->
       exists M : Matrix3cd,
         nth_error (Lattice.randSU3s L) (2 * q) = Some M /\
         nth_error (Lattice.randSU3s L) (2 * q + 1) = Some (adjoint M)).
Proof.
  intros Hn.
  pose proof (new_Lattice_built householderQ cpow uninitialized n beta Ncor Ncf
                eps g Hn) as HL.
  cbv zeta in HL.
  set (rnd := random_link householderQ cpow eps) in *.
  assert (sized n (sized n (sized n (sized n (sized 4 (fun _ : Matrix3cd => True)))))
            (fst (built_links rnd (Z.to_nat n) g))) as Hshape.
  { unfold built_links. rewrite <- (Z2Nat.id n) at 1 2 3 4 by assumption.
    apply sized_build_list. intros g1.
    apply sized_build_list. intros g2.
    apply sized_build_list. intros g3.
    apply sized_build_list. intros g4.
    apply (sized_build_list rnd (fun _ => True) 4). intros g5. exact I. }
  eexists. split.
  { rewrite HL. f_equal.
    rewrite (snd_pool_list rnd 18) by reflexivity.
    assert (snd (built_links rnd (Z.to_nat n) g) =
            advance g (Z.to_nat n * (Z.to_nat n * (Z.to_nat n *
                         (Z.to_nat n * (4 * 18)))))) as ->.
    { unfold built_links.
      apply snd_build_list. intros g1. apply snd_build_list.
      intros g2. apply snd_build_list. intros g3. apply snd_build_list.
      intros g4. apply (snd_build_list rnd 18). reflexivity. }
    rewrite advance_advance. f_equal. cbn [Nat.pow]. lia. }
  do 5 (split; [reflexivity|]).
  split; [exact Hshape|].
  split; [intros Hpos; split; [exact Hpos | exact Hshape]|].
  cbn [Lattice.randSU3s].
  split; [apply length_pool_list | apply pool_list_pairs].
Qed.

Lemma new_Lattice_shape_witness :
  0 <= 2 /\
  exists L : Lattice.t,
    new_Lattice (fun _ => flip23) (fun _ _ => Cone) Identity 2 1 1 1
      (24 / 100) tie_rand =
      Built L (advance tie_rand (18 * (4 * Z.to_nat 2 ^ 4 + 50))%nat) /\
    Lattice.n L = 2 /\ Lattice.beta L = 1%R /\ Lattice.Ncor L = 1 /\
    Lattice.Ncf L = 1 /\ Lattice.eps L = (24 / 100)%R /\
    sized 2 (sized 2 (sized 2 (sized 2 (sized 4 (fun _ : Matrix3cd => True)))))
      (Lattice.links L) /\
    (0 < 2 -> well_formed L) /\
    length (Lattice.randSU3s L) = 100%nat /\
    (forall q : nat, (q < 50)%nat ->
       exists M : Matrix3cd,
         nth_error (Lattice.randSU3s L) (2 * q) = Some M /\
         nth_error (Lattice.randSU3s L) (2 * q + 1) = Some (adjoint M)).
Proof.
  split; [lia|].
  apply (new_Lattice_shape (fun _ => flip23) (fun _ _ => Cone) Identity
           2 1 1 1 (24 / 100) tie_rand).
  lia.
Defined.

Section ConstructorGroup.

Variable householderQ : Matrix3cd -> Matrix3cd.
Variable cpow : complex -> R -> complex.
Variable uninitialized : Matrix3cd.

Hypothesis householderQ_unitary : forall B, unitary (householderQ B).
Hypothesis cpow_cube_root : forall B,
  let c := cpow (determinant (householderQ B)) (1 / 3) in
  Cmul c (Cmul c c) = determinant (householderQ B).

Lemma random_link_special_unitary (eps : R) (g : libc_rand) :
  special_unitary (fst (random_link householderQ cpow eps g)).
Proof.
  unfold random_link. cbn [fst]. cbv zeta.
  apply special_unitary_quotient; [apply householderQ_unitary|].
  apply cpow_cube_root.
Qed.

(** X15.  If [householderQ()] yields unitary matrices and [pow(z, 1./3)] a
    cube root, every link and every pool matrix of a newly constructed
    lattice is special unitary. *)
Theorem new_Lattice_SU3 (n : Z) (beta : R) (Ncor Ncf : Z) (eps : R)
    (g : libc_rand) :
  0 <= n ->
  exists (L : Lattice.t) (g' : libc_rand),
    new_Lattice householderQ cpow uninitialized n beta Ncor Ncf eps g =
      Built L g' /\
    all_links special_unitary (Lattice.links L) /\
    Forall special_unitary (Lattice.randSU3s L).
Proof.
  intros Hn. eexists. eexists.
  split; [apply new_Lattice_built; assumption|]. cbv zeta.
  cbn [Lattice.links Lattice.randSU3s]. split.
  - apply all_links_Forall. unfold built_links.
    apply Forall_build_list. intros g1.
    apply Forall_build_list. intros g2.
    apply Forall_build_list. intros g3.
    apply Forall_build_list. intros g4.
    apply Forall_build_list. intros g5.
    apply random_link_special_unitary.
  - apply Forall_pool_list.
    + intros g1. apply random_link_special_unitary.
    + apply special_unitary_adjoint.
Qed.

End ConstructorGroup.

Lemma new_Lattice_SU3_witness :
  0 <= 2 /\
  exists (L : Lattice.t) (g' : libc_rand),
    new_Lattice (fun _ => flip23) (fun _ _ => Cone) Identity 2 1 1 1
      (24 / 100) tie_rand = Built L g' /\
    all_links special_unitary (Lattice.links L) /\
    Forall special_unitary (Lattice.randSU3s L).
Proof.
  split; [lia|].
  apply (new_Lattice_SU3 (fun _ => flip23) (fun _ _ => Cone) Identity).
  - intros B. apply special_unitary_flip23.
  - intros B. cbv zeta.
    destruct special_unitary_flip23 as [_ ->]. rewrite Cmul_Cone. apply Cmul_Cone.
  - lia.
Defined.

(** ** The order in which the constructor draws *)

Lemma vec_get_build_list {A : Type} (build : libc_rand -> A * libc_rand)
    (c : nat) :
  (forall g, snd (build g) = advance g c) ->
  forall (N : nat) (g : libc_rand) (q : nat), (q < N)%nat ->
  vec_get (fst (build_list build N g)) (Z.of_nat q) =
    Ok (fst (build (advance g (q * c)))).
Proof.
  intros Hc N g q Hq. apply vec_get_Ok. split; [lia|]. rewrite Nat2Z.id.
  revert g q Hq. induction N as [|N IH]; intros g q Hq; [lia|].
  cbn [build_list]. pose proof (Hc g) as Hg. destruct (build g) as [a g1] eqn:Hb.
  specialize (IH g1). destruct (build_list build N g1) as [l g2].
  cbn [fst snd] in *. destruct q as [|q].
  - cbn [nth_error Nat.mul]. rewrite advance_0, Hb. reflexivity.
  - cbn [nth_error]. rewrite IH by lia. subst g1. rewrite advance_advance.
    reflexivity.
Qed.

Lemma pool_list_even (rnd : libc_rand -> Matrix3cd * libc_rand) (k : nat) :
  (forall g, snd (rnd g) = advance g k) ->
  forall (c : nat) (g : libc_rand) (q : nat), (q < c)%nat ->
  nth_error (fst (pool_list rnd c g)) (2 * q) =
    Some (fst (rnd (advance g (q * k)))).
Proof.
  intros Hk. induction c as [|c IH]; intros g q Hq; [lia|].
  cbn [pool_list]. pose proof (Hk g) as Hg. destruct (rnd g) as [M g1] eqn:Hb.
  specialize (IH g1). destruct (pool_list rnd c g1) as [l g2].
  cbn [fst snd] in *. destruct q as [|q].
  - cbn [nth_error Nat.mul]. rewrite advance_0, Hb. reflexivity.
  - replace (2 * Datatypes.S q)%nat with (Datatypes.S (Datatypes.S (2 * q))) by lia.
    cbn [nth_error]. rewrite IH by lia. subst g1. rewrite advance_advance.
    reflexivity.
Qed.

Lemma built_links_at (rnd : libc_rand -> Matrix3cd * libc_rand) (N : nat)
    (g : libc_rand) (i j k l m : nat) :
  (forall g, snd (rnd g) = advance g 18) ->
  (i < N)%nat -> (j < N)%nat -> (k < N)%nat -> (l < N)%nat -> (m < 4)%nat ->
  links_at (fst (built_links rnd N g)) (Z.of_nat i) (Z.of_nat j) (Z.of_nat k)
    (Z.of_nat l) (Z.of_nat m) =
  Ok (fst (rnd (advance g (18 * (4 * (l + N * (k + N * (j + N * i))) + m))))).
Proof.
  intros Hrnd Hi Hj Hk Hl Hm.
  assert (forall g, snd (build_list rnd 4 g) = advance g (4 * 18)) as H1
    by (apply snd_build_list; assumption).
  assert (forall g, snd (build_list (build_list rnd 4) N g) =
                    advance g (N * (4 * 18))) as H2
    by (apply snd_build_list; assumption).
  assert (forall g, snd (build_list (build_list (build_list rnd 4) N) N g) =
                    advance g (N * (N * (4 * 18)))) as H3
    by (apply snd_build_list; assumption).
  assert (forall g,
            snd (build_list (build_list (build_list (build_list rnd 4) N) N) N g) =
            advance g (N * (N * (N * (4 * 18))))) as H4
    by (apply snd_build_list; assumption).
  unfold links_at, built_links, link_store.
  rewrite (vec_get_build_list _ _ H4 N g i Hi). cbn [bind].
  rewrite (vec_get_build_list _ _ H3 N _ j Hj). cbn [bind].
  rewrite (vec_get_build_list _ _ H2 N _ k Hk). cbn [bind].
  rewrite (vec_get_build_list _ _ H1 N _ l Hl). cbn [bind].
  rewrite (vec_get_build_list _ _ Hrnd 4 _ m Hm).
  rewrite !advance_advance. do 4 apply f_equal. lia.
Qed.

(** X16.  The constructor makes every matrix from 18 calls of [rand()] of
    its own, in storage order: the link [(x, m)] from the draws starting at
    number [18 * (4 * index(x) + m)], and the pool matrix at position [2 q]
    from those starting at [18 * (4 n^4 + q)]. *)
Theorem new_Lattice_draw_order (householderQ : Matrix3cd -> Matrix3cd)
    (cpow : complex -> R -> complex) (uninitialized : Matrix3cd)
    (n : Z) (beta : R) (Ncor Ncf : Z) (eps : R) (g : libc_rand) :
  0 <= n ->
  exists (L : Lattice.t) (g' : libc_rand),
    new_Lattice householderQ cpow uninitialized n beta Ncor Ncf eps g =
      Built L g' /\
    (forall i j k l m : Z,
       in_lattice n (i, j, k, l) -> valid_direction m ->
       links_at (Lattice.links L) i j k l m =
         Ok (fst (random_link householderQ cpow eps
                    (advance g (Z.to_nat (18 * (4 * Lattice.index L i j k l + m))))))) /\
    (forall q : Z, 0 <= q < 50 ->
       nth_error (Lattice.randSU3s L) (Z.to_nat (2 * q)) =
         Some (fst (random_link householderQ cpow eps
                      (advance g (Z.to_nat (18 * (4 * n ^ 4 + q))))))).
Proof.
  intros Hn. eexists. eexists.
  split; [apply new_Lattice_built; assumption|]. cbv zeta.
  cbn [Lattice.links Lattice.randSU3s]. unfold Lattice.index. cbn [Lattice.n].
  set (rnd := random_link householderQ cpow eps).
  assert (forall g, snd (rnd g) = advance g 18) as Hrnd by reflexivity.
  destruct (Z_of_nat_complete n Hn) as [N ->]. rewrite Nat2Z.id.
  split.
  - intros i j k l m (Hi & Hj & Hk & Hl) Hm. unfold valid_direction in Hm.
    destruct (Z_of_nat_complete i ltac:(lia)) as [i' ->].
    destruct (Z_of_nat_complete j ltac:(lia)) as [j' ->].
    destruct (Z_of_nat_complete k ltac:(lia)) as [k' ->].
    destruct (Z_of_nat_complete l ltac:(lia)) as [l' ->].
    destruct (Z_of_nat_complete m ltac:(lia)) as [m' ->].
    rewrite (built_links_at rnd N g i' j' k' l' m' Hrnd) by lia.
    do 4 apply f_equal. apply Nat2Z.inj. rewrite Z2Nat.id by nia. lia.
  - intros q Hq.
    destruct (Z_of_nat_complete q ltac:(lia)) as [q' ->].
    replace (Z.to_nat (2 * Z.of_nat q')) with (2 * q')%nat by lia.
    rewrite (pool_list_even rnd 18 Hrnd) by lia.
    assert (snd (built_links rnd N g) =
            advance g (N * (N * (N * (N * (4 * 18)))))) as ->.
    { unfold built_links.
      apply snd_build_list. intros g1. apply snd_build_list.
      intros g2. apply snd_build_list. intros g3. apply snd_build_list.
      intros g4. apply (snd_build_list rnd 18). reflexivity. }
    rewrite advance_advance. do 4 apply f_equal.
    change (Z.of_nat N ^ 4)
      with (Z.of_nat N * (Z.of_nat N * (Z.of_nat N * (Z.of_nat N * 1)))).
    apply Nat2Z.inj. rewrite Z2Nat.id by nia. lia.
Qed.

Lemma new_Lattice_draw_order_witness :
  0 <= 2 /\
  exists (L : Lattice.t) (g' : libc_rand),
    new_Lattice (fun _ => flip23) (fun _ _ => Cone) Identity 2 1 1 1
      (24 / 100) tie_rand = Built L g' /\
    (forall i j k l m : Z,
       in_lattice 2 (i, j, k, l) -> valid_direction m ->
       links_at (Lattice.links L) i j k l m =
         Ok (fst (random_link (fun _ => flip23) (fun _ _ => Cone) (24 / 100)
                    (advance tie_rand
                       (Z.to_nat (18 * (4 * Lattice.index L i j k l + m))))))) /\
    (forall q : Z, 0 <= q < 50 ->
       nth_error (Lattice.randSU3s L) (Z.to_nat (2 * q)) =
         Some (fst (random_link (fun _ => flip23) (fun _ _ => Cone) (24 / 100)
                      (advance tie_rand (Z.to_nat (18 * (4 * 2 ^ 4 + q))))))).
Proof.
  split; [lia|].
  apply (new_Lattice_draw_order (fun _ => flip23) (fun _ _ => Cone) Identity
           2 1 1 1 (24 / 100) tie_rand).
  lia.
Defined.
